(** * ptsa event readers: record compilation ([BaseEventReader])

    A shallow embedding of [ptsa/data/readers/base.py]: the type
    classifier ([get_element_dtype]), the schema compiler ([mkdtype]),
    the capacity scan and record copier ([from_dict], [copy_values]),
    the sanitizer ([replace_nans]), accent stripping ([strip_accents])
    and the JSON entry point ([read_json]).

    Python values are modelled as a tree ([value]); numpy arrays as a
    dtype together with untyped storage cells ([cell]).  Exceptions are
    results of a small error monad.  The embedding follows Python 3
    (with [six]): [str] is the text type and [bytes] the binary type.

    The compiler is embedded a second time over a store of mutable
    objects ([Store]), where what it does to its input can be stated;
    the two embeddings compute the same array
    ([store_from_dict_refines]). *)

From Stdlib Require Import ZArith Ascii DecimalString DecimalN.
From Stdlib Require Import Floats.SpecFloat.
From stdpp Require Import base option list strings gmap.

Set Warnings "-register-all".

Open Scope Z_scope.

(** ** Exceptions and the result monad *)

Inductive pyexc :=
| IndexError
| KeyError
| TypeError
| AttributeError
| ValueError
| OverflowError
| UnicodeError
| NotImplementedError (msg : string)
| Exception (msg : string).

Global Instance pyexc_eq_dec : EqDecision pyexc.
Proof. solve_decision. Defined.

(** [NoFuel] is not a Python exception: it marks a recursion of the model
    that ran out of its depth budget (see [copy_values]). *)
Inductive result (A : Type) :=
| Ok (a : A)
| Raise (e : pyexc)
| NoFuel.
Global Arguments Ok {A} a.
Global Arguments Raise {A} e.
Global Arguments NoFuel {A}.

Global Instance result_ret : MRet result := λ A a, Ok a.
Global Instance result_bind : MBind result := λ A B f m,
  match m with
  | Ok a => f a
  | Raise e => Raise e
  | NoFuel => NoFuel
  end.
Global Instance result_fmap : FMap result := λ A B f m,
  match m with
  | Ok a => Ok (f a)
  | Raise e => Raise e
  | NoFuel => NoFuel
  end.

(** [try: m except e => h]: a [try]/[except] block catching exactly [e]. *)
Definition try_except {A} (m : result A) (e : pyexc) (h : result A) : result A :=
  match m with
  | Raise e' => if decide (e' = e) then h else Raise e'
  | r => r
  end.

Definition is_Ok {A} (r : result A) : bool :=
  match r with Ok _ => true | _ => false end.

(** ** Python values (the raw records) *)

Inductive value :=
| VNone
| VBool (b : bool)
| VInt (z : Z)
| VFloat (f : spec_float)
| VStr (s : string)      (* six.text_type *)
| VBytes (s : string)    (* six.binary_type *)
| VList (xs : list value)
| VDict (items : list (string * value)).  (* in key insertion order *)

Inductive pytype :=
| t_dict | t_int | t_binary_type | t_text_type | t_string_types
| t_bool | t_float | t_list.

(** [isinstance]: [bool] is a subclass of [int] in Python. *)
Definition isinstance (v : value) (t : pytype) : bool :=
  match t, v with
  | t_dict, VDict _ => true
  | t_int, VInt _ => true
  | t_int, VBool _ => true
  | t_binary_type, VBytes _ => true
  | t_text_type, VStr _ => true
  | t_string_types, VStr _ => true
  | t_bool, VBool _ => true
  | t_float, VFloat _ => true
  | t_list, VList _ => true
  | _, _ => false
  end.

(** Characters of a string as a list. *)
Fixpoint chars (s : string) : list ascii :=
  match s with
  | EmptyString => []
  | String c r => c :: chars r
  end.

Fixpoint of_chars (cs : list ascii) : string :=
  match cs with
  | [] => EmptyString
  | c :: r => String c (of_chars r)
  end.

(** [d.items()] *)
Definition py_items (d : value) : result (list (string * value)) :=
  match d with
  | VDict items => Ok items
  | _ => Raise AttributeError
  end.

Fixpoint assoc {A} (k : string) (items : list (string * A)) : option A :=
  match items with
  | [] => None
  | (k', v) :: r => if decide (k' = k) then Some v else assoc k r
  end.

(** [entry[k]] with a string key [k] *)
Definition py_getitem (entry : value) (k : string) : result value :=
  match entry with
  | VDict items =>
      match assoc k items with
      | Some v => Ok v
      | None => Raise KeyError
      end
  | _ => Raise TypeError
  end.

(** [len(v)] *)
Definition py_len (v : value) : result nat :=
  match v with
  | VList xs => Ok (length xs)
  | VStr s => Ok (length (chars s))
  | VBytes s => Ok (length (chars s))
  | VDict items => Ok (length items)
  | _ => Raise TypeError
  end.

(** The elements that [for element in v] / [enumerate(v)] visits. *)
Definition py_iter (v : value) : result (list value) :=
  match v with
  | VList xs => Ok xs
  | VStr s => Ok ((λ c, VStr (String c EmptyString)) <$> chars s)
  | VBytes s => Ok ((λ c, VInt (Z.of_N (N_of_ascii c))) <$> chars s)
  | VDict items => Ok ((λ kv, VStr kv.1) <$> items)
  | _ => Raise TypeError
  end.

(** [v[0]]; the keys of a record are strings, so [0] is never a key. *)
Definition py_getitem0 (v : value) : result value :=
  match v with
  | VDict _ => Raise KeyError
  | _ =>
      xs ← py_iter v;
      match xs with
      | x :: _ => Ok x
      | [] => Raise IndexError
      end
  end.

(** ** Field types *)

Inductive dtype :=
| int64                                      (* 'int64' *)
| float64                                    (* 'float64' *)
| S256                                       (* 'S256' *)
| U256                                       (* 'U256' *)
| int8                                       (* 'b' is numpy's signed byte *)
| struct (fields : list (string * dtype))    (* np.dtype([(name, type), ...]) *)
| subarray (elem : dtype) (n : nat).         (* a field (name, type, n) *)

(** ** Type classifier and schema compiler *)

Fixpoint get_element_dtype (element : value) : result dtype :=
  if isinstance element t_dict then
    (* cls.mkdtype(element), element being a dict *)
    match element with
    | VDict items =>
        struct <$>
        (fix loop (items : list (string * value)) : result (list (string * dtype)) :=
           match items with
           | [] => Ok []
           | (k, v) :: r =>
               t ← get_element_dtype v;
               ts ← loop r;
               Ok ((k, t) :: ts)
           end) items
    | _ => Raise AttributeError
    end
  else if isinstance element t_int then Ok int64
  else if isinstance element t_binary_type then Ok S256
  else if isinstance element t_text_type then Ok U256
  else if isinstance element t_bool then Ok int8
  else if isinstance element t_float then Ok float64
  else if isinstance element t_list then
    match element with
    | VList (x :: _) => get_element_dtype x
    | _ => Raise IndexError
    end
  else Raise (Exception "Could not convert type").

(** The loop of [mkdtype]: one [(str(k), get_element_dtype(v))] per item. *)
Fixpoint mkdtype_fields (items : list (string * value)) : result (list (string * dtype)) :=
  match items with
  | [] => Ok []
  | (k, v) :: r =>
      t ← get_element_dtype v;
      ts ← mkdtype_fields r;
      Ok ((k, t) :: ts)
  end.

Fixpoint mkdtype (d : value) : result dtype :=
  match d with
  | VList [] => Raise IndexError
  | VList (x :: _) => mkdtype x
  | VDict items => struct <$> mkdtype_fields items
  | _ => Raise AttributeError
  end.


(** ** numpy storage *)

(** The content of a numpy array, record or scalar.  A structured array is
    a [CArr] of [CRec] rows; a fixed-capacity field holds a [CArr]. *)
Inductive cell :=
| CInt (z : Z)                            (* int64 *)
| CFloat (f : spec_float)                 (* float64 *)
| CStr (s : string)                       (* U256 *)
| CBytes (s : string)                     (* S256 *)
| CInt8 (z : Z)                           (* 'b' *)
| CRec (fields : list (string * cell))
| CArr (elems : list cell).

(** The zero value of a dtype, as [np.zeros] fills it in. *)
Fixpoint np_zero (t : dtype) : cell :=
  match t with
  | int64 => CInt 0
  | float64 => CFloat (S754_zero false)
  | S256 => CBytes ""
  | U256 => CStr ""
  | int8 => CInt8 0
  | struct fields =>
      CRec ((fix loop (fields : list (string * dtype)) : list (string * cell) :=
               match fields with
               | [] => []
               | (k, t) :: r => (k, np_zero t) :: loop r
               end) fields)
  | subarray t n => CArr (replicate n (np_zero t))
  end.

(** [np.zeros(n, t)] *)
Definition np_zeros (n : nat) (t : dtype) : cell := CArr (replicate n (np_zero t)).

(** A compiled array: its dtype and its storage. *)
Record ndarray := { nd_dtype : dtype; nd_data : cell }.

(** [len(arr)] *)
Definition np_len (x : cell) : nat :=
  match x with
  | CArr xs => length xs
  | _ => 0%nat
  end.

(** [dtype.names]: the field names in order (none for a plain dtype). *)
Definition dtype_names (t : dtype) : list string :=
  match t with
  | struct fields => fields.*1
  | _ => []
  end.

(** Assignment [d[k] = a] on an insertion-ordered dict. *)
Fixpoint dict_set {A} (k : string) (a : A) (items : list (string * A)) : list (string * A) :=
  match items with
  | [] => [(k, a)]
  | (k', a') :: r =>
      if decide (k' = k) then (k, a) :: r else (k', a') :: dict_set k a r
  end.

(** [x[i]] for an integer [i]: an element of an array, or field number [i]
    of a record. *)
Definition np_getitem (x : cell) (i : nat) : result cell :=
  match x with
  | CArr xs =>
      match xs !! i with
      | Some c => Ok c
      | None => Raise IndexError
      end
  | CRec fields =>
      match fields !! i with
      | Some (_, c) => Ok c
      | None => Raise IndexError
      end
  | _ => Raise IndexError
  end.

(** [row[k]] on a record. *)
Definition np_getfield (row : cell) (k : string) : result cell :=
  match row with
  | CRec fields =>
      match assoc k fields with
      | Some c => Ok c
      | None => Raise ValueError
      end
  | _ => Raise IndexError
  end.

(** Indexing returns views: an update made through [x[i]] lands in [x].
    [update_index x i f] rewrites what [x[i]] refers to with [f]. *)
Definition update_index (x : cell) (i : nat) (f : cell → result cell) : result cell :=
  match x with
  | CArr xs =>
      match xs !! i with
      | Some c => c' ← f c; Ok (CArr (<[i := c']> xs))
      | None => Raise IndexError
      end
  | CRec fields =>
      match fields !! i with
      | Some (k, c) => c' ← f c; Ok (CRec (<[i := (k, c')]> fields))
      | None => Raise IndexError
      end
  | _ => Raise IndexError
  end.

Definition update_field (row : cell) (k : string) (f : cell → result cell) : result cell :=
  match row with
  | CRec fields =>
      match assoc k fields with
      | Some c => c' ← f c; Ok (CRec (dict_set k c' fields))
      | None => Raise ValueError
      end
  | _ => Raise IndexError
  end.

Definition set_field (k : string) (c : cell) (row : cell) : cell :=
  match row with
  | CRec fields => CRec (dict_set k c fields)
  | _ => row
  end.

(** [x[k]] on a structured array is the column of field [k], again a view. *)
Definition update_column (x : cell) (k : string) (f : cell → result cell) : result cell :=
  match x with
  | CArr rows =>
      col ← mapM (λ row, np_getfield row k) rows;
      col' ← f (CArr col);
      match col' with
      | CArr cs =>
          Ok (CArr (imap (λ i row, match cs !! i with
                                   | Some c => set_field k c row
                                   | None => row
                                   end) rows))
      | _ => Ok x
      end
  | _ => update_field x k f
  end.

Definition int64_min : Z := - 2 ^ 63.
Definition int64_max : Z := 2 ^ 63 - 1.

(** A 'U256' or 'S256' slot keeps at most 256 characters. *)
Definition truncate256 (s : string) : string := of_chars (take 256 (chars s)).

(** ** Regular-expression character classes *)

Inductive class_item :=
| Range (lo hi : ascii)
| Lit (c : ascii).

Definition in_item (c : ascii) (it : class_item) : bool :=
  match it with
  | Range lo hi => (N_of_ascii lo <=? N_of_ascii c)%N && (N_of_ascii c <=? N_of_ascii hi)%N
  | Lit x => bool_decide (c = x)
  end.

Definition in_class (cls : list class_item) (c : ascii) : bool :=
  existsb (in_item c) cls.

(** [re.sub('[^...]', '', s)]: every character outside the class is deleted. *)
Definition re_sub_not_in_class (cls : list class_item) (s : string) : string :=
  of_chars (List.filter (in_class cls) (chars s)).

(** The class of [r'[^A-Za-z0-9 -_.]']: inside brackets [ -_] is the range
    from space to underscore. *)
Definition fallback_class : list class_item :=
  [Range "A" "Z"; Range "a" "z"; Range "0" "9"; Range " " "_"; Lit "."]%char.

(** ** The record copier and the batch compiler *)

Record list_info_entry := { li_len : nat; li_dtype : option dtype }.

(** [bool(dtype)] for the values [list_info[k]['dtype']] takes: [None] is
    false, a dtype name is a non-empty string, and a [np.dtype] object is
    as true as its number of fields ([__len__]). *)
Definition dtype_truthy (t : option dtype) : bool :=
  match t with
  | None => false
  | Some (struct []) => false
  | Some _ => true
  end.

Fixpoint for_each {A St} (f : St → A → result St) (xs : list A) (s : St) : result St :=
  match xs with
  | [] => Ok s
  | x :: r => s' ← f s x; for_each f r s'
  end.

Fixpoint for_enumerate {A St} (f : nat → St → A → result St) (i : nat) (xs : list A)
    (s : St) : result St :=
  match xs with
  | [] => Ok s
  | x :: r => s' ← f i s x; for_enumerate f (S i) r s'
  end.

Fixpoint depth (v : value) : nat :=
  match v with
  | VList xs => S (foldr (λ x n, depth x `max` n)%nat 0%nat xs)
  | VDict items => S (foldr (λ kv n, depth kv.2 `max` n)%nat 0%nat items)
  | _ => 0%nat
  end.

Definition list_depth (xs : list value) : nat :=
  foldr (λ x n, depth x `max` n)%nat 0%nat xs.

Section Compiler.

(** What lies outside the repository is taken as given:
    - [unicode_nfd s] is [unicodedata.normalize('NFD', six.text_type(s))],
      which may raise [UnicodeError];
    - [category_Mn c] tells whether [unicodedata.category(c) == 'Mn'];
    - [np_cast old v] is numpy's conversion of a Python value [v] whose
      kind differs from the slot [old] it is assigned to. *)
Variable unicode_nfd : string → result string.
Variable category_Mn : ascii → bool.
Variable np_cast : cell → value → result cell.

Definition strip_accents (s : string) : result string :=
  try_except
    (t ← unicode_nfd s;
     Ok (of_chars (List.filter (λ c, negb (category_Mn c)) (chars t))))
    UnicodeError
    (Ok (re_sub_not_in_class fallback_class s)).

(** [slot = v]: storing a Python value in a slot that holds [old]. *)
Definition np_store (old : cell) (v : value) : result cell :=
  match old, v with
  | CInt _, VInt z =>
      if decide (int64_min ≤ z ≤ int64_max)%Z then Ok (CInt z) else Raise OverflowError
  | CInt _, VBool b => Ok (CInt (if b then 1 else 0))
  | CFloat _, VFloat f => Ok (CFloat f)
  | CStr _, VStr s => Ok (CStr (truncate256 s))
  | CBytes _, VBytes s => Ok (CBytes (truncate256 s))
  | _, _ => np_cast old v
  end.

(** [list_info and k in list_info] *)
Definition in_list_info (list_info : option (gmap string list_info_entry)) (k : string)
  : bool :=
  match list_info with
  | Some li => bool_decide (li ≠ ∅) && bool_decide (is_Some (li !! k))
  | None => false
  end.

(** The dict comprehension of [copy_values]: for every key of the first
    record that holds a dict, the column of that key over all records. *)
Definition build_dict_fields (dict_list : list value) (items0 : list (string * value))
  : result (list (string * list value)) :=
  for_each (λ dict_fields kv,
              if isinstance kv.2 t_dict then
                col ← mapM (λ inner_dict, py_getitem inner_dict kv.1) dict_list;
                Ok (dict_set kv.1 col dict_fields)
              else Ok dict_fields)
           items0 [].

Section Passes.
(** [self_call dl arr] stands for the recursive call
    [cls.copy_values(dl, arr)], always made without [list_info]. *)
Variable self_call : list value → cell → result cell.
Variable dict_fields : list (string * list value).
Variable list_info : option (gmap string list_info_entry).

(** Body of the first loop, for row [i] and item [(k, v)]. *)
Definition copy_scalar (i : nat) (rec_arr : cell) (kv : string * value) : result cell :=
  let '(k, v) := kv in
  if bool_decide (is_Some (assoc k dict_fields)) || in_list_info list_info k then
    Ok rec_arr
  else if isinstance v t_dict then
    update_index rec_arr i (λ row, update_field row k (λ c, self_call [v] c))
  else if isinstance v t_string_types then
    match v with
    | VStr s =>
        s' ← strip_accents s;
        update_index rec_arr i (λ row, update_field row k (λ c, np_store c (VStr s')))
    | _ => Raise TypeError
    end
  else
    update_index rec_arr i (λ row, update_field row k (λ c, np_store c v)).

Definition scalar_pass (dict_list : list value) (rec_arr : cell) : result cell :=
  for_enumerate (λ i rec_arr sub_dict,
                   items ← py_items sub_dict;
                   for_each (copy_scalar i) items rec_arr)
                0%nat dict_list rec_arr.

(** [for j, element in enumerate(v): arr[j] = element] *)
Definition fill_elements (elements : list value) (arr : cell) : result cell :=
  for_enumerate (λ j arr element, update_index arr j (λ c, np_store c element))
                0%nat elements arr.

(** The buffer built for one list field of one record. *)
Definition list_buffer (e : list_info_entry) (v : value) : result cell :=
  let arr := np_zeros (li_len e) (default float64 (li_dtype e)) in
  n ← py_len v;
  if (0 <? n)%nat then
    v0 ← py_getitem0 v;
    if isinstance v0 t_dict then
      elements ← py_iter v;
      self_call elements arr
    else
      elements ← py_iter v;
      fill_elements elements arr
  else Ok arr.

(** Body of the second loop. *)
Definition copy_list (i : nat) (rec_arr : cell) (kv : string * value) : result cell :=
  let '(k, v) := kv in
  if in_list_info list_info k then
    match list_info ≫= (.!! k) with
    | Some e =>
        arr ← list_buffer e v;
        update_index rec_arr i (λ row, update_field row k (λ _, Ok arr))
    | None => Raise KeyError
    end
  else Ok rec_arr.

Definition list_pass (dict_list : list value) (rec_arr : cell) : result cell :=
  for_enumerate (λ i rec_arr sub_dict,
                   items ← py_items sub_dict;
                   for_each (copy_list i) items rec_arr)
                0%nat dict_list rec_arr.

(** The third loop: nested records are copied column by column. *)
Definition dict_pass (rec_arr : cell) : result cell :=
  for_each (λ rec_arr kv, update_column rec_arr kv.1 (self_call kv.2))
           dict_fields rec_arr.
End Passes.

Fixpoint copy_values (fuel : nat) (dict_list : list value) (rec_arr : cell)
    (list_info : option (gmap string list_info_entry)) : result cell :=
  match fuel with
  | O => NoFuel
  | S fuel =>
      match dict_list with
      | [] => Ok rec_arr
      | first :: _ =>
          let self_call := λ dl arr, copy_values fuel dl arr None in
          items0 ← py_items first;
          dict_fields ← build_dict_fields dict_list items0;
          rec_arr ← scalar_pass self_call dict_fields list_info dict_list rec_arr;
          rec_arr ← list_pass self_call list_info dict_list rec_arr;
          dict_pass self_call dict_fields rec_arr
      end
  end.

(** [list_names]: the keys of the first record that hold a list. *)
Definition list_names_of (items0 : list (string * value)) : list string :=
  (List.filter (λ kv : string * value, isinstance kv.2 t_list) items0).*1.

(** One step of the capacity scan, for record [entry] and field [k]. *)
Definition scan_field (entry : value) (list_info : gmap string list_info_entry)
    (k : string) : result (gmap string list_info_entry) :=
  v ← py_getitem entry k;
  n ← py_len v;
  let e := default {| li_len := 0; li_dtype := None |} (list_info !! k) in
  let len := (li_len e `max` n)%nat in
  if negb (dtype_truthy (li_dtype e)) && (0 <? n)%nat then
    v0 ← py_getitem0 v;
    t ← (if isinstance v0 t_dict then mkdtype v0 else get_element_dtype v);
    Ok (<[k := {| li_len := len; li_dtype := Some t |}]> list_info)
  else
    Ok (<[k := {| li_len := len; li_dtype := li_dtype e |}]> list_info).

Definition scan_lists (list_names : list string) (d : list value)
  : result (gmap string list_info_entry) :=
  for_each (λ list_info entry, for_each (scan_field entry) list_names list_info) d ∅.

(** The schema: one field per key of the first record, in order. *)
Definition make_dtypes (list_info : gmap string list_info_entry)
    (items0 : list (string * value)) : result (list (string * dtype)) :=
  for_each (λ dtypes kv,
              match list_info !! kv.1 with
              | None => t ← get_element_dtype kv.2; Ok (dtypes ++ [(kv.1, t)])
              | Some e =>
                  Ok (dtypes ++ [(kv.1, subarray (default float64 (li_dtype e)) (li_len e))])
              end)
           items0 [].

Definition from_dict (d : value) : result ndarray :=
  let d := match d with VList xs => xs | _ => [d] end in
  d0 ← py_getitem0 (VList d);
  items0 ← py_items d0;
  let list_names := list_names_of items0 in
  list_info ← scan_lists list_names d;
  dtypes ← make_dtypes list_info items0;
  match dtypes with
  | _ :: _ =>
      let arr := np_zeros (length d) (struct dtypes) in
      arr ← copy_values (S (list_depth d)) d arr (Some list_info);
      Ok {| nd_dtype := struct dtypes; nd_data := arr |}
  | [] => Ok {| nd_dtype := float64; nd_data := CArr [] |}
  end.

End Compiler.

(** ** The sanitizer *)

(** A boolean selector with the shape of the column it was computed from. *)
Inductive mask :=
| MBit (b : bool)
| MArr (elems : list mask).

Definition float_isnan (f : spec_float) : bool :=
  match f with
  | S754_nan => true
  | _ => false
  end.

(** [np.isnan] is defined on numeric dtypes only, and elementwise on arrays
    of them; on text, bytes and record dtypes it raises [TypeError]. *)
Fixpoint isnan_supported (t : dtype) : bool :=
  match t with
  | int64 | float64 | int8 => true
  | subarray t _ => isnan_supported t
  | S256 | U256 | struct _ => false
  end.

Fixpoint isnan_mask (c : cell) : mask :=
  match c with
  | CFloat f => MBit (float_isnan f)
  | CArr xs => MArr (isnan_mask <$> xs)
  | _ => MBit false
  end.

Definition np_isnan (t : dtype) (col : cell) : result mask :=
  if isnan_supported t then Ok (isnan_mask col) else Raise TypeError.

(** [float(z)], rounded to the nearest double. *)
Definition float_of_int (z : Z) : spec_float := binary_normalize 53 1024 z 0 false.

(** [col[selector] = val]: the selected elements take the value [val]. *)
Fixpoint np_putmask (val : Z) (col : cell) (selector : mask) {struct col} : cell :=
  match col, selector with
  | CArr xs, MArr ms =>
      CArr ((fix loop (xs : list cell) (ms : list mask) : list cell :=
               match xs, ms with
               | x :: xs, m :: ms => np_putmask val x m :: loop xs ms
               | xs, _ => xs
               end) xs ms)
  | CFloat f, MBit true => CFloat (float_of_int val)
  | CInt z, MBit true => CInt val
  | CInt8 z, MBit true => CInt8 val
  | c, _ => c
  end.

(** [evs.dtype.descr], reduced to names and types. *)
Definition dtype_descr (t : dtype) : list (string * dtype) :=
  match t with
  | struct fields => fields
  | _ => [("", t)]
  end.

(** The body of the loop of [replace_nans], with its [try]/[except]. *)
Definition replace_nans_field (replacement_val : Z) (t : dtype) (data : cell)
    (descr : string * dtype) : result cell :=
  let field_name := descr.1 in
  try_except
    (match t with
     | struct fields =>
         if bool_decide (is_Some (assoc field_name fields)) then
           update_column data field_name
             (λ col, nan_selector ← np_isnan descr.2 col;
                     Ok (np_putmask replacement_val col nan_selector))
         else Raise ValueError
     | _ => Raise IndexError
     end)
    TypeError
    (Ok data).

Definition replace_nans (evs : ndarray) (replacement_val : Z) : result ndarray :=
  data ← for_each (replace_nans_field replacement_val (nd_dtype evs))
                  (dtype_descr (nd_dtype evs)) (nd_data evs);
  Ok {| nd_dtype := nd_dtype evs; nd_data := data |}.

(** The default of the keyword argument [replacement_val]. *)
Definition default_replacement_val : Z := -999.

(** ** The reader and its JSON entry point *)

Record BaseEventReader := {
  filename : string;
  common_root : string;
  eliminate_events_with_no_eeg : bool;
  eliminate_nans : bool;
  use_reref_eeg : bool;
  normalize_eeg_path : bool;
  _alter_eeg_path_flag : bool
}.

(** [__init__], with the defaults of its keyword arguments. *)
Definition init (filename : string) (common_root : option string)
    (eliminate_events_with_no_eeg eliminate_nans use_reref_eeg normalize_eeg_path : option bool)
  : BaseEventReader :=
  {| filename := filename;
     common_root := default "data/events" common_root;
     eliminate_events_with_no_eeg := default true eliminate_events_with_no_eeg;
     eliminate_nans := default true eliminate_nans;
     use_reref_eeg := default false use_reref_eeg;
     normalize_eeg_path := default true normalize_eeg_path;
     _alter_eeg_path_flag := negb (default false use_reref_eeg) |}.

(** What a read does to the outside world: the files it opened, latest
    first. *)
Record world := { opened : list string }.

(** A computation that may raise and that acts on the world. *)
Definition io (A : Type) : Type := world → result A * world.

Global Instance io_ret : MRet io := λ A a w, (Ok a, w).
Global Instance io_bind : MBind io := λ A B f m w,
  match m w with
  | (Ok a, w') => f a w'
  | (Raise e, w') => (Raise e, w')
  | (NoFuel, w') => (NoFuel, w')
  end.

(** A pure step, which leaves the world alone. *)
Definition lift {A} (r : result A) : io A := λ w, (r, w).

Section Reader.

Variable unicode_nfd : string → result string.
Variable category_Mn : ascii → bool.
Variable np_cast : cell → value → result cell.

(** Also outside the repository:
    - [json_load name]: the parsed content of the file [name];
    - [eeg_dir_of name]:
      [abspath(join(dirname(name), '..', '..', 'ephys', 'current_processed', 'noreref'))];
    - [os_path_join]; and [str_other], Python's [str] of a numpy scalar
      that is not text. *)
Variable json_load : string → result value.
Variable eeg_dir_of : string → string.
Variable os_path_join : string → string → string.
Variable str_other : cell → string.

Definition check_reader_settings_for_json_read (self : BaseEventReader) : result () :=
  if use_reref_eeg self then Raise (NotImplementedError "Reref from JSON not implemented")
  else Ok ().

(** [with open(json_filename, "r") as f: d = json.load(f)] *)
Definition from_json (json_filename : string) : io ndarray :=
  λ w,
    let w' := {| opened := json_filename :: opened w |} in
    (d ← json_load json_filename; from_dict unicode_nfd category_Mn np_cast d, w').

Definition py_str (c : cell) : string :=
  match c with
  | CStr s => s
  | _ => str_other c
  end.

(** [ev.eegfile]: attribute access on a record. *)
Definition getattr_eegfile (ev : cell) : result cell :=
  match ev with
  | CRec fields =>
      match assoc "eegfile" fields with
      | Some c => Ok c
      | None => Raise AttributeError
      end
  | _ => Raise AttributeError
  end.

(** The indicator loop and [evs[indicator]]. *)
Definition eliminate_no_eeg (evs : ndarray) : result ndarray :=
  match nd_data evs with
  | CArr rows =>
      indicator ← mapM (λ ev, c ← getattr_eegfile ev;
                              Ok (3 <? length (chars (py_str c)))%nat) rows;
      Ok {| nd_dtype := nd_dtype evs;
            nd_data := CArr (List.filter (λ p : cell * bool, p.2) (zip rows indicator)).*1 |}
  | _ => Raise TypeError
  end.

(** [ev.eegfile = os.path.join(eeg_dir, ev.eegfile)] *)
Definition join_eegfile (eeg_dir : string) (ev : cell) : result cell :=
  match ev with
  | CRec fields =>
      match assoc "eegfile" fields with
      | Some (CStr s) =>
          Ok (CRec (dict_set "eegfile" (CStr (truncate256 (os_path_join eeg_dir s))) fields))
      | Some _ => Raise TypeError
      | None => Raise AttributeError
      end
  | _ => Raise AttributeError
  end.

(** ['eegfile' in evs.dtype.names]; [names] is [None] for a plain dtype. *)
Definition has_eegfile (t : dtype) : result bool :=
  match t with
  | struct fields => Ok (bool_decide ("eegfile" ∈ fields.*1))
  | _ => Raise TypeError
  end.

Definition read_json (self : BaseEventReader) : io ndarray :=
  _ ← lift (check_reader_settings_for_json_read self);
  evs ← from_json (filename self);
  evs ← lift (if eliminate_events_with_no_eeg self then eliminate_no_eeg evs else Ok evs);
  b ← lift (has_eegfile (nd_dtype evs));
  if b : bool then
    let eeg_dir := eeg_dir_of (filename self) in
    match nd_data evs with
    | CArr rows =>
        rows' ← lift (mapM (join_eegfile eeg_dir) rows);
        mret {| nd_dtype := nd_dtype evs; nd_data := CArr rows' |}
    | _ => lift (Raise TypeError)
    end
  else mret evs.

End Reader.

(** ** Concrete stand-ins for the outside world

    They serve to run the model on examples.  [ascii_nfd] decodes with the
    ASCII codec, as [six.text_type] does on a Python 2 byte string: a byte
    above 127 raises [UnicodeError], and NFD leaves ASCII text as it is.
    ASCII has no combining marks.  [no_cast] refuses every conversion
    between kinds. *)
Definition ascii_nfd (s : string) : result string :=
  if forallb (λ c, (N_of_ascii c <? 128)%N) (chars s) then Ok s else Raise UnicodeError.

Definition no_Mn (c : ascii) : bool := false.

Definition no_cast (old : cell) (v : value) : result cell := Raise TypeError.

(** The batch a call of [from_dict] works on. *)
Definition batch_of (d : value) : list value :=
  match d with
  | VList xs => xs
  | _ => [d]
  end.

(** The capacity example of the specification. *)
Definition capacity_example : value :=
  VList [VDict [("subject", VStr "R001");
                ("eegfile", VStr "/mnt/x/data/events/R001.mat");
                ("vals", VList [VInt 1; VInt 2])];
         VDict [("subject", VStr "R001");
                ("eegfile", VStr "/mnt/x/data/events/R001b.mat");
                ("vals", VList [VInt 1; VInt 2; VInt 3])]].


(** The set of characters the specification names for the fallback of
    [strip_accents]: [A-Za-z0-9], space, underscore, period, hyphen. *)
Definition spec_fallback_class : list class_item :=
  [Range "A" "Z"; Range "a" "z"; Range "0" "9"; Lit " "; Lit "_"; Lit "."; Lit "-"]%char.

(** The bytes of UTF-8 "café/x", which the ASCII codec cannot decode. *)
Definition cafe_slash_x : string :=
  String "c" (String "a" (String "f"
    (String (ascii_of_N 195) (String (ascii_of_N 169) (String "/" (String "x" EmptyString)))))).

(** A file system holding one JSON file, and plain path functions. *)
Definition one_file_json (name : string) : result value :=
  if decide (name = "events.json") then Ok capacity_example else Raise ValueError.

Definition plain_eeg_dir (name : string) : string := "/noreref".

Definition plain_path_join (a b : string) : string := a +:+ "/" +:+ b.

Definition no_str (c : cell) : string := "".

(** [x[i][k]]: field [k] of row [i]. *)
Definition getitem_field (x : cell) (i : nat) (k : string) : result cell :=
  row ← np_getitem x i; np_getfield row k.

(** What the sanitizer is meant to do to one slot: every NaN in it becomes
    the sentinel, everything else stays. *)
Fixpoint replace_nan_cell (val : Z) (c : cell) : cell :=
  match c with
  | CFloat f => if float_isnan f then CFloat (float_of_int val) else c
  | CArr xs => CArr (replace_nan_cell val <$> xs)
  | _ => c
  end.

(** A structured array: a record dtype with distinct field names, and rows
    that are records with exactly these fields. *)
Definition row_has_fields (names : list string) (row : cell) : bool :=
  match row with
  | CRec fs => bool_decide (fs.*1 = names)
  | _ => false
  end.

Definition structured (evs : ndarray) : bool :=
  match nd_dtype evs, nd_data evs with
  | struct fields, CArr rows =>
      bool_decide (NoDup fields.*1) && forallb (row_has_fields fields.*1) rows
  | _, _ => false
  end.

(** The dtype of field [k]. *)
Definition field_dtype (evs : ndarray) (k : string) : option dtype :=
  match nd_dtype evs with
  | struct fields => assoc k fields
  | _ => None
  end.


(** Whether the loop of [replace_nans] over the descriptors [fields]
    rewrites field [k], that is, whether [np.isnan] accepts its dtype. *)
Definition nan_checked (fields : list (string * dtype)) (k : string) : bool :=
  existsb (λ d : string * dtype, bool_decide (d.1 = k) && isnan_supported d.2) fields.

(** The effect of the sanitizer on one row. *)
Definition sanitize_row (val : Z) (fields : list (string * dtype)) (row : cell) : cell :=
  match row with
  | CRec fs =>
      CRec ((λ kc : string * cell,
               (kc.1, if nan_checked fields kc.1 then replace_nan_cell val kc.2 else kc.2))
            <$> fs)
  | _ => row
  end.

(** The length of the sequence that record [entry] holds under [k]
    (zero when there is none), and its maximum over a batch. *)
Definition seq_len (entry : value) (k : string) : nat :=
  match py_getitem entry k ≫= py_len with
  | Ok n => n
  | _ => 0%nat
  end.

Definition max_seq_len (k : string) (batch : list value) : nat :=
  foldr (λ entry n, seq_len entry k `max` n)%nat 0%nat batch.

(** A record whose keys are pairwise distinct, as the keys of a Python
    dict are. *)
Definition unique_keys (v : value) : bool :=
  match v with
  | VDict items => bool_decide (NoDup items.*1)
  | _ => true
  end.




(** What the capacity example compiles to. *)
Definition capacity_example_compiled : ndarray :=
  {| nd_dtype := struct [("subject", U256); ("eegfile", U256); ("vals", subarray int64 3)];
     nd_data :=
       CArr [CRec [("subject", CStr "R001");
                   ("eegfile", CStr "/mnt/x/data/events/R001.mat");
                   ("vals", CArr [CInt 1; CInt 2; CInt 0])];
             CRec [("subject", CStr "R001");
                   ("eegfile", CStr "/mnt/x/data/events/R001b.mat");
                   ("vals", CArr [CInt 1; CInt 2; CInt 3])]] |}.

(** A batch with a nested record and a list of sub-records. *)
Definition nested_example : value :=
  VList [VDict [("subject", VStr "R001");
                ("pos", VDict [("x", VInt 1); ("y", VFloat (S754_finite false 3 0))]);
                ("stim", VList [VDict [("amp", VInt 5); ("site", VStr "LA1")]])];
         VDict [("subject", VStr "R002");
                ("pos", VDict [("x", VInt 2); ("y", VFloat S754_nan)]);
                ("stim", VList [VDict [("amp", VInt 6); ("site", VStr "LA2")];
                                VDict [("amp", VInt 7); ("site", VStr "LB1")]])]].

(** * The store-level embedding

    Python passes containers by reference.  To state what the compiler
    does to its input, the same code is embedded once more over a store
    of mutable objects: dicts and lists live at locations, values refer
    to them, and every statement of the source that creates or assigns a
    container appears as an allocation or a write.  The numpy side is the
    one of the value-level embedding. *)
Module Store.

Definition loc := positive.

Inductive pyval :=
| PNone
| PBool (b : bool)
| PInt (z : Z)
| PFloat (f : spec_float)
| PStr (s : string)
| PBytes (s : string)
| PRef (l : loc).

Inductive pyobj :=
| OList (elems : list pyval)
| ODict (items : list (string * pyval)).

Abbreviation heap := (gmap loc pyobj).

(** What a value is, one level deep. *)
Inductive view :=
| SNone
| SBool (b : bool)
| SInt (z : Z)
| SFloat (f : spec_float)
| SStr (s : string)
| SBytes (s : string)
| SList (elems : list pyval)
| SDict (items : list (string * pyval)).

(** A reference to nothing does not exist in Python; the model answers it
    with an exception of its own. *)
Definition view_of (h : heap) (v : pyval) : result view :=
  match v with
  | PNone => Ok SNone
  | PBool b => Ok (SBool b)
  | PInt z => Ok (SInt z)
  | PFloat f => Ok (SFloat f)
  | PStr s => Ok (SStr s)
  | PBytes s => Ok (SBytes s)
  | PRef l =>
      match h !! l with
      | Some (OList elems) => Ok (SList elems)
      | Some (ODict items) => Ok (SDict items)
      | None => Raise (Exception "dangling reference")
      end
  end.

(** Computations over the store. *)
Definition M (A : Type) : Type := heap → result A * heap.

#[global] Instance M_ret : MRet M := λ A a h, (Ok a, h).
#[global] Instance M_bind : MBind M := λ A B f m h,
  match m h with
  | (Ok a, h') => f a h'
  | (Raise e, h') => (Raise e, h')
  | (NoFuel, h') => (NoFuel, h')
  end.

(** A step that does not touch the store. *)
Definition pure {A} (r : result A) : M A := λ h, (r, h).

(** Reading through a value. *)
Definition look (v : pyval) : M view := λ h, (view_of h v, h).

(** Creating a container: [[...]] or [{}]. *)
Definition alloc (o : pyobj) : M pyval :=
  λ h, let l := fresh (dom h) in (Ok (PRef l), <[l := o]> h).

(** Overwriting the container at [l]. *)
Definition assign (l : loc) (o : pyobj) : M () := λ h, (Ok (), <[l := o]> h).

Definition isinstance (v : view) (t : pytype) : bool :=
  match t, v with
  | t_dict, SDict _ => true
  | t_int, SInt _ => true
  | t_int, SBool _ => true
  | t_binary_type, SBytes _ => true
  | t_text_type, SStr _ => true
  | t_string_types, SStr _ => true
  | t_bool, SBool _ => true
  | t_float, SFloat _ => true
  | t_list, SList _ => true
  | _, _ => false
  end.

Definition py_items (d : view) : result (list (string * pyval)) :=
  match d with
  | SDict items => Ok items
  | _ => Raise AttributeError
  end.

Definition py_getitem (entry : view) (k : string) : result pyval :=
  match entry with
  | SDict items =>
      match assoc k items with
      | Some v => Ok v
      | None => Raise KeyError
      end
  | _ => Raise TypeError
  end.

Definition py_len (v : view) : result nat :=
  match v with
  | SList xs => Ok (length xs)
  | SStr s => Ok (length (chars s))
  | SBytes s => Ok (length (chars s))
  | SDict items => Ok (length items)
  | _ => Raise TypeError
  end.

Definition py_iter (v : view) : result (list pyval) :=
  match v with
  | SList xs => Ok xs
  | SStr s => Ok ((λ c, PStr (String c EmptyString)) <$> chars s)
  | SBytes s => Ok ((λ c, PInt (Z.of_N (N_of_ascii c))) <$> chars s)
  | SDict items => Ok ((λ kv, PStr kv.1) <$> items)
  | _ => Raise TypeError
  end.

Definition py_getitem0 (v : view) : result pyval :=
  match v with
  | SDict _ => Raise KeyError
  | _ =>
      xs ← py_iter v;
      match xs with
      | x :: _ => Ok x
      | [] => Raise IndexError
      end
  end.

Fixpoint for_each {A St} (f : St → A → M St) (xs : list A) (s : St) : M St :=
  match xs with
  | [] => mret s
  | x :: r => s' ← f s x; for_each f r s'
  end.

Fixpoint for_enumerate {A St} (f : nat → St → A → M St) (i : nat) (xs : list A) (s : St)
  : M St :=
  match xs with
  | [] => mret s
  | x :: r => s' ← f i s x; for_enumerate f (S i) r s'
  end.

(** The tree a value stands for, read off the store; numpy reads a Python
    object this way when it converts it.  The budget bounds the nesting
    of containers. *)
Fixpoint reify (fuel : nat) (h : heap) (v : pyval) : result value :=
  match v with
  | PNone => Ok VNone
  | PBool b => Ok (VBool b)
  | PInt z => Ok (VInt z)
  | PFloat f => Ok (VFloat f)
  | PStr s => Ok (VStr s)
  | PBytes s => Ok (VBytes s)
  | PRef l =>
      match fuel with
      | O => NoFuel
      | S fuel =>
          match h !! l with
          | Some (OList elems) => VList <$> mapM (reify fuel h) elems
          | Some (ODict items) =>
              VDict <$> mapM (λ kv : string * pyval, v ← reify fuel h kv.2; Ok (kv.1, v))
                             items
          | None => Raise (Exception "dangling reference")
          end
      end
  end.

Fixpoint get_element_dtype (fuel : nat) (element : pyval) : M dtype :=
  match fuel with
  | O => pure NoFuel
  | S fuel =>
      ev ← look element;
      if isinstance ev t_dict then
        items ← pure (py_items ev);
        fields ← for_each (λ dtype kv, t ← get_element_dtype fuel kv.2;
                                       mret (dtype ++ [(kv.1, t)])) items [];
        mret (struct fields)
      else if isinstance ev t_int then mret int64
      else if isinstance ev t_binary_type then mret S256
      else if isinstance ev t_text_type then mret U256
      else if isinstance ev t_bool then mret int8
      else if isinstance ev t_float then mret float64
      else if isinstance ev t_list then
        x ← pure (py_getitem0 ev);
        get_element_dtype fuel x
      else pure (Raise (Exception "Could not convert type"))
  end.

Fixpoint mkdtype (fuel : nat) (d : pyval) : M dtype :=
  match fuel with
  | O => pure NoFuel
  | S fuel =>
      dv ← look d;
      if isinstance dv t_list then
        x ← pure (py_getitem0 dv);
        mkdtype fuel x
      else
        items ← pure (py_items dv);
        fields ← for_each (λ dtype kv, t ← get_element_dtype fuel kv.2;
                                       mret (dtype ++ [(kv.1, t)])) items [];
        mret (struct fields)
  end.

(** [x[i][k]] and [x[k]] are views: what a callee does through them lands
    in [x].  The callee may act on the store. *)
Definition update_slotM (x : cell) (i : nat) (k : string) (f : cell → M cell) : M cell :=
  row ← pure (np_getitem x i);
  c ← pure (np_getfield row k);
  c' ← f c;
  pure (update_index x i (λ row, update_field row k (λ _, Ok c'))).

Definition get_column (x : cell) (k : string) : result cell :=
  match x with
  | CArr rows => CArr <$> mapM (λ row, np_getfield row k) rows
  | _ => np_getfield x k
  end.

Definition update_columnM (x : cell) (k : string) (f : cell → M cell) : M cell :=
  col ← pure (get_column x k);
  col' ← f col;
  pure (update_column x k (λ _, Ok col')).

Section Compiler.
Variable unicode_nfd : string → result string.
Variable category_Mn : ascii → bool.
Variable np_cast : cell → value → result cell.

(** [slot = v] for a value [v] of the store: numpy reads the object and
    converts it. *)
Definition np_store_ref (fuel : nat) (old : cell) (v : pyval) : M cell :=
  λ h, (tv ← reify fuel h v; np_store np_cast old tv, h).

(** [dict_fields[k] = col] on the dict at [dict_fields]. *)
Definition dict_setitem (dict_fields : pyval) (k : string) (col : pyval) : M () :=
  dv ← look dict_fields;
  items ← pure (py_items dv);
  match dict_fields with
  | PRef l => assign l (ODict (dict_set k col items))
  | _ => pure (Raise TypeError)
  end.

(** [k in dict_fields] *)
Definition dict_contains (dict_fields : pyval) (k : string) : M bool :=
  dv ← look dict_fields;
  items ← pure (py_items dv);
  mret (bool_decide (is_Some (assoc k items))).

(** [dict_fields = {}] and the loop that fills it with one fresh list per
    dict-valued key of the first record. *)
Definition build_dict_fields (elements : list pyval) (items0 : list (string * pyval))
  : M pyval :=
  dict_fields ← alloc (ODict []);
  _ ← for_each (λ _ kv,
                  vv ← look kv.2;
                  if isinstance vv t_dict then
                    col ← for_each (λ col inner_dict,
                                      iv ← look inner_dict;
                                      x ← pure (py_getitem iv kv.1);
                                      mret (col ++ [x]))
                                   elements [];
                    col ← alloc (OList col);
                    dict_setitem dict_fields kv.1 col
                  else mret ())
                items0 ();
  mret dict_fields.

Section Passes.
Variable fuel : nat.
Variable self_call : pyval → cell → M cell.
Variable dict_fields : pyval.
Variable list_info : option (gmap string list_info_entry).

Definition copy_scalar (i : nat) (rec_arr : cell) (kv : string * pyval) : M cell :=
  let '(k, v) := kv in
  skip ← dict_contains dict_fields k;
  if skip || in_list_info list_info k then mret rec_arr
  else
    vv ← look v;
    if isinstance vv t_dict then
      update_slotM rec_arr i k (λ c, one ← alloc (OList [v]); self_call one c)
    else if isinstance vv t_string_types then
      match vv with
      | SStr s =>
          s' ← pure (strip_accents unicode_nfd category_Mn s);
          update_slotM rec_arr i k (λ c, np_store_ref fuel c (PStr s'))
      | _ => pure (Raise TypeError)
      end
    else
      update_slotM rec_arr i k (λ c, np_store_ref fuel c v).

Definition scalar_pass (elements : list pyval) (rec_arr : cell) : M cell :=
  for_enumerate (λ i rec_arr sub_dict,
                   sv ← look sub_dict;
                   items ← pure (py_items sv);
                   for_each (copy_scalar i) items rec_arr)
                0%nat elements rec_arr.

Definition fill_elements (elements : list pyval) (arr : cell) : M cell :=
  for_enumerate (λ j arr element,
                   c ← pure (np_getitem arr j);
                   c' ← np_store_ref fuel c element;
                   pure (update_index arr j (λ _, Ok c')))
                0%nat elements arr.

Definition list_buffer (e : list_info_entry) (v : pyval) : M cell :=
  let arr := np_zeros (li_len e) (default float64 (li_dtype e)) in
  vv ← look v;
  n ← pure (py_len vv);
  if (0 <? n)%nat then
    v0 ← pure (py_getitem0 vv);
    v0v ← look v0;
    if isinstance v0v t_dict then self_call v arr
    else
      elements ← pure (py_iter vv);
      fill_elements elements arr
  else mret arr.

Definition copy_list (i : nat) (rec_arr : cell) (kv : string * pyval) : M cell :=
  let '(k, v) := kv in
  if in_list_info list_info k then
    match list_info ≫= (.!! k) with
    | Some e =>
        arr ← list_buffer e v;
        update_slotM rec_arr i k (λ _, mret arr)
    | None => pure (Raise KeyError)
    end
  else mret rec_arr.

Definition list_pass (elements : list pyval) (rec_arr : cell) : M cell :=
  for_enumerate (λ i rec_arr sub_dict,
                   sv ← look sub_dict;
                   items ← pure (py_items sv);
                   for_each (copy_list i) items rec_arr)
                0%nat elements rec_arr.

Definition dict_pass (rec_arr : cell) : M cell :=
  dv ← look dict_fields;
  items ← pure (py_items dv);
  for_each (λ rec_arr kv, update_columnM rec_arr kv.1 (self_call kv.2)) items rec_arr.
End Passes.

Fixpoint copy_values (fuel : nat) (dict_list : pyval) (rec_arr : cell)
    (list_info : option (gmap string list_info_entry)) : M cell :=
  match fuel with
  | O => pure NoFuel
  | S fuel =>
      lv ← look dict_list;
      n ← pure (py_len lv);
      if (n =? 0)%nat then mret rec_arr
      else
        let self_call := λ dl arr, copy_values fuel dl arr None in
        elements ← pure (py_iter lv);
        first ← pure (py_getitem0 lv);
        fv ← look first;
        items0 ← pure (py_items fv);
        dict_fields ← build_dict_fields elements items0;
        rec_arr ← scalar_pass fuel self_call dict_fields list_info elements rec_arr;
        rec_arr ← list_pass fuel self_call list_info elements rec_arr;
        dict_pass self_call dict_fields rec_arr
  end.

Definition list_names_of (items0 : list (string * pyval)) : M (list string) :=
  for_each (λ list_names kv,
              vv ← look kv.2;
              if isinstance vv t_list then mret (list_names ++ [kv.1]) else mret list_names)
           items0 [].

Definition scan_field (fuel : nat) (entry : pyval) (list_info : gmap string list_info_entry)
    (k : string) : M (gmap string list_info_entry) :=
  ev ← look entry;
  v ← pure (py_getitem ev k);
  vv ← look v;
  n ← pure (py_len vv);
  let e := default {| li_len := 0; li_dtype := None |} (list_info !! k) in
  let len := (li_len e `max` n)%nat in
  if negb (dtype_truthy (li_dtype e)) && (0 <? n)%nat then
    v0 ← pure (py_getitem0 vv);
    v0v ← look v0;
    t ← (if isinstance v0v t_dict then mkdtype fuel v0 else get_element_dtype fuel v);
    mret (<[k := {| li_len := len; li_dtype := Some t |}]> list_info)
  else
    mret (<[k := {| li_len := len; li_dtype := li_dtype e |}]> list_info).

Definition scan_lists (fuel : nat) (list_names : list string) (d : list pyval)
  : M (gmap string list_info_entry) :=
  for_each (λ list_info entry, for_each (scan_field fuel entry) list_names list_info) d ∅.

Definition make_dtypes (fuel : nat) (list_info : gmap string list_info_entry)
    (items0 : list (string * pyval)) : M (list (string * dtype)) :=
  for_each (λ dtypes kv,
              match list_info !! kv.1 with
              | None => t ← get_element_dtype fuel kv.2; mret (dtypes ++ [(kv.1, t)])
              | Some e =>
                  mret (dtypes ++ [(kv.1, subarray (default float64 (li_dtype e)) (li_len e))])
              end)
           items0 [].

Definition from_dict (fuel : nat) (d : pyval) : M ndarray :=
  dv ← look d;
  d ← (if isinstance dv t_list then mret d else alloc (OList [d]));
  dv ← look d;
  elements ← pure (py_iter dv);
  d0 ← pure (py_getitem0 dv);
  d0v ← look d0;
  items0 ← pure (py_items d0v);
  list_names ← list_names_of items0;
  list_info ← scan_lists fuel list_names elements;
  dtypes ← make_dtypes fuel list_info items0;
  match dtypes with
  | _ :: _ =>
      let arr := np_zeros (length elements) (struct dtypes) in
      arr ← copy_values fuel d arr (Some list_info);
      mret {| nd_dtype := struct dtypes; nd_data := arr |}
  | [] => mret {| nd_dtype := float64; nd_data := CArr [] |}
  end.

End Compiler.

(** Every object that [h] holds is in [h'], unchanged. *)
Definition unchanged (h h' : heap) : Prop :=
  ∀ l o, h !! l = Some o → h' !! l = Some o.

(** A value that refers to an object [h] does not hold. *)
Definition is_new (h : heap) (v : pyval) : Prop :=
  ∃ l, v = PRef l ∧ h !! l = None.

(** [frames h0 m Q]: started in any store that still holds the objects of
    [h0] unchanged, [m] ends in such a store, with a result in [Q]. *)
Definition frames {A} (h0 : heap) (m : M A) (Q : A → Prop) : Prop :=
  ∀ h r h', unchanged h0 h → m h = (r, h') →
            unchanged h0 h' ∧ ∀ a, r = Ok a → Q a.

(** [rel n h p v]: in the store [h] the value [p] stands for the tree [v],
    whose containers nest at most [n] deep. *)
Definition rel (n : nat) (h : heap) (p : pyval) (v : value) : Prop :=
  reify n h p = Ok v.

Definition rel_items (n : nat) (h : heap) (items : list (string * pyval))
    (vitems : list (string * value)) : Prop :=
  Forall2 (λ a b, a.1 = b.1 ∧ rel n h a.2 b.2) items vitems.

(** A list object whose elements stand for the trees [vs]. *)
Definition rel_list (n : nat) (h : heap) (p : pyval) (vs : list value) : Prop :=
  ∃ ps, view_of h p = Ok (SList ps) ∧ Forall2 (rel n h) ps vs.

(** The same, one level deep. *)
Definition view_rel (n : nat) (h : heap) (sv : view) (v : value) : Prop :=
  match sv, v with
  | SNone, VNone => True
  | SBool b, VBool b' => b = b'
  | SInt z, VInt z' => z = z'
  | SFloat f, VFloat f' => f = f'
  | SStr s, VStr s' => s = s'
  | SBytes s, VBytes s' => s = s'
  | SList ps, VList vs => ∃ m, n = S m ∧ Forall2 (rel m h) ps vs
  | SDict items, VDict vitems => ∃ m, n = S m ∧ rel_items m h items vitems
  | _, _ => False
  end.

(** The dict [dict_fields] of the copier: a list object per key. *)
Definition rel_dict_fields (n : nat) (h : heap) (dict_fields : pyval)
    (dfs : list (string * list value)) : Prop :=
  ∃ items, view_of h dict_fields = Ok (SDict items) ∧
           Forall2 (λ a b, a.1 = b.1 ∧ rel_list n h a.2 b.2) items dfs.

(** Two outcomes that agree: related results, or the same exception. *)
Definition res_rel {A B} (P : A → B → Prop) (r1 : result A) (r2 : result B) : Prop :=
  match r1, r2 with
  | Ok a, Ok b => P a b
  | Raise e, Raise e' => e = e'
  | NoFuel, NoFuel => True
  | _, _ => False
  end.

(** [sim h m r P]: started in any store that still holds the objects of
    [h] unchanged, the store computation [m] has the outcome of the
    value-level computation [r], up to [P], and leaves what it found. *)
Definition sim {A B} (h : heap) (m : M A) (r : result B) (P : heap → A → B → Prop) : Prop :=
  ∀ h1, unchanged h h1 →
        ∃ r1 h2, m h1 = (r1, h2) ∧ unchanged h1 h2 ∧ res_rel (P h2) r1 r.

(** The columns held by the dict at [l] while [dict_fields] is built over
    the store [h1]: list objects apart from [l], whose elements stand for
    the trees of the value level. *)
Definition columns_ok (h1 : heap) (l : loc) (m : nat) (h : heap)
    (its : list (string * pyval)) (dfs : list (string * list value)) : Prop :=
  Forall2 (λ a b, a.1 = b.1 ∧
                  ∃ lc ps, a.2 = PRef lc ∧ lc ≠ l ∧ h !! lc = Some (OList ps) ∧
                           Forall2 (rel m h1) ps b.2) its dfs.

(** [[f(x) for x in xs]] in the store monad. *)
Definition for_all {A B} (f : A → M B) : list A → M (list B) :=
  fix go xs :=
    match xs with
    | [] => mret []
    | x :: r => p ← f x; ps ← go r; mret (p :: ps)
    end.

(** Writing a tree into the store, children first. *)
Fixpoint encode (v : value) : M pyval :=
  match v with
  | VNone => mret PNone
  | VBool b => mret (PBool b)
  | VInt z => mret (PInt z)
  | VFloat f => mret (PFloat f)
  | VStr s => mret (PStr s)
  | VBytes s => mret (PBytes s)
  | VList xs =>
      elems ← for_all encode xs;
      alloc (OList elems)
  | VDict items =>
      items ← for_all (λ kv : string * value, p ← encode kv.2; mret (kv.1, p)) items;
      alloc (ODict items)
  end.

End Store.

(** * Further parts of the readers *)

(** ** The property [alter_eeg_path_flag] *)



(** ** Channel labels of the raw readers ([BaseRawReader]) *)

(** [self.channel_labels], a numpy array: of integers, of byte strings, of
    text or of floats. *)
Inductive label_array :=
| int_labels (cs : list Z)
| bytes_labels (ls : list string)
| text_labels (ls : list string)
| float_labels (xs : list spec_float).

(** The decimal digits of a natural number. *)
Definition digits (n : N) : string := NilZero.string_of_uint (N.to_uint n).

(** Zeros in front, up to the width [w]. *)
Definition zero_pad (w : nat) (s : string) : string :=
  of_chars (replicate (w - length (chars s)) "0"%char ++ chars s).

(** ['{:03}'.format(c)]: the sign, if any, counts in the width. *)
Definition format_03 (c : Z) : string :=
  if (c <? 0)%Z then String "-" (zero_pad 2 (digits (Z.to_N (- c))))
  else zero_pad 3 (digits (Z.to_N c)).

(** [np.array] of an empty list is an empty float array. *)
Definition channel_labels_to_string (channel_labels : label_array) : label_array :=
  match channel_labels with
  | int_labels [] => float_labels []
  | int_labels cs => bytes_labels (format_03 <$> cs)
  | _ => channel_labels
  end.

(** ** Notions used to state what the code does *)

(** The number a label of decimal digits stands for, with its sign. *)
Definition label_number (s : string) : option Z :=
  match s with
  | EmptyString => None
  | String c r =>
      if decide (c = "-"%char)
      then (λ d, (- Z.of_N (N.of_uint d))%Z) <$> NilEmpty.uint_of_string r
      else (λ d, Z.of_N (N.of_uint d)) <$> NilEmpty.uint_of_string s
  end.

(** The field types of scalars. *)
Definition scalar_dtype (t : dtype) : bool :=
  match t with
  | int64 | float64 | S256 | U256 | int8 => true
  | struct _ | subarray _ _ => false
  end.

(** Whether ['b'] occurs in a type, at any depth. *)
Fixpoint uses_int8 (t : dtype) : bool :=
  match t with
  | int8 => true
  | struct fields =>
      (fix loop (fields : list (string * dtype)) : bool :=
         match fields with
         | [] => false
         | (_, t) :: r => uses_int8 t || loop r
         end) fields
  | subarray t _ => uses_int8 t
  | _ => false
  end.


(** What the first loop of the copier stores for the value [v] of a scalar
    field of type [t]: text goes through [strip_accents] first. *)
Definition stored_scalar (unicode_nfd : string → result string) (category_Mn : ascii → bool)
    (np_cast : cell → value → result cell) (t : dtype) (v : value) : result cell :=
  match v with
  | VStr s =>
      s' ← strip_accents unicode_nfd category_Mn s;
      np_store np_cast (np_zero t) (VStr s')
  | _ => np_store np_cast (np_zero t) v
  end.

(** The element type the capacity scan reads off the sequence that record
    [entry] holds under [k] (lines 308 to 311 of [from_dict]). *)
Definition list_element_dtype (entry : value) (k : string) : result dtype :=
  v ← py_getitem entry k;
  v0 ← py_getitem0 v;
  if isinstance v0 t_dict then mkdtype v0 else get_element_dtype v.

(** ** Examples *)

(** Two records with a number, a flag, a float that the second record
    lacks, and a sequence that is empty in both. *)
Definition mixed_example : value :=
  VList [VDict [("n", VInt 7); ("ok", VBool true);
                ("x", VFloat (S754_finite false 3 0)); ("tags", VList [])];
         VDict [("n", VInt 8); ("ok", VBool false); ("tags", VList [])]].

Definition mixed_example_compiled : ndarray :=
  {| nd_dtype := struct [("n", int64); ("ok", int64); ("x", float64);
                         ("tags", subarray float64 0)];
     nd_data :=
       CArr [CRec [("n", CInt 7); ("ok", CInt 1);
                   ("x", CFloat (S754_finite false 3 0)); ("tags", CArr [])];
             CRec [("n", CInt 8); ("ok", CInt 0);
                   ("x", CFloat (S754_zero false)); ("tags", CArr [])]] |}.


(** Files whose records have no [eegfile], and no field at all. *)
Definition no_eegfile_json (name : string) : result value :=
  Ok (VList [VDict [("subject", VStr "R001")]]).

Definition empty_record_json (name : string) : result value := Ok (VList [VDict []]).

(** What [read_json] returns for the capacity example. *)
Definition capacity_example_read : ndarray :=
  {| nd_dtype := struct [("subject", U256); ("eegfile", U256); ("vals", subarray int64 3)];
     nd_data :=
       CArr [CRec [("subject", CStr "R001");
                   ("eegfile", CStr "/noreref//mnt/x/data/events/R001.mat");
                   ("vals", CArr [CInt 1; CInt 2; CInt 0])];
             CRec [("subject", CStr "R001");
                   ("eegfile", CStr "/noreref//mnt/x/data/events/R001b.mat");
                   ("vals", CArr [CInt 1; CInt 2; CInt 3])]] |}.

(** One record in a list twice, and a list of two equal records: the same
    batch as a tree. *)
Definition shared_record_heap : Store.heap :=
  {[ 1%positive := Store.ODict [("a", Store.PInt 1)];
     2%positive := Store.OList [Store.PRef 1%positive; Store.PRef 1%positive] ]}.

Definition copied_record_heap : Store.heap :=
  {[ 1%positive := Store.ODict [("a", Store.PInt 1)];
     2%positive := Store.ODict [("a", Store.PInt 1)];
     3%positive := Store.OList [Store.PRef 1%positive; Store.PRef 2%positive] ]}.

Definition twice_record : value :=
  VList [VDict [("a", VInt 1)]; VDict [("a", VInt 1)]].
(** * Properties *)

(** ** The result monad *)

Lemma bind_Ok {A B} (m : result A) (f : A → result B) (b : B) :
  m ≫= f = Ok b ↔ ∃ a, m = Ok a ∧ f a = Ok b.
Proof.
  destruct m as [a|e|]; cbn.
  - split; [eauto | by intros (? & [= <-] & ?)].
  - split; [done | by intros (? & ? & ?)].
  - split; [done | by intros (? & ? & ?)].
Qed.

Lemma fmap_Ok {A B} (m : result A) (f : A → B) (b : B) :
  f <$> m = Ok b ↔ ∃ a, m = Ok a ∧ b = f a.
Proof.
  destruct m as [a|e|]; cbn.
  - split; [intros [= <-]; eauto | by intros (? & [= <-] & ->)].
  - split; [done | by intros (? & ? & ?)].
  - split; [done | by intros (? & ? & ?)].
Qed.

(** Take apart a hypothesis [x ← m; k = Ok b]. *)
Ltac inv_Ok H :=
  repeat
    match type of H with
    | _ ≫= _ = Ok _ =>
        let a := fresh "a" in
        let Ha := fresh "Ha" in
        apply bind_Ok in H as (a & Ha & H)
    | _ <$> _ = Ok _ =>
        let a := fresh "a" in
        let Ha := fresh "Ha" in
        apply fmap_Ok in H as (a & Ha & H)
    | Ok _ = Ok _ => injection H as H
    | Raise _ = Ok _ => discriminate H
    | NoFuel = Ok _ => discriminate H
    end.

Lemma for_each_app {A St} (f : St → A → result St) xs ys s :
  for_each f (xs ++ ys) s = s' ← for_each f xs s; for_each f ys s'.
Proof.
  revert s. induction xs as [|x xs IH]; intros s; cbn; [done|].
  destruct (f s x); cbn; auto.
Qed.

(** An invariant of the loop body is an invariant of the loop. *)
Lemma for_each_inv {A St} (P : St → Prop) (f : St → A → result St) xs s s' :
  (∀ s x s', x ∈ xs → P s → f s x = Ok s' → P s') →
  P s → for_each f xs s = Ok s' → P s'.
Proof.
  revert s. induction xs as [|x xs IH]; intros s Hf Hs H; cbn in H.
  - by injection H as <-.
  - inv_Ok H. eapply IH; [| |done].
    + intros ???? ??. eapply Hf; [|done..]. by right.
    + eapply Hf; [|done..]. by left.
Qed.

Lemma for_enumerate_inv {A St} (P : St → Prop) (f : nat → St → A → result St) i xs s s' :
  (∀ j s x s', xs !! j = Some x → P s → f (i + j)%nat s x = Ok s' → P s') →
  P s → for_enumerate f i xs s = Ok s' → P s'.
Proof.
  revert i s. induction xs as [|x xs IH]; intros i s Hf Hs H; cbn in H.
  - by injection H as <-.
  - inv_Ok H. eapply IH; [| |done].
    + intros j ??? ??. replace (S i + j)%nat with (i + S j)%nat by lia.
      by apply Hf.
    + eapply (Hf 0%nat); [done|done|]. by rewrite Nat.add_0_r.
Qed.

Lemma get_element_dtype_dict items :
  get_element_dtype (VDict items) = mkdtype (VDict items).
Proof.
  cbn [get_element_dtype isinstance mkdtype]. f_equal.
Qed.

(** ** Type classifier *)

(** C4 (code defect): on every boolean the type classifier answers
    [int64].  [isinstance(element, int)] holds for a [bool] and is tested
    first, so the [bool] branch, which comes later, is never reached. *)
Theorem get_element_dtype_bool (b : bool) :
  get_element_dtype (VBool b) = Ok int64.
Proof. reflexivity. Qed.

Lemma get_element_dtype_int (z : Z) : get_element_dtype (VInt z) = Ok int64.
Proof. reflexivity. Qed.

(** No scalar reaches the ['b'] branch. *)
Lemma isinstance_bool_int (v : value) :
  isinstance v t_bool = true → isinstance v t_int = true.
Proof. by destruct v. Qed.

(** ** Accent stripping *)

Section StripAccents.
Variable unicode_nfd : string → result string.
Variable category_Mn : ascii → bool.

Lemma strip_accents_fallback (s : string) :
  unicode_nfd s = Raise UnicodeError →
  strip_accents unicode_nfd category_Mn s = Ok (re_sub_not_in_class fallback_class s).
Proof. intros H. unfold strip_accents. by rewrite H. Qed.

End StripAccents.

(** The class of the fallback pattern holds every character from space to
    underscore, which is more than the letters, digits and four marks. *)
Lemma fallback_class_range (c : ascii) :
  (32 ≤ N_of_ascii c ≤ 95)%N → in_class fallback_class c = true.
Proof.
  intros [H1 H2]. unfold in_class, fallback_class. cbn [existsb in_item].
  replace (N_of_ascii " ") with 32%N by reflexivity.
  replace (N_of_ascii "_") with 95%N by reflexivity.
  apply N.leb_le in H1, H2. rewrite H1, H2. cbn.
  by rewrite !orb_true_r.
Qed.

(** C8 (code defect): on a string that fails to normalise, the fallback of
    [strip_accents] keeps the slash, a character outside
    [A-Za-z0-9 _.-]: the pattern [[^A-Za-z0-9 -_.]] reads [ -_] as the
    range from space to underscore.  Filtering by the set the
    specification names would give "cafx". *)
Theorem strip_accents_fallback_keeps_slash :
  ascii_nfd cafe_slash_x = Raise UnicodeError ∧
  strip_accents ascii_nfd no_Mn cafe_slash_x = Ok "caf/x" ∧
  re_sub_not_in_class spec_fallback_class cafe_slash_x = "cafx".
Proof. by vm_compute. Qed.

(** ** The JSON entry point *)

Section ReadJson.
Variable unicode_nfd : string → result string.
Variable category_Mn : ascii → bool.
Variable np_cast : cell → value → result cell.
Variable json_load : string → result value.
Variable eeg_dir_of : string → string.
Variable os_path_join : string → string → string.
Variable str_other : cell → string.

(** C10: with [use_reref_eeg] set, [read_json] raises
    [NotImplementedError] and leaves the world as it found it: no file
    has been opened, so no record was read or compiled, and no array is
    returned. *)
Theorem read_json_reref_not_implemented (self : BaseEventReader) (w : world) :
  use_reref_eeg self = true →
  read_json unicode_nfd category_Mn np_cast json_load eeg_dir_of os_path_join str_other
    self w
  = (Raise (NotImplementedError "Reref from JSON not implemented"), w).
Proof.
  intros H. unfold read_json, check_reader_settings_for_json_read.
  rewrite H. reflexivity.
Qed.

(** Without the flag the file is opened. *)
Lemma read_json_opens (self : BaseEventReader) (w : world) :
  use_reref_eeg self = false →
  opened (read_json unicode_nfd category_Mn np_cast json_load eeg_dir_of os_path_join
            str_other self w).2
  = filename self :: opened w.
Proof.
  intros H. unfold read_json, check_reader_settings_for_json_read.
  rewrite H. unfold mbind, io_bind, lift, from_json. cbn.
  destruct (json_load (filename self) ≫= _) as [evs| |]; cbn; try done.
  destruct (if eliminate_events_with_no_eeg self then _ else _) as [evs'| |]; cbn; try done.
  destruct (has_eegfile _) as [[]| |]; cbn; try done.
  destruct (nd_data evs'); cbn; try done.
  by destruct (mapM _ _).
Qed.
End ReadJson.

Lemma read_json_reref_witness :
  use_reref_eeg (init "events.json" None None None (Some true) None) = true ∧
  read_json ascii_nfd no_Mn no_cast one_file_json plain_eeg_dir plain_path_join no_str
    (init "events.json" None None None (Some true) None) {| opened := [] |}
  = (Raise (NotImplementedError "Reref from JSON not implemented"), {| opened := [] |}).
Proof.
  split; [reflexivity|].
  apply (read_json_reref_not_implemented ascii_nfd no_Mn no_cast one_file_json
           plain_eeg_dir plain_path_join no_str).
  reflexivity.
Defined.

(** The same reader without the flag reads the file and compiles it. *)
Example read_json_plain :
  ∃ evs, read_json ascii_nfd no_Mn no_cast one_file_json plain_eeg_dir plain_path_join no_str
           (init "events.json" None None None None None) {| opened := [] |}
         = (Ok evs, {| opened := ["events.json"] |}) ∧ np_len (nd_data evs) = 2%nat.
Proof. eexists. split; [by vm_compute|done]. Qed.

(** ** Storage updates *)

Lemma update_index_np_len x i f x' :
  update_index x i f = Ok x' → np_len x' = np_len x.
Proof.
  destruct x as [| | | | |fields|xs]; cbn; try done.
  - destruct (fields !! i) as [[k c]|]; [|done]. intros H. inv_Ok H. by subst.
  - destruct (xs !! i) as [c|]; [|done]. intros H. inv_Ok H. subst. cbn.
    by rewrite length_insert.
Qed.

Lemma update_field_np_len x k f x' :
  update_field x k f = Ok x' → np_len x' = np_len x.
Proof.
  destruct x as [| | | | |fields|xs]; cbn; try done.
  destruct (assoc k fields) as [c|]; [|done]. intros H. inv_Ok H. by subst.
Qed.

Lemma update_column_np_len x k f x' :
  update_column x k f = Ok x' → np_len x' = np_len x.
Proof.
  destruct x as [| | | | |fields|rows]; try apply update_field_np_len.
  cbn. intros H. inv_Ok H.
  destruct a0; inv_Ok H; subst; try done.
  cbn. by rewrite length_imap.
Qed.

Section CompilerFacts.
Variable unicode_nfd : string → result string.
Variable category_Mn : ascii → bool.
Variable np_cast : cell → value → result cell.

Abbreviation strip_accents' := (strip_accents unicode_nfd category_Mn).
Abbreviation np_store' := (np_store np_cast).
Abbreviation copy_values' := (copy_values unicode_nfd category_Mn np_cast).

(** *** The array keeps its length *)

Lemma copy_scalar_np_len self_call dict_fields list_info i x kv x' :
  copy_scalar unicode_nfd category_Mn np_cast self_call dict_fields list_info i x kv = Ok x' →
  np_len x' = np_len x.
Proof.
  destruct kv as [k v]. unfold copy_scalar.
  destruct (_ || _); [by intros [= <-]|].
  destruct (isinstance v t_dict); [apply update_index_np_len|].
  destruct (isinstance v t_string_types); [|apply update_index_np_len].
  destruct v; try done. intros H. inv_Ok H. by eapply update_index_np_len.
Qed.

Lemma copy_list_np_len self_call list_info i x kv x' :
  copy_list np_cast self_call list_info i x kv = Ok x' → np_len x' = np_len x.
Proof.
  destruct kv as [k v]. unfold copy_list.
  destruct (in_list_info _ _); [|by intros [= <-]].
  destruct (list_info ≫= _); [|done].
  intros H. inv_Ok H. by eapply update_index_np_len.
Qed.

Lemma copy_values_np_len fuel dict_list x list_info x' :
  copy_values' fuel dict_list x list_info = Ok x' → np_len x' = np_len x.
Proof.
  destruct fuel as [|fuel]; [done|]. cbn [copy_values].
  destruct dict_list as [|first rest]; [by intros [= <-]|].
  intros H. inv_Ok H.
  transitivity (np_len a2); [|transitivity (np_len a1)].
  - revert H. unfold dict_pass.
    apply (for_each_inv (λ s, np_len s = np_len a2)); [|done].
    intros s [k col] s' _ <-. apply update_column_np_len.
  - revert Ha2. unfold list_pass.
    apply (for_enumerate_inv (λ s, np_len s = np_len a1)); [|done].
    intros j s sub_dict s' _ <- Hs. inv_Ok Hs.
    revert Hs. apply (for_each_inv (λ s', np_len s' = np_len s)); [|done].
    intros ???? <-. apply copy_list_np_len.
  - revert Ha1. unfold scalar_pass.
    apply (for_enumerate_inv (λ s, np_len s = np_len x)); [|done].
    intros j s sub_dict s' _ <- Hs. inv_Ok Hs.
    revert Hs. apply (for_each_inv (λ s', np_len s' = np_len s)); [|done].
    intros ???? <-. apply copy_scalar_np_len.
Qed.

(** *** The schema *)

Lemma make_dtypes_names list_info items0 dtypes :
  make_dtypes list_info items0 = Ok dtypes → dtypes.*1 = items0.*1.
Proof.
  unfold make_dtypes.
  enough (∀ acc, for_each
            (λ dtypes kv,
               match list_info !! kv.1 with
               | None => t ← get_element_dtype kv.2; Ok (dtypes ++ [(kv.1, t)])
               | Some e =>
                   Ok (dtypes ++ [(kv.1, subarray (default float64 (li_dtype e)) (li_len e))])
               end) items0 acc = Ok dtypes → dtypes.*1 = acc.*1 ++ items0.*1) as H.
  { intros Hd. by apply H in Hd. }
  induction items0 as [|[k v] r IH]; intros acc H; cbn in H.
  - injection H as <-. by rewrite app_nil_r.
  - inv_Ok H. rewrite (IH _ H). cbn in Ha.
    destruct (list_info !! k); inv_Ok Ha; subst;
      rewrite fmap_app; cbn; by rewrite <-app_assoc.
Qed.

(** *** Length of the compiled array *)

(** C3 (code defect): on an empty batch [from_dict] raises [IndexError]
    at [d[0]]; it does not return a zero-length array. *)
Theorem from_dict_empty_batch_raises :
  from_dict unicode_nfd category_Mn np_cast (VList []) = Raise IndexError.
Proof. reflexivity. Qed.

(** C2, as amended: when the first record has at least one field and
    [from_dict] returns, the compiled array is as long as the batch. *)
Theorem from_dict_length (d : value) (kv : string * value) items rest (arr : ndarray) :
  batch_of d = VDict (kv :: items) :: rest →
  from_dict unicode_nfd category_Mn np_cast d = Ok arr →
  np_len (nd_data arr) = length (batch_of d).
Proof.
  intros Hb H. unfold from_dict in H. fold (batch_of d) in H.
  rewrite Hb in H. cbn [py_getitem0 py_iter mbind result_bind py_items] in H.
  inv_Ok H. apply make_dtypes_names in Ha0.
  destruct a0 as [|dt dts]; [done|]. inv_Ok H. subst arr. cbn [nd_data].
  apply copy_values_np_len in Ha1. rewrite Ha1, Hb. cbn.
  by rewrite length_replicate.
Qed.

Lemma scan_lists_no_names (d : list value) :
  scan_lists [] d = Ok ∅.
Proof.
  unfold scan_lists. generalize (∅ : gmap string list_info_entry).
  induction d as [|x l IH]; intros g; cbn; auto.
Qed.

(** When the first record has no field the result is the empty plain
    array, whatever the number of records. *)
Lemma from_dict_no_fields (d : value) rest :
  batch_of d = VDict [] :: rest →
  from_dict unicode_nfd category_Mn np_cast d = Ok {| nd_dtype := float64; nd_data := CArr [] |}.
Proof.
  intros Hb. unfold from_dict. fold (batch_of d). rewrite Hb.
  cbn [py_getitem0 py_iter mbind result_bind py_items].
  change (list_names_of []) with (@nil string).
  by rewrite scan_lists_no_names.
Qed.

(** C5: the field names of the compiled schema are the keys of the first
    record, in insertion order. *)
Theorem from_dict_field_order (d : value) items0 rest (arr : ndarray) :
  batch_of d = VDict items0 :: rest →
  from_dict unicode_nfd category_Mn np_cast d = Ok arr →
  dtype_names (nd_dtype arr) = items0.*1.
Proof.
  intros Hb H. unfold from_dict in H. fold (batch_of d) in H.
  rewrite Hb in H. cbn [py_getitem0 py_iter mbind result_bind py_items] in H.
  inv_Ok H. apply make_dtypes_names in Ha0.
  destruct a0 as [|dt dts].
  - inv_Ok H. subst arr. cbn. by destruct items0.
  - inv_Ok H. subst arr. cbn [nd_dtype dtype_names]. done.
Qed.

End CompilerFacts.

(** C2 as stated fails: a batch of one record without fields compiles to an
    array of length zero. *)
Lemma from_dict_length_counterexample :
  ¬ (∀ d arr, from_dict ascii_nfd no_Mn no_cast d = Ok arr →
              np_len (nd_data arr) = length (batch_of d)).
Proof.
  intros H. specialize (H (VList [VDict []]) _ eq_refl). discriminate H.
Qed.

Lemma from_dict_length_witness :
  batch_of capacity_example
  = VDict (("subject", VStr "R001") ::
           [("eegfile", VStr "/mnt/x/data/events/R001.mat");
            ("vals", VList [VInt 1; VInt 2])])
    :: [VDict [("subject", VStr "R001");
               ("eegfile", VStr "/mnt/x/data/events/R001b.mat");
               ("vals", VList [VInt 1; VInt 2; VInt 3])]] ∧
  ∃ arr, from_dict ascii_nfd no_Mn no_cast capacity_example = Ok arr ∧
         np_len (nd_data arr) = length (batch_of capacity_example).
Proof.
  split; [reflexivity|].
  eexists. split; [by vm_compute|].
  eapply (from_dict_length ascii_nfd no_Mn no_cast); [reflexivity|by vm_compute].
Defined.

Lemma from_dict_field_order_witness :
  ∃ arr, from_dict ascii_nfd no_Mn no_cast capacity_example = Ok arr ∧
         dtype_names (nd_dtype arr) = ["subject"; "eegfile"; "vals"].
Proof.
  eexists. split; [by vm_compute|].
  exact (from_dict_field_order ascii_nfd no_Mn no_cast capacity_example _ _ _ eq_refl eq_refl).
Defined.

(** ** Insertion-ordered dicts *)

Lemma assoc_Some_elem {A} (k : string) (items : list (string * A)) a :
  assoc k items = Some a → (k, a) ∈ items.
Proof.
  induction items as [|[k' a'] r IH]; cbn; [done|].
  destruct (decide (k' = k)) as [->|Hne]; [intros [= ->]; by left|].
  intros H. right. auto.
Qed.

Lemma assoc_None {A} (k : string) (items : list (string * A)) :
  assoc k items = None ↔ k ∉ items.*1.
Proof.
  induction items as [|[k' a'] r IH]; cbn.
  - split; [intros _; apply not_elem_of_nil|done].
  - rewrite not_elem_of_cons. destruct (decide (k' = k)) as [->|Hne].
    + split; [done|]. by intros [? _].
    + rewrite IH. split; [by intros ?; split|by intros [_ ?]].
Qed.

Lemma assoc_is_Some {A} (k : string) (items : list (string * A)) :
  is_Some (assoc k items) ↔ k ∈ items.*1.
Proof.
  destruct (assoc k items) eqn:E.
  - split; [|by eauto]. intros _. apply assoc_Some_elem in E.
    apply list_elem_of_fmap. by exists (k, a).
  - apply assoc_None in E. split; [by intros [??]|done].
Qed.

Lemma assoc_NoDup_elem {A} (k : string) (items : list (string * A)) a :
  NoDup items.*1 → (k, a) ∈ items → assoc k items = Some a.
Proof.
  induction items as [|[k' a'] r IH]; cbn; intros Hnd Hin.
  - by apply elem_of_nil in Hin.
  - apply NoDup_cons in Hnd as [Hk Hnd].
    apply elem_of_cons in Hin as [[= <- <-]|Hin].
    + by rewrite decide_True.
    + rewrite decide_False; [auto|]. intros ->. apply Hk.
      apply list_elem_of_fmap. by exists (k, a).
Qed.

Lemma assoc_dict_set {A} (k k' : string) (a : A) items :
  assoc k' (dict_set k a items) = if decide (k = k') then Some a else assoc k' items.
Proof.
  induction items as [|[k0 a0] r IH]; cbn.
  - by destruct (decide (k = k')).
  - destruct (decide (k0 = k)) as [->|Hne]; cbn.
    + by destruct (decide (k = k')).
    + rewrite IH. destruct (decide (k0 = k')) as [->|]; [|done].
      by rewrite decide_False.
Qed.

Lemma dict_set_keys {A} (k : string) (a : A) items :
  k ∈ items.*1 → (dict_set k a items).*1 = items.*1.
Proof.
  induction items as [|[k0 a0] r IH]; cbn; intros Hin.
  - by apply elem_of_nil in Hin.
  - destruct (decide (k0 = k)) as [->|Hne]; cbn; [done|].
    apply elem_of_cons in Hin as [->|Hin]; [done|]. by rewrite IH.
Qed.

(** On a dict, assignment to an existing key rewrites that item alone. *)
Lemma dict_set_alter {A} (k : string) (g : A → A) (items : list (string * A)) a :
  NoDup items.*1 → assoc k items = Some a →
  dict_set k (g a) items
  = (λ kc : string * A, (kc.1, if decide (kc.1 = k) then g kc.2 else kc.2)) <$> items.
Proof.
  induction items as [|[k0 a0] r IH]; cbn; intros Hnd H; [done|].
  apply NoDup_cons in Hnd as [Hk Hnd].
  destruct (decide (k0 = k)) as [->|Hne]; cbn.
  - injection H as ->. f_equal.
    clear IH Hnd. induction r as [|[k1 a1] r IH]; cbn; [done|].
    cbn in Hk. apply not_elem_of_cons in Hk as [Hk1 Hk].
    rewrite decide_False by done. f_equal. auto.
  - f_equal. auto.
Qed.

Lemma mapM_Ok_fmap {A B} (f : A → result B) (g : A → B) (l : list A) :
  (∀ x, x ∈ l → f x = Ok (g x)) → mapM f l = Ok (g <$> l).
Proof.
  induction l as [|x l IH]; intros H; cbn; [done|].
  rewrite (H x) by by left. cbn. rewrite IH; [done|].
  intros y Hy. apply H. by right.
Qed.

(** ** The sanitizer *)

Lemma cell_ind' (P : cell → Prop) :
  (∀ z, P (CInt z)) → (∀ f, P (CFloat f)) → (∀ s, P (CStr s)) → (∀ s, P (CBytes s)) →
  (∀ z, P (CInt8 z)) →
  (∀ fields, Forall (λ kc, P kc.2) fields → P (CRec fields)) →
  (∀ elems, Forall P elems → P (CArr elems)) →
  ∀ c, P c.
Proof.
  intros HI HF HS HB HI8 HR HA.
  fix IH 1. intros [z|f|s|s|z|fields|elems];
    [apply HI|apply HF|apply HS|apply HB|apply HI8| |].
  - apply HR. induction fields as [|[k c] r IHr]; constructor; [apply IH|apply IHr].
  - apply HA. induction elems as [|c r IHr]; constructor; [apply IH|apply IHr].
Qed.

Lemma np_putmask_isnan (val : Z) (c : cell) :
  np_putmask val c (isnan_mask c) = replace_nan_cell val c.
Proof.
  induction c as [z|f|s|s|z|fields _|elems IH] using cell_ind'; cbn; try done.
  f_equal. induction IH as [|c r Hc _ IHr]; cbn; [done|].
  by rewrite Hc, IHr.
Qed.


(** The default sentinel is the double [-999.0]. *)
Lemma default_replacement_float :
  float_of_int default_replacement_val = S754_finite true 8787296929185792 (-43)
  ∧ (8787296929185792 = 999 * 2 ^ 43)%Z.
Proof. by vm_compute. Qed.

Lemma default_replacement_not_nan :
  float_isnan (float_of_int default_replacement_val) = false.
Proof. reflexivity. Qed.

Lemma sanitize_row_has_fields val fields names row :
  row_has_fields names row = true →
  row_has_fields names (sanitize_row val fields row) = true.
Proof.
  destruct row as [| | | | |fs|]; cbn; try done.
  rewrite !bool_decide_eq_true. intros <-.
  rewrite <-list_fmap_compose. done.
Qed.

Lemma sanitize_row_nil val row : sanitize_row val [] row = row.
Proof.
  destruct row as [| | | | |fs|]; cbn; try done. f_equal.
  induction fs as [|[k c] r IH]; cbn; [done|]. by rewrite IH.
Qed.

(** Rewriting field [k] first and the fields [todo] next is rewriting all
    of them, provided [k] is not among [todo]. *)
Lemma sanitize_row_cons val k t todo row :
  k ∉ todo.*1 →
  sanitize_row val todo (sanitize_row val [(k, t)] row) = sanitize_row val ((k, t) :: todo) row.
Proof.
  intros Hk. destruct row as [| | | | |fs|]; cbn; try done. f_equal.
  rewrite <-list_fmap_compose. apply list_fmap_ext. intros _ [k' c] _. cbn.
  rewrite orb_false_r.
  destruct (bool_decide (k = k')) eqn:E; cbn; [|done].
  apply bool_decide_eq_true in E as <-.
  assert (nan_checked todo k = false) as Hnc.
  { unfold nan_checked. apply not_true_is_false. intros H.
    apply existsb_exists in H as ([k1 t1] & Hin & H). cbn in H.
    apply andb_true_iff in H as [H _]. apply bool_decide_eq_true in H as ->.
    apply Hk. apply list_elem_of_fmap. exists (k, t1). split; [done|].
    by apply list_elem_of_In. }
  unfold nan_checked in Hnc |- *. rewrite Hnc, orb_false_r.
  by destruct (isnan_supported t).
Qed.

(** One turn of the loop of [replace_nans]. *)
Lemma replace_nans_field_row val fields rows k t :
  NoDup fields.*1 → k ∈ fields.*1 →
  forallb (row_has_fields fields.*1) rows = true →
  replace_nans_field val (struct fields) (CArr rows) (k, t)
  = Ok (CArr (sanitize_row val [(k, t)] <$> rows)).
Proof.
  intros Hnd Hk Hrows. unfold replace_nans_field. cbn [fst snd].
  rewrite bool_decide_eq_true_2 by by apply assoc_is_Some.
  cbn [update_column].
  pose (g := λ row, match row with
                    | CRec fs => default (CInt 0) (assoc k fs)
                    | _ => CInt 0
                    end).
  rewrite (mapM_Ok_fmap _ g); cycle 1.
  { intros row Hin. rewrite forallb_forall in Hrows.
    apply list_elem_of_In, Hrows in Hin.
    destruct row as [| | | | |fs|]; try done. cbn in Hin |- *.
    apply bool_decide_eq_true in Hin. rewrite <-Hin in Hk.
    apply assoc_is_Some in Hk as [c ->]. done. }
  cbn [mbind result_bind]. unfold np_isnan.
  destruct (isnan_supported t) eqn:Et; cbn [mbind result_bind]; unfold try_except.
  - rewrite np_putmask_isnan. cbn [replace_nan_cell]. do 2 f_equal.
    apply list_eq. intros i. rewrite list_lookup_imap, !list_lookup_fmap.
    destruct (rows !! i) as [row|] eqn:Ei; cbn; [|done]. f_equal.
    rewrite forallb_forall in Hrows.
    apply list_elem_of_lookup_2, list_elem_of_In, Hrows in Ei.
    destruct row as [| | | | |fs|]; try done. cbn in Ei |- *.
    apply bool_decide_eq_true in Ei. rewrite <-Ei in Hk, Hnd.
    apply assoc_is_Some in Hk as [c Hc]. rewrite Hc. cbn. f_equal.
    rewrite (dict_set_alter k (replace_nan_cell val) fs c Hnd Hc).
    apply list_fmap_ext. intros _ [k' c'] _. cbn. rewrite Et, orb_false_r, andb_true_r.
    destruct (decide (k' = k)) as [->|Hne].
    + by rewrite bool_decide_eq_true_2.
    + by rewrite bool_decide_eq_false_2.
  - rewrite decide_True by done. do 2 f_equal.
    rewrite <-(list_fmap_id rows) at 1. apply list_fmap_ext. intros _ row _.
    destruct row as [| | | | |fs|]; try done. cbn. f_equal.
    rewrite <-(list_fmap_id fs) at 1. apply list_fmap_ext. intros _ [k' c'] _. cbn.
    by rewrite Et, andb_false_r.
Qed.

Lemma replace_nans_loop val fields todo rows :
  NoDup fields.*1 → NoDup todo.*1 → todo.*1 ⊆ fields.*1 →
  forallb (row_has_fields fields.*1) rows = true →
  for_each (replace_nans_field val (struct fields)) todo (CArr rows)
  = Ok (CArr (sanitize_row val todo <$> rows)).
Proof.
  intros Hnd. revert rows.
  induction todo as [|[k t] todo IH]; intros rows Htodo Hsub Hrows; cbn [for_each].
  - f_equal. f_equal. rewrite <-(list_fmap_id rows) at 1.
    apply list_fmap_ext. intros. by rewrite sanitize_row_nil.
  - cbn in Htodo, Hsub. apply NoDup_cons in Htodo as [Hk Htodo].
    rewrite replace_nans_field_row; [|done|apply Hsub; by left|done].
    cbn [mbind result_bind]. rewrite IH; [|done| |].
    + do 2 f_equal. rewrite <-list_fmap_compose. apply list_fmap_ext.
      intros _ row _. cbn. by apply sanitize_row_cons.
    + intros x Hx. apply Hsub. by right.
    + rewrite forallb_forall in Hrows |- *. intros row Hin.
      apply list_elem_of_In, list_elem_of_fmap in Hin as (row' & -> & Hin).
      apply sanitize_row_has_fields, Hrows. by apply list_elem_of_In.
Qed.

(** The whole pass over a structured array. *)
Lemma replace_nans_structured evs val fields rows :
  nd_dtype evs = struct fields → nd_data evs = CArr rows →
  structured evs = true →
  replace_nans evs val
  = Ok {| nd_dtype := struct fields; nd_data := CArr (sanitize_row val fields <$> rows) |}.
Proof.
  intros Ht Hd Hs. unfold structured in Hs. rewrite Ht, Hd in Hs.
  apply andb_true_iff in Hs as [Hnd Hrows]. apply bool_decide_eq_true in Hnd.
  unfold replace_nans. rewrite Ht, Hd. cbn [dtype_descr].
  by rewrite replace_nans_loop.
Qed.

Lemma structured_inv evs :
  structured evs = true →
  ∃ fields rows, nd_dtype evs = struct fields ∧ nd_data evs = CArr rows.
Proof.
  unfold structured. destruct (nd_dtype evs); try done.
  destruct (nd_data evs); try done. eauto.
Qed.









(** ** The capacity scan *)

Lemma value_ind' (P : value → Prop) :
  P VNone → (∀ b, P (VBool b)) → (∀ z, P (VInt z)) → (∀ f, P (VFloat f)) →
  (∀ s, P (VStr s)) → (∀ s, P (VBytes s)) →
  (∀ xs, Forall P xs → P (VList xs)) →
  (∀ items, Forall (λ kv, P kv.2) items → P (VDict items)) →
  ∀ v, P v.
Proof.
  intros HN HB HI HF HS HBy HL HD.
  fix IH 1. intros [|b|z|f|s|s|xs|items];
    [apply HN|apply HB|apply HI|apply HF|apply HS|apply HBy| |].
  - apply HL. induction xs as [|x r IHr]; constructor; [apply IH|apply IHr].
  - apply HD. induction items as [|[k v] r IHr]; constructor; [apply IH|apply IHr].
Qed.

(** The type classifier never answers with a fixed-capacity array type:
    these come from the capacity scan alone. *)
Lemma get_element_dtype_not_subarray (v : value) (t t' : dtype) (n : nat) :
  get_element_dtype v = Ok t → t ≠ subarray t' n.
Proof.
  revert t. induction v as [|b|z|f|s|s|xs IH|items _] using value_ind'; intros t H;
    cbn in H; try (injection H as <-; done); try done.
  - destruct xs as [|x xs]; [done|]. apply Forall_cons in IH as [IH _]. by apply IH.
  - inv_Ok H. by subst.
Qed.


Abbreviation li_get li k := (default {| li_len := 0; li_dtype := None |} (li !! k)).

(** One step of the scan rewrites the entry of its field, and its length
    becomes the maximum of the old length and the length just seen. *)
Lemma scan_field_spec entry (li li' : gmap string list_info_entry) k :
  scan_field entry li k = Ok li' →
  ∃ e, li' = <[k := e]> li ∧ li_len e = (li_len (li_get li k) `max` seq_len entry k)%nat.
Proof.
  unfold scan_field, seq_len. intros H. inv_Ok H. rewrite Ha. cbn. rewrite Ha0.
  destruct (_ && _); inv_Ok H; subst; eexists; split; done.
Qed.

Lemma scan_names_spec entry names (li li' : gmap string list_info_entry) :
  for_each (scan_field entry) names li = Ok li' →
  ∀ k, if bool_decide (k ∈ names)
       then is_Some (li' !! k) ∧
            li_len (li_get li' k) = (li_len (li_get li k) `max` seq_len entry k)%nat
       else li' !! k = li !! k.
Proof.
  revert li. induction names as [|k0 names IH]; intros li H k; cbn in H.
  - injection H as <-. rewrite bool_decide_eq_false_2; [done|]. apply not_elem_of_nil.
  - inv_Ok H. apply scan_field_spec in Ha as (e & -> & He).
    specialize (IH _ H k).
    destruct (decide (k ∈ names)) as [Hin|Hnin].
    + rewrite bool_decide_eq_true_2 in IH by done.
      rewrite bool_decide_eq_true_2 by by right.
      destruct IH as [? IH]. split; [done|]. rewrite IH.
      destruct (decide (k0 = k)) as [->|Hne].
      * rewrite lookup_insert_eq. cbn. lia.
      * by rewrite lookup_insert_ne.
    + rewrite bool_decide_eq_false_2 in IH by done.
      destruct (decide (k0 = k)) as [->|Hne].
      * rewrite bool_decide_eq_true_2 by by left.
        rewrite IH, lookup_insert_eq. split; [done|]. cbn. done.
      * rewrite bool_decide_eq_false_2 by (rewrite not_elem_of_cons; naive_solver).
        by rewrite IH, lookup_insert_ne.
Qed.

Lemma scan_lists_from names d (li li' : gmap string list_info_entry) :
  for_each (λ list_info entry, for_each (scan_field entry) names list_info) d li = Ok li' →
  ∀ k, if bool_decide (k ∈ names)
       then (d ≠ [] → is_Some (li' !! k)) ∧
            li_len (li_get li' k) = (li_len (li_get li k) `max` max_seq_len k d)%nat
       else li' !! k = li !! k.
Proof.
  revert li. induction d as [|entry d IH]; intros li H k; cbn in H.
  - injection H as <-. case_bool_decide; [|done]. split; [done|]. cbn. lia.
  - inv_Ok H. specialize (IH _ H k). apply scan_names_spec with (k := k) in Ha.
    case_bool_decide.
    + destruct Ha as [Hs Ha], IH as [_ IH]. rewrite IH, Ha.
      split; [|unfold max_seq_len; cbn [foldr]; lia].
      intros _. clear IH Ha. revert a Hs H.
      induction d as [|entry' d IHd]; intros a Hs H; cbn in H.
      * by injection H as <-.
      * inv_Ok H. eapply IHd; [|done].
        apply scan_names_spec with (k := k) in Ha.
        rewrite bool_decide_eq_true_2 in Ha by done. by destruct Ha.
    + by rewrite IH.
Qed.

(** The scan resolves, for every list field, the maximum length seen. *)
Lemma scan_lists_spec names d (li : gmap string list_info_entry) k e :
  scan_lists names d = Ok li → li !! k = Some e →
  k ∈ names ∧ li_len e = max_seq_len k d.
Proof.
  intros H Hk. apply scan_lists_from with (k := k) in H.
  case_bool_decide.
  - split; [done|]. destruct H as [_ H]. by rewrite Hk, lookup_empty in H.
  - by rewrite Hk, lookup_empty in H.
Qed.

Lemma list_names_of_elem items0 k :
  k ∈ list_names_of items0 ↔ ∃ v, (k, v) ∈ items0 ∧ isinstance v t_list = true.
Proof.
  unfold list_names_of. rewrite list_elem_of_fmap. split.
  - intros ([k' v] & -> & H). apply list_elem_of_In, filter_In in H as [H1 H2].
    exists v. split; [by apply list_elem_of_In|done].
  - intros (v & H1 & H2). exists (k, v). split; [done|].
    apply list_elem_of_In, filter_In. split; [by apply list_elem_of_In|done].
Qed.

(** ** The schema, field by field *)

Lemma make_dtypes_spec (li : gmap string list_info_entry) items0 dtypes k t :
  make_dtypes li items0 = Ok dtypes → assoc k dtypes = Some t →
  match li !! k with
  | Some e => t = subarray (default float64 (li_dtype e)) (li_len e)
  | None => ∃ v, (k, v) ∈ items0 ∧ get_element_dtype v = Ok t
  end.
Proof.
  unfold make_dtypes.
  enough (∀ acc,
            for_each
              (λ dtypes kv,
                 match li !! kv.1 with
                 | None => t ← get_element_dtype kv.2; Ok (dtypes ++ [(kv.1, t)])
                 | Some e =>
                     Ok (dtypes ++ [(kv.1, subarray (default float64 (li_dtype e)) (li_len e))])
                 end) items0 acc = Ok dtypes →
            assoc k dtypes = Some t →
            assoc k acc = Some t ∨
            match li !! k with
            | Some e => t = subarray (default float64 (li_dtype e)) (li_len e)
            | None => ∃ v, (k, v) ∈ items0 ∧ get_element_dtype v = Ok t
            end) as H.
  { intros Hd Hk. by destruct (H [] Hd Hk). }
  induction items0 as [|[k0 v0] r IH]; intros acc H Hk; cbn in H.
  - injection H as <-. by left.
  - inv_Ok H. destruct (IH _ H Hk) as [Hacc|Hr].
    + cbn in Ha.
      assert (∀ d, a = acc ++ [(k0, d)] →
                   assoc k acc = Some t ∨ (k0 = k ∧ d = t)) as Hsplit.
      { intros d ->. clear -Hacc. induction acc as [|[k1 d1] acc IHacc]; cbn in *.
        - destruct (decide (k0 = k)); [|done]. right. by injection Hacc as ->.
        - destruct (decide (k1 = k)); [by left|]. auto. }
      destruct (li !! k0) as [e0|] eqn:E0.
      * inv_Ok Ha. destruct (Hsplit _ (eq_sym Ha)) as [?|[-> <-]]; [by left|].
        right. by rewrite E0.
      * inv_Ok Ha. destruct (Hsplit _ (eq_sym Ha)) as [?|[-> <-]]; [by left|].
        right. rewrite E0. exists v0. split; [by left|done].
    + right. destruct (li !! k); [done|]. destruct Hr as (v & ? & ?).
      exists v. split; [by right|done].
Qed.

(** A field of the schema has a fixed-capacity array type exactly when the
    scan recorded it, with the element type and length of its record. *)
Lemma make_dtypes_subarray (li : gmap string list_info_entry) items0 dtypes k t cap :
  make_dtypes li items0 = Ok dtypes → assoc k dtypes = Some (subarray t cap) →
  ∃ e, li !! k = Some e ∧ t = default float64 (li_dtype e) ∧ cap = li_len e.
Proof.
  intros H Hk. pose proof (make_dtypes_spec _ _ _ _ _ H Hk) as Hs.
  destruct (li !! k) as [e|].
  - injection Hs as -> ->. eauto.
  - destruct Hs as (v & _ & Hv).
    by apply (get_element_dtype_not_subarray _ _ t cap) in Hv.
Qed.

(** ** Reading and writing slots of an array *)

Lemma getitem_field_arr xs i k :
  getitem_field (CArr xs) i k
  = match xs !! i with
    | Some row => np_getfield row k
    | None => Raise IndexError
    end.
Proof. unfold getitem_field. cbn. by destruct (xs !! i). Qed.

Lemma update_index_arr xs i f x' :
  update_index (CArr xs) i f = Ok x' →
  ∃ c c', xs !! i = Some c ∧ f c = Ok c' ∧ x' = CArr (<[i := c']> xs).
Proof.
  cbn. destruct (xs !! i) as [c|]; [|done]. intros H. inv_Ok H. eauto.
Qed.

Lemma update_field_rec row k f row' :
  update_field row k f = Ok row' →
  ∃ fs c c', row = CRec fs ∧ assoc k fs = Some c ∧ f c = Ok c' ∧
             row' = CRec (dict_set k c' fs).
Proof.
  destruct row as [| | | | |fs|]; cbn; try done.
  destruct (assoc k fs) as [c|] eqn:E; [|done]. intros H. inv_Ok H.
  exists fs, c, a. eauto.
Qed.

(** [x[i][k] = ...] on an array: slot [(i, k)] is rewritten, every other
    slot and every other row is as before. *)
Lemma update_slot_arr xs i k f x' :
  update_index (CArr xs) i (λ row, update_field row k f) = Ok x' →
  ∃ xs' c c',
    x' = CArr xs' ∧ length xs' = length xs ∧
    getitem_field (CArr xs) i k = Ok c ∧ f c = Ok c' ∧
    getitem_field (CArr xs') i k = Ok c' ∧
    (∀ i' k', (i', k') ≠ (i, k) →
              getitem_field (CArr xs') i' k' = getitem_field (CArr xs) i' k') ∧
    (∀ j, j ≠ i → xs' !! j = xs !! j).
Proof.
  intros H. apply update_index_arr in H as (row & row' & Hi & Hrow & ->).
  apply update_field_rec in Hrow as (fs & c & c' & -> & Hc & Hf & ->).
  assert (i < length xs)%nat as Hlt by by eapply lookup_lt_Some.
  exists (<[i := CRec (dict_set k c' fs)]> xs), c, c'.
  split; [done|]. split; [by rewrite length_insert|].
  rewrite !getitem_field_arr, Hi, list_lookup_insert_eq by done. cbn.
  rewrite Hc, assoc_dict_set, decide_True by done.
  split; [done|]. split; [done|]. split; [done|]. split.
  - intros i' k' Hne.
    destruct (decide (i' = i)) as [->|Hi'].
    + rewrite list_lookup_insert_eq, Hi by done. cbn.
      rewrite assoc_dict_set, decide_False; [done|]. congruence.
    + by rewrite list_lookup_insert_ne.
  - intros j Hj. by rewrite list_lookup_insert_ne.
Qed.

Lemma dict_set_same {A} (k : string) (a : A) items :
  assoc k items = Some a → dict_set k a items = items.
Proof.
  induction items as [|[k0 a0] r IH]; cbn; [done|].
  destruct (decide (k0 = k)) as [->|Hne]; [by intros [= ->]|].
  intros H. by rewrite IH.
Qed.

Lemma mapM_Ok_inv {A B} (f : A → result B) (l : list A) (k : list B) :
  mapM f l = Ok k →
  length k = length l ∧ ∀ i x, l !! i = Some x → ∃ y, k !! i = Some y ∧ f x = Ok y.
Proof.
  revert k. induction l as [|x l IH]; intros k H; cbn in H.
  - injection H as <-. split; [done|]. by intros i x [=].
  - inv_Ok H. injection H as <-.
    destruct (IH _ Ha0) as [Hlen Hl]. split; [cbn; by rewrite Hlen|].
    intros [|i] y; cbn; [intros [= <-]; eauto|apply Hl].
Qed.

(** [x[k]] as a column view: an update through it changes field [k] only,
    keeps the rows it maps to themselves, and keeps the shape. *)
Lemma update_column_arr rows k f x' :
  update_column (CArr rows) k f = Ok x' →
  ∃ rows' col col',
    x' = CArr rows' ∧ length rows' = length rows ∧
    mapM (λ row, np_getfield row k) rows = Ok col ∧ f (CArr col) = Ok col' ∧
    (∀ i k', k' ≠ k →
             getitem_field (CArr rows') i k' = getitem_field (CArr rows) i k') ∧
    (∀ cs j, col' = CArr cs → cs !! j = col !! j → rows' !! j = rows !! j).
Proof.
  cbn [update_column]. intros H. inv_Ok H. rename a into col, a0 into col'.
  assert (∃ rows',
            x' = CArr rows' ∧ length rows' = length rows ∧
            (∀ j, rows' !! j = rows !! j ∨
                  ∃ cs c row, col' = CArr cs ∧ cs !! j = Some c ∧ rows !! j = Some row ∧
                              rows' !! j = Some (set_field k c row))) as (rows' & -> & Hlen & Hr).
  { destruct col' as [| | | | | |cs]; inv_Ok H; subst x';
      try (exists rows; split; [done|]; split; [done|]; by left).
    eexists. split; [done|]. split; [by rewrite length_imap|].
    intros j. rewrite list_lookup_imap. destruct (rows !! j) as [row|] eqn:Ej; cbn; [|by left].
    destruct (cs !! j) as [c|] eqn:Ec; [|by left]. right. by exists cs, c, row. }
  exists rows', col, col'. split; [done|]. split; [done|]. split; [done|]. split; [done|].
  split.
  - intros i k' Hne. rewrite !getitem_field_arr.
    destruct (Hr i) as [->|(cs & c & row & _ & _ & -> & ->)]; [done|].
    destruct row as [| | | | |fs|]; cbn; try done.
    by rewrite assoc_dict_set, decide_False.
  - intros cs j -> Hj.
    destruct (Hr j) as [?|(cs' & c & row & [= <-] & Hc & Hrow & ->)]; [done|].
    rewrite Hrow. f_equal. apply mapM_Ok_inv in Ha as [_ Hcol].
    destruct (Hcol _ _ Hrow) as (c0 & Hc0 & Hget). rewrite Hj, Hc0 in Hc.
    injection Hc as ->. destruct row as [| | | | |fs|]; cbn in *; try done.
    destruct (assoc k fs) as [c'|] eqn:E; [|done]. injection Hget as ->.
    by rewrite dict_set_same.
Qed.

Lemma for_enumerate_app {A St} (f : nat → St → A → result St) i xs ys s :
  for_enumerate f i (xs ++ ys) s
  = s' ← for_enumerate f i xs s; for_enumerate f (i + length xs) ys s'.
Proof.
  revert i s. induction xs as [|x xs IH]; intros i s; cbn.
  - by rewrite Nat.add_0_r.
  - destruct (f i s x); cbn; [|done..]. rewrite IH. do 2 f_equal. lia.
Qed.

(** ** Loops that write one slot per step

    Both row loops of [copy_values] visit the items of every record and
    write, for record [i] and key [k], at most slot [(i, k)]. *)
Section SlotLocal.
Variable step : nat → cell → string * value → result cell.

Hypothesis step_local : ∀ i xs kv x',
  step i (CArr xs) kv = Ok x' →
  ∃ xs', x' = CArr xs' ∧ length xs' = length xs ∧
         (∀ i' k', (i', k') ≠ (i, kv.1) →
                   getitem_field (CArr xs') i' k' = getitem_field (CArr xs) i' k') ∧
         (∀ j, j ≠ i → xs' !! j = xs !! j).

Lemma items_local i items xs x' :
  for_each (step i) items (CArr xs) = Ok x' →
  ∃ xs', x' = CArr xs' ∧ length xs' = length xs ∧
         (∀ i' k', i' ≠ i ∨ k' ∉ items.*1 →
                   getitem_field (CArr xs') i' k' = getitem_field (CArr xs) i' k') ∧
         (∀ j, j ≠ i → xs' !! j = xs !! j).
Proof.
  revert xs. induction items as [|[k v] items IH]; intros xs H; cbn in H.
  - injection H as <-. by exists xs.
  - inv_Ok H. apply step_local in Ha as (xs1 & -> & Hlen1 & Hget1 & Hrow1).
    apply IH in H as (xs' & -> & Hlen & Hget & Hrow).
    exists xs'. split; [done|]. split; [congruence|]. split.
    + intros i' k' Hne. rewrite Hget, Hget1; [done| |].
      * cbn. intros [= -> ->]. destruct Hne as [?|Hne]; [done|].
        apply Hne. cbn. by left.
      * destruct Hne as [?|Hne]; [by left|]. right. intros ?. apply Hne. cbn. by right.
    + intros j Hj. by rewrite Hrow, Hrow1.
Qed.

Lemma rows_local i0 dl xs x' :
  for_enumerate (λ i x sub_dict, items ← py_items sub_dict; for_each (step i) items x)
                i0 dl (CArr xs) = Ok x' →
  ∃ xs', x' = CArr xs' ∧ length xs' = length xs ∧
         (∀ i' k', (i' < i0 ∨ i0 + length dl ≤ i')%nat →
                   getitem_field (CArr xs') i' k' = getitem_field (CArr xs) i' k') ∧
         (∀ j, (j < i0 ∨ i0 + length dl ≤ j)%nat → xs' !! j = xs !! j).
Proof.
  revert i0 xs. induction dl as [|sub dl IH]; intros i0 xs H; cbn in H.
  - injection H as <-. by exists xs.
  - inv_Ok H. inv_Ok Ha. apply items_local in Ha as (xs1 & -> & Hlen1 & Hget1 & Hrow1).
    apply IH in H as (xs' & -> & Hlen & Hget & Hrow).
    exists xs'. split; [done|]. split; [congruence|]. cbn [length]. split.
    + intros i' k' Hi'. rewrite Hget, Hget1; [done| |lia]. left. lia.
    + intros j Hj. rewrite Hrow, Hrow1; [done|lia|lia].
Qed.


End SlotLocal.

(** ** The record copier *)

Section CopierFacts.
Variable unicode_nfd : string → result string.
Variable category_Mn : ascii → bool.
Variable np_cast : cell → value → result cell.

Lemma copy_scalar_local self_call dict_fields list_info i xs kv x' :
  copy_scalar unicode_nfd category_Mn np_cast self_call dict_fields list_info i (CArr xs) kv
  = Ok x' →
  ∃ xs', x' = CArr xs' ∧ length xs' = length xs ∧
         (∀ i' k', (i', k') ≠ (i, kv.1) →
                   getitem_field (CArr xs') i' k' = getitem_field (CArr xs) i' k') ∧
         (∀ j, j ≠ i → xs' !! j = xs !! j).
Proof.
  destruct kv as [k v]. unfold copy_scalar. cbn [fst].
  assert (∀ f, update_index (CArr xs) i (λ row, update_field row k f) = Ok x' →
               ∃ xs', x' = CArr xs' ∧ length xs' = length xs ∧
                      (∀ i' k', (i', k') ≠ (i, k) →
                                getitem_field (CArr xs') i' k' = getitem_field (CArr xs) i' k') ∧
                      (∀ j, j ≠ i → xs' !! j = xs !! j)) as Hupd.
  { intros f H. apply update_slot_arr in H as (xs' & c & c' & -> & ? & _ & _ & _ & ? & ?).
    by exists xs'. }
  destruct (_ || _); [intros [= <-]; by exists xs|].
  destruct (isinstance v t_dict); [apply Hupd|].
  destruct (isinstance v t_string_types); [|apply Hupd].
  destruct v; try done. intros H. inv_Ok H. by eapply Hupd.
Qed.

Lemma copy_list_local self_call list_info i xs kv x' :
  copy_list np_cast self_call list_info i (CArr xs) kv = Ok x' →
  ∃ xs', x' = CArr xs' ∧ length xs' = length xs ∧
         (∀ i' k', (i', k') ≠ (i, kv.1) →
                   getitem_field (CArr xs') i' k' = getitem_field (CArr xs) i' k') ∧
         (∀ j, j ≠ i → xs' !! j = xs !! j).
Proof.
  destruct kv as [k v]. unfold copy_list. cbn [fst].
  destruct (in_list_info _ _); [|intros [= <-]; by exists xs].
  destruct (list_info ≫= _); [|done].
  intros H. inv_Ok H.
  apply update_slot_arr in H as (xs' & c & c' & -> & ? & _ & _ & _ & ? & ?).
  by exists xs'.
Qed.


Lemma elem_of_dict_set {A} (k : string) (a : A) items x :
  x ∈ dict_set k a items → x = (k, a) ∨ x ∈ items.
Proof.
  induction items as [|[k0 a0] r IH]; cbn.
  - intros ->%list_elem_of_singleton. by left.
  - destruct (decide (k0 = k)) as [->|Hne].
    + intros [->|?]%elem_of_cons; [by left|]. right. by right.
    + intros [->|?]%elem_of_cons; [right; by left|].
      destruct IH as [?|?]; [done|by left|]. right. by right.
Qed.

(** A column of [dict_fields] has one entry per record, and its key holds a
    dict in the first record. *)
Lemma build_dict_fields_spec dict_list items0 dict_fields k col :
  build_dict_fields dict_list items0 = Ok dict_fields → (k, col) ∈ dict_fields →
  length col = length dict_list ∧ ∃ v, (k, v) ∈ items0 ∧ isinstance v t_dict = true.
Proof.
  unfold build_dict_fields.
  enough (∀ acc,
            for_each
              (λ dict_fields kv,
                 if isinstance kv.2 t_dict then
                   col ← mapM (λ inner_dict, py_getitem inner_dict kv.1) dict_list;
                   Ok (dict_set kv.1 col dict_fields)
                 else Ok dict_fields) items0 acc = Ok dict_fields →
            (k, col) ∈ dict_fields →
            (k, col) ∈ acc ∨
            (length col = length dict_list ∧
             ∃ v, (k, v) ∈ items0 ∧ isinstance v t_dict = true)) as H.
  { intros Hb Hin. destruct (H [] Hb Hin) as [Hnil|?]; [|done]. by apply elem_of_nil in Hnil. }
  induction items0 as [|[k0 v0] r IH]; intros acc H Hin; cbn [for_each] in H.
  - injection H as <-. by left.
  - inv_Ok H. cbn [fst snd] in Ha.
    destruct (IH _ H Hin) as [Hacc|(Hlen & v & Hv & Hd)].
    + destruct (isinstance v0 t_dict) eqn:E.
      * inv_Ok Ha. subst a. apply elem_of_dict_set in Hacc as [[= -> ->]|?]; [|by left].
        right. apply mapM_Ok_inv in Ha0 as [Hlen _]. split; [done|].
        exists v0. split; [by left|done].
      * injection Ha as <-. by left.
    + right. split; [done|]. exists v. split; [by right|done].
Qed.

(** *** The copier keeps the shape and the rows beyond the batch *)

Lemma copy_values_rows fuel dict_list xs list_info x' :
  copy_values unicode_nfd category_Mn np_cast fuel dict_list (CArr xs) list_info = Ok x' →
  ∃ xs', x' = CArr xs' ∧ length xs' = length xs ∧
         ∀ j, (length dict_list ≤ j)%nat → xs' !! j = xs !! j.
Proof.
  revert dict_list xs list_info x'.
  induction fuel as [|fuel IH]; intros dict_list xs list_info x' H; [done|].
  cbn [copy_values] in H.
  destruct dict_list as [|first rest]; [injection H as <-; by exists xs|].
  set (dl := first :: rest) in *. inv_Ok H.
  rename a0 into dict_fields, Ha0 into Hdf.
  apply (rows_local _ (copy_scalar_local _ _ _)) in Ha1 as (xs1 & -> & Hlen1 & _ & Hrow1).
  apply (rows_local _ (copy_list_local _ _)) in Ha2 as (xs2 & -> & Hlen2 & _ & Hrow2).
  assert (∀ l xs2 x',
            (∀ kc, kc ∈ l → length kc.2 = length dl) →
            for_each (λ rec_arr kv,
                        update_column rec_arr kv.1
                          (λ arr, copy_values unicode_nfd category_Mn np_cast fuel kv.2 arr None))
                     l (CArr xs2) = Ok x' →
            ∃ xs', x' = CArr xs' ∧ length xs' = length xs2 ∧
                   ∀ j, (length dl ≤ j)%nat → xs' !! j = xs2 !! j) as Hpass.
  { clear -IH. induction l as [|[k col] l IHl]; intros xs2 x' Hl H; cbn [for_each] in H.
    - injection H as <-. by exists xs2.
    - inv_Ok H. cbn [fst snd] in Ha.
      apply update_column_arr in Ha as (rows' & c & c' & -> & Hlen & Hc & Hf & _ & Hrows).
      apply IH in Hf as (cs & -> & Hlencs & Hcs).
      apply IHl in H as (xs' & -> & Hlen' & Hrow'); [|intros ??; apply Hl; by right].
      exists xs'. split; [done|]. split; [congruence|].
      intros j Hj. rewrite Hrow' by done. apply (Hrows cs); [done|].
      apply Hcs. specialize (Hl (k, col)). cbn [snd] in Hl. rewrite Hl; [done|by left]. }
  apply Hpass in H as (xs' & -> & Hlen' & Hrow').
  - exists xs'. split; [done|]. split; [congruence|].
    intros j Hj. rewrite Hrow', Hrow2, Hrow1; [done|lia..|done].
  - intros [k col] Hin. by eapply build_dict_fields_spec.
Qed.

(** *** Filling a buffer with scalar elements *)


End CopierFacts.

Lemma py_getitem0_head (v v0 : value) elements :
  py_getitem0 v = Ok v0 → py_iter v = Ok elements → head elements = Some v0.
Proof.
  unfold py_getitem0. destruct v; try done; cbn; intros H [= <-];
    match type of H with
    | match ?l with _ => _ end = _ => destruct l; [done|by injection H as ->]
    end.
Qed.

Section FixedArray.
Variable unicode_nfd : string → result string.
Variable category_Mn : ascii → bool.
Variable np_cast : cell → value → result cell.

(** *** The buffer of one list field of one record *)


(** *** Nested records are copied into other fields *)

Lemma dict_pass_frame (f : list value → cell → result cell) dict_fields xs x' k :
  (∀ kc, kc ∈ dict_fields → kc.1 ≠ k) →
  for_each (λ rec_arr kv, update_column rec_arr kv.1 (f kv.2)) dict_fields (CArr xs) = Ok x' →
  ∃ xs', x' = CArr xs' ∧ length xs' = length xs ∧
         ∀ i, getitem_field (CArr xs') i k = getitem_field (CArr xs) i k.
Proof.
  revert xs. induction dict_fields as [|[k0 col] l IH]; intros xs Hk H; cbn [for_each] in H.
  - injection H as <-. by exists xs.
  - inv_Ok H. cbn [fst snd] in Ha.
    apply update_column_arr in Ha as (rows' & c & c' & -> & Hlen & _ & _ & Hget & _).
    apply IH in H as (xs' & -> & Hlen' & Hget'); [|intros ??; apply Hk; by right].
    exists xs'. split; [done|]. split; [congruence|].
    intros i. rewrite Hget', Hget; [done|]. intros ->. by apply (Hk (k0, col)); [left|].
Qed.


End FixedArray.

(** The capacity example of the specification: capacity 3, and the slot of
    the first record is [1, 2, 0]. *)
Example capacity_example_runs :
  from_dict ascii_nfd no_Mn no_cast capacity_example = Ok capacity_example_compiled.
Proof. by vm_compute. Qed.



(** ** The depth budget suffices

    [from_dict] runs the copier with a budget above the nesting depth of
    the batch, and every recursive call of the copier is on values nested
    one level deeper: the budget never runs out. *)

Lemma bind_NoFuel {A B} (m : result A) (f : A → result B) :
  m ≫= f = NoFuel → m = NoFuel ∨ ∃ a, m = Ok a ∧ f a = NoFuel.
Proof. destruct m as [a|e|]; cbn; [eauto|done|by left]. Qed.

Lemma for_each_NoFuel {A St} (f : St → A → result St) xs s :
  for_each f xs s = NoFuel → ∃ s' x, x ∈ xs ∧ f s' x = NoFuel.
Proof.
  revert s. induction xs as [|x xs IH]; intros s H; cbn in H; [done|].
  apply bind_NoFuel in H as [H|(s1 & _ & H)].
  - exists s, x. split; [by left|done].
  - destruct (IH _ H) as (s' & y & Hy & Hf). exists s', y. split; [by right|done].
Qed.

Lemma for_enumerate_NoFuel {A St} (f : nat → St → A → result St) i xs s :
  for_enumerate f i xs s = NoFuel → ∃ j s' x, x ∈ xs ∧ f j s' x = NoFuel.
Proof.
  revert i s. induction xs as [|x xs IH]; intros i s H; cbn in H; [done|].
  apply bind_NoFuel in H as [H|(s1 & _ & H)].
  - exists i, s, x. split; [by left|done].
  - destruct (IH _ _ H) as (j & s' & y & Hy & Hf). exists j, s', y. split; [by right|done].
Qed.

Lemma mapM_NoFuel {A B} (f : A → result B) (l : list A) :
  mapM f l = NoFuel → ∃ x, x ∈ l ∧ f x = NoFuel.
Proof.
  induction l as [|x l IH]; intros H; cbn in H; [done|].
  apply bind_NoFuel in H as [H|(y & _ & H)].
  - exists x. split; [by left|done].
  - apply bind_NoFuel in H as [H|(ys & _ & H)]; [|done].
    destruct (IH H) as (z & Hz & Hf). exists z. split; [by right|done].
Qed.

Lemma update_index_NoFuel x i f :
  update_index x i f = NoFuel → ∃ c, f c = NoFuel.
Proof.
  destruct x as [| | | | |fields|xs]; cbn; try done.
  - destruct (fields !! i) as [[k c]|]; [|done].
    intros [H|(? & _ & H)]%bind_NoFuel; [eauto|done].
  - destruct (xs !! i) as [c|]; [|done].
    intros [H|(? & _ & H)]%bind_NoFuel; [eauto|done].
Qed.

Lemma update_field_NoFuel row k f :
  update_field row k f = NoFuel → ∃ c, f c = NoFuel.
Proof.
  destruct row as [| | | | |fields|xs]; cbn; try done.
  destruct (assoc k fields) as [c|]; [|done].
  intros [H|(? & _ & H)]%bind_NoFuel; [eauto|done].
Qed.

Lemma update_slot_NoFuel x i k f :
  update_index x i (λ row, update_field row k f) = NoFuel → ∃ c, f c = NoFuel.
Proof. intros (row & H)%update_index_NoFuel. by apply update_field_NoFuel in H. Qed.

Lemma np_getfield_fuel row k : np_getfield row k ≠ NoFuel.
Proof. destruct row; cbn; try done. by destruct (assoc k fields). Qed.

Lemma update_column_NoFuel x k f :
  update_column x k f = NoFuel → ∃ c, f c = NoFuel.
Proof.
  destruct x as [| | | | |fields|rows]; try apply update_field_NoFuel.
  cbn [update_column]. intros [H|(col & _ & H)]%bind_NoFuel.
  - apply mapM_NoFuel in H as (row & _ & H). by apply np_getfield_fuel in H.
  - apply bind_NoFuel in H as [H|(col' & _ & H)]; [eauto|]. by destruct col'.
Qed.

Lemma get_element_dtype_fuel (v : value) : get_element_dtype v ≠ NoFuel.
Proof.
  induction v as [|b|z|f|s|s|xs IH|items IH] using value_ind'; try done.
  - destruct xs as [|x xs]; [done|]. by apply Forall_cons in IH as [IH _].
  - cbn. intros H. destruct (_ items) as [fields| |] eqn:E; try done. clear H.
    induction IH as [|[k v] r Hv _ IHr]; [done|].
    apply bind_NoFuel in E as [E|(t & _ & E)]; [done|].
    apply bind_NoFuel in E as [E|(ts & _ & E)]; [by apply IHr|done].
Qed.

Lemma mkdtype_fuel (v : value) : mkdtype v ≠ NoFuel.
Proof.
  induction v as [|b|z|f|s|s|xs IH|items _] using value_ind'; try done.
  - destruct xs as [|x xs]; [done|]. by apply Forall_cons in IH as [IH _].
  - rewrite <-get_element_dtype_dict. apply get_element_dtype_fuel.
Qed.

Lemma py_getitem_fuel v k : py_getitem v k ≠ NoFuel.
Proof. destruct v; cbn; try done. by destruct (assoc k items). Qed.

Lemma py_len_fuel v : py_len v ≠ NoFuel.
Proof. by destruct v. Qed.

Lemma py_iter_fuel v : py_iter v ≠ NoFuel.
Proof. by destruct v. Qed.

Lemma py_getitem0_fuel v : py_getitem0 v ≠ NoFuel.
Proof.
  destruct v; cbn; try done.
  - by destruct (_ <$> _).
  - by destruct (_ <$> _).
  - by destruct xs.
Qed.

Lemma py_items_fuel v : py_items v ≠ NoFuel.
Proof. by destruct v. Qed.

(** *** Depth *)

Lemma list_depth_elem (xs : list value) x : x ∈ xs → (depth x ≤ list_depth xs)%nat.
Proof.
  induction xs as [|y xs IH]; [by intros ?%elem_of_nil|].
  intros [->|Hin]%elem_of_cons; cbn; [lia|]. specialize (IH Hin). unfold list_depth in IH. lia.
Qed.

Lemma list_depth_lt (xs : list value) n :
  (0 < n)%nat → (∀ x, x ∈ xs → (depth x < n)%nat) → (list_depth xs < n)%nat.
Proof.
  intros Hn. induction xs as [|y xs IH]; intros H; cbn; [done|].
  apply Nat.max_lub_lt; [apply H; by left|]. apply IH. intros x Hx. apply H. by right.
Qed.

Lemma depth_dict_item items k (v : value) :
  (k, v) ∈ items → (depth v < depth (VDict items))%nat.
Proof.
  cbn. induction items as [|[k' v'] items IH]; [by intros ?%elem_of_nil|].
  intros [[= <- <-]|Hin]%elem_of_cons; cbn; [lia|]. specialize (IH Hin). lia.
Qed.

Lemma depth_list_elems (xs : list value) : (list_depth xs < depth (VList xs))%nat.
Proof. cbn. unfold list_depth. lia. Qed.

Lemma py_getitem_depth (entry v : value) k :
  py_getitem entry k = Ok v → (depth v < depth entry)%nat.
Proof.
  destruct entry; try done. cbn [py_getitem].
  destruct (assoc k items) as [v'|] eqn:E; [|done]. intros [= ->].
  by eapply depth_dict_item, assoc_Some_elem.
Qed.

Section Fuel.
Variable unicode_nfd : string → result string.
Variable category_Mn : ascii → bool.
Variable np_cast : cell → value → result cell.

(** The outside world knows nothing of the depth budget. *)
Hypothesis unicode_nfd_fuel : ∀ s, unicode_nfd s ≠ NoFuel.
Hypothesis np_cast_fuel : ∀ c v, np_cast c v ≠ NoFuel.

Lemma strip_accents_fuel s : strip_accents unicode_nfd category_Mn s ≠ NoFuel.
Proof.
  unfold strip_accents, try_except. pose proof (unicode_nfd_fuel s).
  destruct (unicode_nfd s); cbn; try done. by destruct (decide _).
Qed.

Lemma np_store_fuel c v : np_store np_cast c v ≠ NoFuel.
Proof.
  unfold np_store. destruct c, v; try apply np_cast_fuel; try done.
  by destruct (decide _).
Qed.

Lemma build_dict_fields_fuel dict_list items0 :
  build_dict_fields dict_list items0 ≠ NoFuel.
Proof.
  unfold build_dict_fields. intros (s & kv & _ & H)%for_each_NoFuel.
  destruct (isinstance kv.2 t_dict); [|done].
  apply bind_NoFuel in H as [H|(? & _ & H)]; [|done].
  apply mapM_NoFuel in H as (x & _ & H). by apply py_getitem_fuel in H.
Qed.

(** The columns of [dict_fields] hold values of the records, one level
    down. *)
Lemma build_dict_fields_cols dict_list items0 dict_fields k col :
  build_dict_fields dict_list items0 = Ok dict_fields → (k, col) ∈ dict_fields →
  mapM (λ inner_dict, py_getitem inner_dict k) dict_list = Ok col.
Proof.
  unfold build_dict_fields.
  enough (∀ acc,
            for_each
              (λ dict_fields kv,
                 if isinstance kv.2 t_dict then
                   col ← mapM (λ inner_dict, py_getitem inner_dict kv.1) dict_list;
                   Ok (dict_set kv.1 col dict_fields)
                 else Ok dict_fields) items0 acc = Ok dict_fields →
            (k, col) ∈ dict_fields →
            (k, col) ∈ acc ∨
            mapM (λ inner_dict, py_getitem inner_dict k) dict_list = Ok col) as H.
  { intros Hb Hin. destruct (H [] Hb Hin) as [Hnil|?]; [|done]. by apply elem_of_nil in Hnil. }
  induction items0 as [|[k0 v0] r IH]; intros acc H Hin; cbn [for_each] in H.
  - injection H as <-. by left.
  - inv_Ok H. cbn [fst snd] in Ha.
    destruct (IH _ H Hin) as [Hacc|?]; [|by right].
    destruct (isinstance v0 t_dict).
    + inv_Ok Ha. subst a. apply elem_of_dict_set in Hacc as [[= -> ->]|?]; [by right|by left].
    + injection Ha as <-. by left.
Qed.

Lemma column_depth dict_list col k :
  dict_list ≠ [] →
  mapM (λ inner_dict, py_getitem inner_dict k) dict_list = Ok col →
  (list_depth col < list_depth dict_list)%nat.
Proof.
  intros Hne H. apply mapM_Ok_inv in H as [Hlen H].
  assert (∀ x, x ∈ col → (depth x < list_depth dict_list)%nat) as Hx.
  { intros x (j & Hj)%list_elem_of_lookup_1.
    destruct (dict_list !! j) as [inner|] eqn:Ej.
    - destruct (H _ _ Ej) as (y & Hy & Hget). rewrite Hj in Hy. injection Hy as <-.
      apply py_getitem_depth in Hget.
      apply list_elem_of_lookup_2, list_depth_elem in Ej. lia.
    - apply lookup_ge_None in Ej. apply lookup_lt_Some in Hj. lia. }
  apply list_depth_lt; [|done].
  destruct dict_list as [|inner rest]; [done|]. destruct col as [|x col]; [done|].
  specialize (Hx x (ltac:(by left))). lia.
Qed.

(** The copier runs out of budget only below the depth of its batch. *)
Lemma copy_values_NoFuel fuel dict_list x list_info :
  copy_values unicode_nfd category_Mn np_cast fuel dict_list x list_info = NoFuel →
  (fuel ≤ list_depth dict_list)%nat.
Proof.
  revert dict_list x list_info.
  induction fuel as [|fuel IH]; intros dict_list x list_info H; [lia|].
  cbn [copy_values] in H. destruct dict_list as [|first rest]; [done|].
  set (dl := first :: rest) in *.
  apply bind_NoFuel in H as [H|(items0 & Hitems0 & H)]; [by apply py_items_fuel in H|].
  apply bind_NoFuel in H as [H|(dict_fields & Hdf & H)];
    [by apply build_dict_fields_fuel in H|].
  assert (∀ sub k v items, sub ∈ dl → py_items sub = Ok items → (k, v) ∈ items →
                           (depth v < list_depth dl)%nat) as Hitem.
  { intros sub k v items Hsub Hits Hkv. destruct sub; try done. injection Hits as ->.
    apply list_depth_elem in Hsub. apply depth_dict_item in Hkv. lia. }
  apply bind_NoFuel in H as [H|(x1 & _ & H)].
  { (* first loop *)
    apply for_enumerate_NoFuel in H as (i & s & sub & Hsub & H).
    apply bind_NoFuel in H as [H|(items & Hits & H)]; [by apply py_items_fuel in H|].
    apply for_each_NoFuel in H as (s' & [k v] & Hkv & H).
    specialize (Hitem _ _ _ _ Hsub Hits Hkv).
    unfold copy_scalar in H. destruct (_ || _); [done|].
    destruct (isinstance v t_dict).
    - apply update_slot_NoFuel in H as (c & H). apply IH in H. cbn in H. lia.
    - destruct (isinstance v t_string_types).
      + destruct v; try done.
        apply bind_NoFuel in H as [H|(s'' & _ & H)]; [by apply strip_accents_fuel in H|].
        apply update_slot_NoFuel in H as (c & H). by apply np_store_fuel in H.
      + apply update_slot_NoFuel in H as (c & H). by apply np_store_fuel in H. }
  apply bind_NoFuel in H as [H|(x2 & _ & H)].
  { (* second loop *)
    apply for_enumerate_NoFuel in H as (i & s & sub & Hsub & H).
    apply bind_NoFuel in H as [H|(items & Hits & H)]; [by apply py_items_fuel in H|].
    apply for_each_NoFuel in H as (s' & [k v] & Hkv & H).
    specialize (Hitem _ _ _ _ Hsub Hits Hkv).
    unfold copy_list in H. destruct (in_list_info _ _); [|done].
    destruct (list_info ≫= _) as [e|]; [|done].
    apply bind_NoFuel in H as [H|(arr & _ & H)];
      [|by apply update_slot_NoFuel in H as (c & H)].
    unfold list_buffer in H.
    apply bind_NoFuel in H as [H|(n & _ & H)]; [by apply py_len_fuel in H|].
    destruct (0 <? n)%nat; [|done].
    apply bind_NoFuel in H as [H|(v0 & Hv0 & H)]; [by apply py_getitem0_fuel in H|].
    destruct (isinstance v0 t_dict) eqn:Ed.
    - apply bind_NoFuel in H as [H|(els & Hels & H)]; [by apply py_iter_fuel in H|].
      apply IH in H.
      assert (v = VList els) as ->.
      { pose proof (py_getitem0_head _ _ _ Hv0 Hels) as Hhead.
        destruct v; try done; cbn in Hels; injection Hels as <-.
        - destruct (chars s0); [done|]. cbn in Hhead. injection Hhead as <-. done.
        - destruct (chars s0); [done|]. cbn in Hhead. injection Hhead as <-. done.
        - done. }
      pose proof (depth_list_elems els). lia.
    - apply bind_NoFuel in H as [H|(els & Hels & H)]; [by apply py_iter_fuel in H|].
      apply for_enumerate_NoFuel in H as (j & arr & el & _ & H).
      apply update_index_NoFuel in H as (c & H). by apply np_store_fuel in H. }
  (* third loop *)
  apply for_each_NoFuel in H as (s & [k col] & Hcol & H). cbn [fst snd] in H.
  apply update_column_NoFuel in H as (c & H). apply IH in H.
  pose proof (build_dict_fields_cols _ _ _ _ _ Hdf Hcol) as Hc.
  apply column_depth in Hc; [lia|done].
Qed.

(** [from_dict] never runs out of budget: it returns an array or raises. *)
Theorem from_dict_fuel (d : value) :
  from_dict unicode_nfd category_Mn np_cast d ≠ NoFuel.
Proof.
  unfold from_dict. intros H.
  apply bind_NoFuel in H as [H|(d0 & _ & H)]; [by apply py_getitem0_fuel in H|].
  apply bind_NoFuel in H as [H|(items0 & _ & H)]; [by apply py_items_fuel in H|].
  apply bind_NoFuel in H as [H|(li & _ & H)].
  { apply for_each_NoFuel in H as (li & entry & _ & H).
    apply for_each_NoFuel in H as (li' & k & _ & H). unfold scan_field in H.
    apply bind_NoFuel in H as [H|(v & _ & H)]; [by apply py_getitem_fuel in H|].
    apply bind_NoFuel in H as [H|(n & _ & H)]; [by apply py_len_fuel in H|].
    destruct (_ && _); [|done].
    apply bind_NoFuel in H as [H|(v0 & _ & H)]; [by apply py_getitem0_fuel in H|].
    apply bind_NoFuel in H as [H|(t & _ & H)]; [|done].
    destruct (isinstance v0 t_dict);
      [by apply mkdtype_fuel in H|by apply get_element_dtype_fuel in H]. }
  apply bind_NoFuel in H as [H|(dtypes & _ & H)].
  { apply for_each_NoFuel in H as (dts & kv & _ & H).
    destruct (li !! kv.1); [done|].
    apply bind_NoFuel in H as [H|(t & _ & H)]; [|done].
    by apply get_element_dtype_fuel in H. }
  destruct dtypes as [|dt dts]; [done|].
  apply bind_NoFuel in H as [H|(arr & _ & H)]; [|done].
  apply copy_values_NoFuel in H. lia.
Qed.

End Fuel.

(** ** The result of the copier does not depend on the budget *)

Lemma bind_ext {A B} (m : result A) (f g : A → result B) :
  (∀ a, m = Ok a → f a = g a) → m ≫= f = m ≫= g.
Proof. intros H. destruct m; cbn; auto. Qed.

Lemma for_each_ext {A St} (f g : St → A → result St) xs s :
  (∀ s x, x ∈ xs → f s x = g s x) → for_each f xs s = for_each g xs s.
Proof.
  revert s. induction xs as [|x xs IH]; intros s H; cbn; [done|].
  rewrite (H s x) by by left. apply bind_ext. intros s' _. apply IH.
  intros ???. apply H. by right.
Qed.

Lemma for_enumerate_ext {A St} (f g : nat → St → A → result St) i xs s :
  (∀ j s x, x ∈ xs → f j s x = g j s x) → for_enumerate f i xs s = for_enumerate g i xs s.
Proof.
  revert i s. induction xs as [|x xs IH]; intros i s H; cbn; [done|].
  rewrite (H i s x) by by left. apply bind_ext. intros s' _. apply IH.
  intros ????. apply H. by right.
Qed.

Lemma update_index_ext x i (f g : cell → result cell) :
  (∀ c, f c = g c) → update_index x i f = update_index x i g.
Proof.
  intros H. destruct x as [| | | | |fields|xs]; cbn; try done.
  - destruct (fields !! i) as [[k c]|]; [|done]. by rewrite H.
  - destruct (xs !! i) as [c|]; [|done]. by rewrite H.
Qed.

Lemma update_field_ext row k (f g : cell → result cell) :
  (∀ c, f c = g c) → update_field row k f = update_field row k g.
Proof.
  intros H. destruct row as [| | | | |fields|xs]; cbn; try done.
  destruct (assoc k fields) as [c|]; [|done]. by rewrite H.
Qed.

Lemma update_column_ext x k (f g : cell → result cell) :
  (∀ c, f c = g c) → update_column x k f = update_column x k g.
Proof.
  intros H. destruct x as [| | | | |fields|rows]; try by apply update_field_ext.
  cbn [update_column]. apply bind_ext. intros col _. by rewrite H.
Qed.

Lemma py_iter_head_dict (v v0 : value) els :
  py_getitem0 v = Ok v0 → isinstance v0 t_dict = true → py_iter v = Ok els → v = VList els.
Proof.
  intros Hv0 Hd Hels. pose proof (py_getitem0_head _ _ _ Hv0 Hels) as Hhead.
  destruct v; try done; cbn in Hels; injection Hels as <-; [| |done].
  - destruct (chars s); [done|]. cbn in Hhead. injection Hhead as <-. done.
  - destruct (chars s); [done|]. cbn in Hhead. injection Hhead as <-. done.
Qed.

Section FuelIndependence.
Variable unicode_nfd : string → result string.
Variable category_Mn : ascii → bool.
Variable np_cast : cell → value → result cell.

Lemma copy_values_fuel_indep fuel fuel' dict_list x list_info :
  (list_depth dict_list < fuel)%nat → (list_depth dict_list < fuel')%nat →
  copy_values unicode_nfd category_Mn np_cast fuel dict_list x list_info
  = copy_values unicode_nfd category_Mn np_cast fuel' dict_list x list_info.
Proof.
  revert fuel' dict_list x list_info.
  induction fuel as [|fuel IH]; intros fuel' dict_list x list_info Hf Hf'; [lia|].
  destruct fuel' as [|fuel']; [lia|]. cbn [copy_values].
  destruct dict_list as [|first rest]; [done|]. set (dl := first :: rest) in *.
  assert (∀ sub k v items, sub ∈ dl → py_items sub = Ok items → (k, v) ∈ items →
                           (depth v < list_depth dl)%nat) as Hitem.
  { intros sub k v items Hsub Hits Hkv. destruct sub; try done. injection Hits as ->.
    apply list_depth_elem in Hsub. apply depth_dict_item in Hkv. lia. }
  apply bind_ext. intros items0 Hits0. apply bind_ext. intros dict_fields Hdf.
  assert (scalar_pass unicode_nfd category_Mn np_cast
            (λ dl arr, copy_values unicode_nfd category_Mn np_cast fuel dl arr None)
            dict_fields list_info dl x
          = scalar_pass unicode_nfd category_Mn np_cast
              (λ dl arr, copy_values unicode_nfd category_Mn np_cast fuel' dl arr None)
              dict_fields list_info dl x) as ->.
  { apply for_enumerate_ext. intros j s sub Hsub. apply bind_ext. intros items Hits.
    apply for_each_ext. intros s' [k v] Hkv. unfold copy_scalar.
    destruct (_ || _); [done|]. destruct (isinstance v t_dict); [|done].
    apply update_index_ext. intros row. apply update_field_ext. intros c.
    specialize (Hitem _ _ _ _ Hsub Hits Hkv). apply IH; cbn; lia. }
  apply bind_ext. intros x1 _.
  assert (∀ x1, list_pass np_cast
            (λ dl arr, copy_values unicode_nfd category_Mn np_cast fuel dl arr None)
            list_info dl x1
          = list_pass np_cast
              (λ dl arr, copy_values unicode_nfd category_Mn np_cast fuel' dl arr None)
              list_info dl x1) as ->.
  { intros x1'. apply for_enumerate_ext. intros j s sub Hsub. apply bind_ext.
    intros items Hits. apply for_each_ext. intros s' [k v] Hkv. unfold copy_list.
    destruct (in_list_info _ _); [|done]. destruct (list_info ≫= _) as [e|]; [|done].
    enough (list_buffer np_cast
              (λ dl arr, copy_values unicode_nfd category_Mn np_cast fuel dl arr None) e v
            = list_buffer np_cast
                (λ dl arr, copy_values unicode_nfd category_Mn np_cast fuel' dl arr None) e v)
      as -> by done.
    unfold list_buffer. apply bind_ext. intros n _. destruct (0 <? n)%nat; [|done].
    apply bind_ext. intros v0 Hv0. destruct (isinstance v0 t_dict) eqn:Ed; [|done].
    apply bind_ext. intros els Hels.
    rewrite (py_iter_head_dict _ _ _ Hv0 Ed Hels) in Hkv.
    specialize (Hitem _ _ _ _ Hsub Hits Hkv). pose proof (depth_list_elems els).
    apply IH; lia. }
  apply bind_ext. intros x2 _. unfold dict_pass. apply for_each_ext.
  intros s [k col] Hcol. cbn [fst snd]. apply update_column_ext. intros c.
  pose proof (build_dict_fields_cols _ _ _ _ _ Hdf Hcol) as Hc.
  apply column_depth in Hc; [|done]. apply IH; lia.
Qed.

End FuelIndependence.

(** ** The compiler only reads its input *)

Section Frames.
Variable h0 : Store.heap.

Lemma unchanged_refl (h : Store.heap) : Store.unchanged h h.
Proof. by intros l o. Qed.

Lemma unchanged_insert_new (h : Store.heap) l o :
  Store.unchanged h0 h → h0 !! l = None → Store.unchanged h0 (<[l := o]> h).
Proof.
  intros Hh Hl l' o' Hl'. rewrite lookup_insert_ne; [by apply Hh|]. congruence.
Qed.

Lemma frames_ret {A} (a : A) (Q : A → Prop) : Q a → Store.frames h0 (mret a) Q.
Proof. intros HQ h r h' Hh [= <- <-]. split; [done|]. by intros a' [= <-]. Qed.

Lemma frames_bind {A B} (m : Store.M A) (f : A → Store.M B) (Q : A → Prop) (R : B → Prop) :
  Store.frames h0 m Q → (∀ a, Q a → Store.frames h0 (f a) R) →
  Store.frames h0 (m ≫= f) R.
Proof.
  intros Hm Hf h r h' Hh H. unfold mbind, Store.M_bind in H.
  destruct (m h) as [[a|e|] h1] eqn:Em.
  - destruct (Hm _ _ _ Hh Em) as [Hh1 HQ]. eapply Hf; [|done..]. by apply HQ.
  - injection H as <- <-. destruct (Hm _ _ _ Hh Em) as [Hh1 _]. split; [done|]. by intros.
  - injection H as <- <-. destruct (Hm _ _ _ Hh Em) as [Hh1 _]. split; [done|]. by intros.
Qed.

Lemma frames_weaken {A} (m : Store.M A) (Q R : A → Prop) :
  Store.frames h0 m Q → (∀ a, Q a → R a) → Store.frames h0 m R.
Proof.
  intros Hm HQR h r h' Hh H. destruct (Hm _ _ _ Hh H) as [? HQ]. split; [done|].
  intros a Ha. by apply HQR, HQ.
Qed.

Lemma frames_pure {A} (r : result A) : Store.frames h0 (Store.pure r) (λ _, True).
Proof. by intros h r' h' Hh [= <- <-]. Qed.

Lemma frames_look (v : Store.pyval) : Store.frames h0 (Store.look v) (λ _, True).
Proof. by intros h r' h' Hh [= <- <-]. Qed.

(** A fresh container lies outside [h0]. *)
Lemma frames_alloc (o : Store.pyobj) : Store.frames h0 (Store.alloc o) (Store.is_new h0).
Proof.
  intros h r h' Hh [= <- <-].
  assert (h0 !! fresh (dom h) = None) as Hnew.
  { destruct (h0 !! fresh (dom h)) as [o'|] eqn:E; [|done].
    apply Hh in E. exfalso. apply (is_fresh (dom h)). apply elem_of_dom. eauto. }
  split; [by apply unchanged_insert_new|].
  intros a [= <-]. by eexists.
Qed.

(** A write to a container outside [h0] leaves [h0] alone. *)
Lemma frames_assign l (o : Store.pyobj) :
  h0 !! l = None → Store.frames h0 (Store.assign l o) (λ _, True).
Proof.
  intros Hl h r h' Hh [= <- <-]. split; [by apply unchanged_insert_new|done].
Qed.

Lemma frames_for_each {A St} (f : St → A → Store.M St) xs s :
  (∀ s x, Store.frames h0 (f s x) (λ _, True)) →
  Store.frames h0 (Store.for_each f xs s) (λ _, True).
Proof.
  intros Hf. revert s. induction xs as [|x xs IH]; intros s; cbn.
  - by apply frames_ret.
  - eapply frames_bind; [apply Hf|]. intros s' _. apply IH.
Qed.

Lemma frames_for_enumerate {A St} (f : nat → St → A → Store.M St) i xs s :
  (∀ i s x, Store.frames h0 (f i s x) (λ _, True)) →
  Store.frames h0 (Store.for_enumerate f i xs s) (λ _, True).
Proof.
  intros Hf. revert i s. induction xs as [|x xs IH]; intros i s; cbn.
  - by apply frames_ret.
  - eapply frames_bind; [apply Hf|]. intros s' _. apply IH.
Qed.

(** Split a sequence at its first step. *)
Ltac fbind :=
  lazymatch goal with
  | |- Store.frames _ (@mbind _ _ _ _ ?f ?m) _ => eapply (frames_bind m f)
  end.

Ltac fbind_any :=
  lazymatch goal with
  | |- Store.frames _ (@mbind _ _ _ _ ?f ?m) _ => eapply (frames_bind m f (λ _, True))
  end.

(** Routine steps of a proof that a computation frames [h0]. *)
Ltac frames_step :=
  lazymatch goal with
  | |- Store.frames _ (Store.look _ ≫= _) _ =>
      fbind; [apply frames_look|intros ? _]
  | |- Store.frames _ (Store.pure _ ≫= _) _ =>
      fbind; [apply frames_pure|intros ? _]
  | |- Store.frames _ (Store.pure _) _ => apply frames_pure
  | |- Store.frames _ (if ?b then _ else _) _ => destruct b
  end.

Ltac frames_ret := intros; by apply frames_ret.

Lemma frames_dtype_fields (f : Store.pyval → Store.M dtype)
    (items : list (string * Store.pyval)) (acc : list (string * dtype)) :
  (∀ v, Store.frames h0 (f v) (λ _, True)) →
  Store.frames h0
    (Store.for_each (λ dtype (kv : string * Store.pyval),
                       t ← f kv.2; mret (dtype ++ [(kv.1, t)])) items acc)
    (λ _, True).
Proof.
  intros Hf. apply frames_for_each. intros s x.
  fbind; [apply Hf|]. frames_ret.
Qed.

Lemma frames_get_element_dtype fuel v :
  Store.frames h0 (Store.get_element_dtype fuel v) (λ _, True).
Proof.
  revert v. induction fuel as [|fuel IH]; intros v; cbn [Store.get_element_dtype].
  - apply frames_pure.
  - frames_step. destruct (Store.isinstance a t_dict).
    { frames_step. fbind; [by apply frames_dtype_fields|]. frames_ret. }
    do 5 (frames_step; [frames_ret|]).
    frames_step; [|frames_step]. frames_step. apply IH.
Qed.

Lemma frames_mkdtype fuel v :
  Store.frames h0 (Store.mkdtype fuel v) (λ _, True).
Proof.
  revert v. induction fuel as [|fuel IH]; intros v; cbn [Store.mkdtype].
  - apply frames_pure.
  - frames_step. frames_step.
    + frames_step. apply IH.
    + frames_step. fbind; [|frames_ret].
      apply frames_dtype_fields. apply frames_get_element_dtype.
Qed.

Lemma frames_update_slotM x i k (f : cell → Store.M cell) :
  (∀ c, Store.frames h0 (f c) (λ _, True)) →
  Store.frames h0 (Store.update_slotM x i k f) (λ _, True).
Proof.
  intros Hf. unfold Store.update_slotM. do 2 frames_step.
  fbind; [apply Hf|]. intros; apply frames_pure.
Qed.

Lemma frames_update_columnM x k (f : cell → Store.M cell) :
  (∀ c, Store.frames h0 (f c) (λ _, True)) →
  Store.frames h0 (Store.update_columnM x k f) (λ _, True).
Proof.
  intros Hf. unfold Store.update_columnM. frames_step.
  fbind; [apply Hf|]. intros; apply frames_pure.
Qed.

Lemma frames_dict_contains df k :
  Store.frames h0 (Store.dict_contains df k) (λ _, True).
Proof. unfold Store.dict_contains. do 2 frames_step. frames_ret. Qed.

(** [dict_fields[k] = col] writes to [dict_fields], a fresh dict. *)
Lemma frames_dict_setitem df k col :
  Store.is_new h0 df → Store.frames h0 (Store.dict_setitem df k col) (λ _, True).
Proof.
  intros (l & -> & Hl). unfold Store.dict_setitem. do 2 frames_step.
  by apply frames_assign.
Qed.

Lemma frames_build_dict_fields elements items0 :
  Store.frames h0 (Store.build_dict_fields elements items0) (Store.is_new h0).
Proof.
  unfold Store.build_dict_fields.
  fbind; [apply frames_alloc|]. intros df Hdf.
  fbind; [|frames_ret].
  apply frames_for_each. intros [] kv. frames_step. frames_step; [|frames_ret].
  fbind.
  { apply frames_for_each. intros col inner. do 2 frames_step. frames_ret. }
  intros col _. fbind; [apply frames_alloc|]. intros c _.
  by apply frames_dict_setitem.
Qed.

Section CompilerFrames.
Variable unicode_nfd : string → result string.
Variable category_Mn : ascii → bool.
Variable np_cast : cell → value → result cell.

Lemma frames_np_store_ref fuel old v :
  Store.frames h0 (Store.np_store_ref np_cast fuel old v) (λ _, True).
Proof. by intros h r h' Hh [= <- <-]. Qed.

Lemma frames_copy_values fuel dict_list rec_arr list_info :
  Store.frames h0
    (Store.copy_values unicode_nfd category_Mn np_cast fuel dict_list rec_arr list_info)
    (λ _, True).
Proof.
  revert dict_list rec_arr list_info.
  induction fuel as [|fuel IH]; intros dict_list rec_arr list_info;
    cbn [Store.copy_values]; [apply frames_pure|].
  do 2 frames_step. frames_step; [frames_ret|]. do 4 frames_step.
  fbind; [apply frames_build_dict_fields|]. intros df Hdf.
  fbind; [|intros rec_arr1 _; fbind; [|intros rec_arr2 _]].
  - (* first loop *)
    apply frames_for_enumerate. intros i s sub. do 2 frames_step.
    apply frames_for_each. intros x [k v]. unfold Store.copy_scalar.
    fbind; [apply frames_dict_contains|]. intros skip _.
    frames_step; [frames_ret|]. frames_step. frames_step; [|frames_step].
    + apply frames_update_slotM. intros c.
      fbind; [apply frames_alloc|]. intros one _. apply IH.
    + match goal with
      | |- Store.frames _ (match ?vv with _ => _ end) _ => destruct vv
      end; try apply frames_pure.
      frames_step.
      apply frames_update_slotM. intros c. apply frames_np_store_ref.
    + apply frames_update_slotM. intros c. apply frames_np_store_ref.
  - (* second loop *)
    apply frames_for_enumerate. intros i s sub. do 2 frames_step.
    apply frames_for_each. intros x [k v]. unfold Store.copy_list.
    frames_step; [|frames_ret]. destruct (list_info ≫= _); [|apply frames_pure].
    fbind_any; [|intros arr _; apply frames_update_slotM; frames_ret].
    unfold Store.list_buffer. do 2 frames_step. frames_step; [|frames_ret].
    do 2 frames_step. frames_step; [apply IH|]. frames_step.
    apply frames_for_enumerate. intros j arr el. frames_step.
    fbind; [apply frames_np_store_ref|]. intros; apply frames_pure.
  - (* third loop *)
    unfold Store.dict_pass. do 2 frames_step.
    apply frames_for_each. intros x kv. apply frames_update_columnM. intros c. apply IH.
Qed.

Lemma frames_from_dict fuel d :
  Store.frames h0 (Store.from_dict unicode_nfd category_Mn np_cast fuel d) (λ _, True).
Proof.
  unfold Store.from_dict. frames_step.
  fbind_any.
  { frames_step; [frames_ret|]. eapply frames_weaken; [apply frames_alloc|done]. }
  intros d' _. do 5 frames_step.
  fbind_any.
  { apply frames_for_each. intros s kv. frames_step. frames_step; frames_ret. }
  intros list_names _.
  fbind_any.
  { apply frames_for_each. intros li entry. apply frames_for_each. intros li' k.
    unfold Store.scan_field. do 4 frames_step. frames_step; [|frames_ret].
    do 2 frames_step. fbind; [|frames_ret].
    frames_step; [apply frames_mkdtype|apply frames_get_element_dtype]. }
  intros list_info _.
  fbind_any.
  { apply frames_for_each. intros dtypes kv. destruct (list_info !! kv.1); [frames_ret|].
    fbind; [apply frames_get_element_dtype|]. frames_ret. }
  intros [|dt dts] _; [frames_ret|].
  fbind; [apply frames_copy_values|]. frames_ret.
Qed.

End CompilerFrames.

End Frames.

Lemma view_of_unchanged (h h' : Store.heap) p sv :
  Store.unchanged h h' → Store.view_of h p = Ok sv → Store.view_of h' p = Ok sv.
Proof.
  intros Hh. destruct p; cbn; try done.
  destruct (h !! l) as [o|] eqn:E; [|done]. by rewrite (Hh _ _ E).
Qed.

(** What can be read back from a value stays readable, and the same. *)
Lemma reify_unchanged (h h' : Store.heap) n p v :
  Store.unchanged h h' → Store.reify n h p = Ok v → Store.reify n h' p = Ok v.
Proof.
  intros Hh. revert p v. induction n as [|n IH]; intros p v H;
    (destruct p as [| | | | | |l]; [done..|]); [done|].
  cbn [Store.reify] in H |- *.
  destruct (h !! l) as [[elems|items]|] eqn:E; [| |done]; rewrite (Hh _ _ E).
  - apply fmap_Ok in H as (vs & Hvs & ->).
    enough (mapM (Store.reify n h') elems = Ok vs) as -> by done.
    clear E. revert vs Hvs. induction elems as [|e elems IHe]; intros vs Hvs; [done|].
    cbn in Hvs |- *. inv_Ok Hvs. by rewrite (IH _ _ Ha), (IHe _ Ha0).
  - apply fmap_Ok in H as (vs & Hvs & ->).
    enough (mapM (λ kv : string * Store.pyval, v ← Store.reify n h' kv.2; Ok (kv.1, v)) items
            = Ok vs) as -> by done.
    clear E. revert vs Hvs. induction items as [|[k e] items IHe]; intros vs Hvs; [done|].
    cbn in Hvs |- *. inv_Ok Hvs. inv_Ok Ha. subst a.
    by rewrite (IH _ _ Ha1), (IHe _ Ha0).
Qed.

(** C9: compiling a batch leaves every object of the store that existed
    before the call as it was, whatever the outcome: the input list, its
    records, their sub-records and sequences are only read.  The copier
    creates containers of its own ([[d]], [[v]], [dict_fields] and its
    columns) and writes to [dict_fields] alone.  In particular the input
    reads back as the same tree after the call. *)
Theorem compile_leaves_input_unchanged
    (unicode_nfd : string → result string) (category_Mn : ascii → bool)
    (np_cast : cell → value → result cell) :
  (∀ fuel d h,
     let h' := (Store.from_dict unicode_nfd category_Mn np_cast fuel d h).2 in
     Store.unchanged h h' ∧
     ∀ n v, Store.reify n h d = Ok v → Store.reify n h' d = Ok v) ∧
  (∀ fuel dict_list rec_arr list_info h,
     let h' := (Store.copy_values unicode_nfd category_Mn np_cast fuel dict_list rec_arr
                  list_info h).2 in
     Store.unchanged h h' ∧
     ∀ n v, Store.reify n h dict_list = Ok v → Store.reify n h' dict_list = Ok v).
Proof.
  split.
  - intros fuel d h h'.
    assert (Store.unchanged h h') as Hh.
    { subst h'. destruct (Store.from_dict _ _ _ _ _ _) as [r h1] eqn:E.
      by destruct (frames_from_dict h _ _ _ _ _ _ _ _ (unchanged_refl h) E). }
    split; [done|]. intros n v. by apply reify_unchanged.
  - intros fuel dict_list rec_arr list_info h h'.
    assert (Store.unchanged h h') as Hh.
    { subst h'. destruct (Store.copy_values _ _ _ _ _ _ _ _) as [r h1] eqn:E.
      by destruct (frames_copy_values h _ _ _ _ _ _ _ _ _ _ (unchanged_refl h) E). }
    split; [done|]. intros n v. by apply reify_unchanged.
Qed.

(** The capacity example in the store: it compiles to the same array, in
    a store that has grown by the copier's own containers, and reads back
    as before. *)
Lemma compile_leaves_input_unchanged_witness :
  ∃ p h h',
    Store.encode capacity_example ∅ = (Ok p, h) ∧
    Store.from_dict ascii_nfd no_Mn no_cast 10 p h = (Ok capacity_example_compiled, h') ∧
    Store.reify 10 h p = Ok capacity_example ∧
    size h = 5%nat ∧ size h' = 6%nat ∧
    Store.unchanged h h' ∧
    Store.reify 10 h' p = Ok capacity_example.
Proof.
  eexists _, _, _. split; [by vm_compute|]. split; [by vm_compute|].
  split; [by vm_compute|]. split; [by vm_compute|]. split; [by vm_compute|].
  destruct (compile_leaves_input_unchanged ascii_nfd no_Mn no_cast) as [H _].
  match goal with
  | |- Store.unchanged ?h _ ∧ Store.reify _ _ ?p = _ =>
      destruct (H 10%nat p h) as [Hun Hre]
  end.
  split; [exact Hun|]. apply Hre. by vm_compute.
Defined.

(** The two embeddings agree on a batch with nested records and lists of
    sub-records. *)
Example store_nested_example :
  ∃ p h h' arr,
    Store.encode nested_example ∅ = (Ok p, h) ∧
    Store.from_dict ascii_nfd no_Mn no_cast 10 p h = (Ok arr, h') ∧
    from_dict ascii_nfd no_Mn no_cast nested_example = Ok arr ∧
    np_len (nd_data arr) = 2%nat ∧
    Store.reify 10 h' p = Ok nested_example.
Proof.
  eexists _, _, _, _. split; [by vm_compute|]. split; [by vm_compute|]. by vm_compute.
Qed.

(** ** The store-level embedding refines the value-level one *)

Lemma unchanged_trans (h1 h2 h3 : Store.heap) :
  Store.unchanged h1 h2 → Store.unchanged h2 h3 → Store.unchanged h1 h3.
Proof. intros H12 H23 l o Hl. by apply H23, H12. Qed.

Lemma mapM_Forall2 {A B} (f : A → result B) (l : list A) (k : list B) :
  mapM f l = Ok k ↔ Forall2 (λ x y, f x = Ok y) l k.
Proof.
  revert k. induction l as [|x l IH]; intros k; cbn.
  - split; [intros [= <-]; constructor|by intros ->%Forall2_nil_inv_l].
  - split.
    + intros H. inv_Ok H. injection H as <-. constructor; [done|by apply IH].
    + intros (y & k' & Hy & Hk & ->)%Forall2_cons_inv_l. rewrite Hy. cbn.
      apply IH in Hk. by rewrite Hk.
Qed.

Lemma rel_unchanged (h h' : Store.heap) n p v :
  Store.unchanged h h' → Store.rel n h p v → Store.rel n h' p v.
Proof. apply reify_unchanged. Qed.

Lemma rel_mono (h : Store.heap) n m p v :
  (n ≤ m)%nat → Store.rel n h p v → Store.rel m h p v.
Proof.
  unfold Store.rel. revert m p v. induction n as [|n IH]; intros m p v Hnm H;
    (destruct p as [| | | | | |l]; [by destruct m..|]); [done|].
  destruct m as [|m]; [lia|]. cbn [Store.reify] in H |- *.
  destruct (h !! l) as [[elems|items]|]; [| |done].
  - apply fmap_Ok in H as (vs & Hvs & ->).
    enough (mapM (Store.reify m h) elems = Ok vs) as -> by done.
    apply mapM_Forall2. apply mapM_Forall2 in Hvs.
    eapply Forall2_impl; [done|]. intros p v. apply IH. lia.
  - apply fmap_Ok in H as (vs & Hvs & ->).
    enough (mapM (λ kv : string * Store.pyval, v ← Store.reify m h kv.2; Ok (kv.1, v)) items
            = Ok vs) as -> by done.
    apply mapM_Forall2. apply mapM_Forall2 in Hvs.
    eapply Forall2_impl; [done|]. intros [k p] kv H. cbn in H |- *. inv_Ok H.
    rewrite (IH m _ _ (ltac:(lia)) Ha). by subst.
Qed.

Lemma rels_unchanged (h h' : Store.heap) n ps vs :
  Store.unchanged h h' → Forall2 (Store.rel n h) ps vs → Forall2 (Store.rel n h') ps vs.
Proof.
  intros Hh H. eapply Forall2_impl; [done|]. intros p v. by apply rel_unchanged.
Qed.

Lemma rel_items_unchanged (h h' : Store.heap) n items vitems :
  Store.unchanged h h' → Store.rel_items n h items vitems → Store.rel_items n h' items vitems.
Proof.
  intros Hh H. eapply Forall2_impl; [done|].
  intros a b [? ?]. split; [done|]. by eapply rel_unchanged.
Qed.

Lemma rel_list_unchanged (h h' : Store.heap) n p vs :
  Store.unchanged h h' → Store.rel_list n h p vs → Store.rel_list n h' p vs.
Proof.
  intros Hh (ps & Hv & Hps). exists ps. split; [by eapply view_of_unchanged|].
  by eapply rels_unchanged.
Qed.

(** A value stands for a tree exactly when it does so one level deep. *)
Lemma rel_view (h : Store.heap) n p v :
  Store.rel n h p v ↔ ∃ sv, Store.view_of h p = Ok sv ∧ Store.view_rel n h sv v.
Proof.
  unfold Store.rel. split.
  - intros H. destruct p as [| | | | | |l];
      try (destruct n; injection H as <-; eexists; split; done).
    destruct n as [|n]; [done|]. cbn [Store.reify Store.view_of] in H |- *.
    destruct (h !! l) as [[elems|items]|]; [| |done].
    + apply fmap_Ok in H as (vs & Hvs & ->). eexists. split; [done|].
      exists n. split; [done|]. by apply mapM_Forall2.
    + apply fmap_Ok in H as (vs & Hvs & ->). eexists. split; [done|].
      exists n. split; [done|]. apply mapM_Forall2 in Hvs.
      eapply Forall2_impl; [done|]. intros [k p] kv H. cbn in H |- *. inv_Ok H.
      by subst.
  - intros (sv & Hsv & Hrel). destruct p as [| | | | | |l];
      try (injection Hsv as <-; destruct v; try done; cbn in Hrel; subst; by destruct n).
    cbn [Store.view_of] in Hsv. destruct (h !! l) as [[elems|items]|] eqn:E; [| |done].
    + injection Hsv as <-. destruct v; try done. destruct Hrel as (m & -> & Hrel).
      cbn [Store.reify]. rewrite E. apply mapM_Forall2 in Hrel. by rewrite Hrel.
    + injection Hsv as <-. destruct v as [| | | | | | |vitems]; try done.
      destruct Hrel as (m & -> & Hrel). cbn [Store.reify]. rewrite E.
      enough (mapM (λ kv : string * Store.pyval, v ← Store.reify m h kv.2; Ok (kv.1, v)) items
              = Ok vitems) as -> by done.
      apply mapM_Forall2. eapply Forall2_impl; [done|].
      intros [k p] [k' v] [Hk Hv]. cbn in Hk, Hv |- *. unfold Store.rel in Hv.
      by rewrite Hv, Hk.
Qed.

(** *** Python operations agree on a value and its tree *)

Lemma view_rel_isinstance (h : Store.heap) n sv v t :
  Store.view_rel n h sv v → Store.isinstance sv t = isinstance v t.
Proof. by destruct sv, v, t. Qed.

Lemma rel_items_keys (h : Store.heap) n items vitems :
  Store.rel_items n h items vitems → items.*1 = vitems.*1.
Proof. induction 1 as [|a b ?? [Hk _] _ IH]; cbn; [done|]. by rewrite Hk, IH. Qed.

Lemma rel_items_assoc (h : Store.heap) n items vitems k :
  Store.rel_items n h items vitems →
  match assoc k items, assoc k vitems with
  | Some p, Some v => Store.rel n h p v
  | None, None => True
  | _, _ => False
  end.
Proof.
  induction 1 as [|[k1 p] [k2 v] ?? [Hk Hv] _ IH]; cbn; [done|].
  cbn in Hk, Hv. subst k2. by destruct (decide (k1 = k)).
Qed.

Lemma view_rel_py_items (h : Store.heap) n sv v :
  Store.view_rel n h sv v →
  Store.res_rel (Store.rel_items (pred n) h) (Store.py_items sv) (py_items v).
Proof.
  destruct sv, v; try done. cbn. by intros (m & -> & H).
Qed.

Lemma view_rel_py_getitem (h : Store.heap) n sv v k :
  Store.view_rel n h sv v →
  Store.res_rel (Store.rel (pred n) h) (Store.py_getitem sv k) (py_getitem v k).
Proof.
  destruct sv, v; try done. cbn. intros (m & -> & H).
  pose proof (rel_items_assoc _ _ _ _ k H) as Hk.
  by destruct (assoc k items), (assoc k items0).
Qed.

Lemma view_rel_py_len (h : Store.heap) n sv v :
  Store.view_rel n h sv v → Store.py_len sv = py_len v.
Proof.
  destruct sv, v; try done; cbn.
  - by intros ->.
  - by intros ->.
  - intros (m & -> & H). by rewrite (Forall2_length _ _ _ H).
  - intros (m & -> & H). by rewrite (Forall2_length _ _ _ H).
Qed.

Lemma rel_scalar_str (h : Store.heap) n s : Store.rel n h (Store.PStr s) (VStr s).
Proof. by destruct n. Qed.

Lemma rel_scalar_int (h : Store.heap) n z : Store.rel n h (Store.PInt z) (VInt z).
Proof. by destruct n. Qed.

Lemma view_rel_py_iter (h : Store.heap) n sv v :
  Store.view_rel n h sv v →
  Store.res_rel (Forall2 (Store.rel (pred n) h)) (Store.py_iter sv) (py_iter v).
Proof.
  destruct sv, v; try done; cbn.
  - intros ->. apply Forall2_fmap, Forall_Forall2_diag, Forall_forall.
    intros; apply rel_scalar_str.
  - intros ->. apply Forall2_fmap, Forall_Forall2_diag, Forall_forall.
    intros; apply rel_scalar_int.
  - by intros (m & -> & H).
  - intros (m & -> & H). apply Forall2_fmap.
    eapply Forall2_impl; [done|]. intros [k p] [k' v] [Hk _]. cbn in *. subst.
    apply rel_scalar_str.
Qed.

Lemma view_rel_py_getitem0 (h : Store.heap) n sv v :
  Store.view_rel n h sv v →
  Store.res_rel (Store.rel (pred n) h) (Store.py_getitem0 sv) (py_getitem0 v).
Proof.
  intros H. pose proof (view_rel_py_iter _ _ _ _ H) as Hi.
  unfold Store.py_getitem0, py_getitem0.
  destruct sv, v; try done; cbn in Hi |- *;
    match goal with
    | Hi : Forall2 _ ?l ?k |- _ => destruct Hi; [done|done]
    end.
Qed.

(** *** Rules of the simulation *)

Section Sim.
Variable h : Store.heap.

Lemma sim_ret {A B} (a : A) (b : B) (P : Store.heap → A → B → Prop) :
  (∀ h1, Store.unchanged h h1 → P h1 a b) → Store.sim h (mret a) (Ok b) P.
Proof.
  intros HP h1 Hh1. exists (Ok a), h1. split; [done|]. split; [by apply unchanged_refl|].
  by apply HP.
Qed.

Lemma sim_pure {A B} (r1 : result A) (r : result B) (P : Store.heap → A → B → Prop) :
  (∀ h1, Store.unchanged h h1 → Store.res_rel (P h1) r1 r) →
  Store.sim h (Store.pure r1) r P.
Proof.
  intros HP h1 Hh1. exists r1, h1. split; [done|]. split; [by apply unchanged_refl|].
  by apply HP.
Qed.

Lemma sim_pure_eq {A} (r : result A) : Store.sim h (Store.pure r) r (λ _, eq).
Proof. apply sim_pure. intros _ _. by destruct r. Qed.

End Sim.

Lemma sim_bind {A A' B B'} (h : Store.heap) (m : Store.M A) (f : A → Store.M B)
    (r : result A') (g : A' → result B')
    (P : Store.heap → A → A' → Prop) (Q : Store.heap → B → B' → Prop) :
  Store.sim h m r P →
  (∀ h' a a', Store.unchanged h h' → P h' a a' → Store.sim h' (f a) (g a') Q) →
  Store.sim h (m ≫= f) (r ≫= g) Q.
Proof.
  intros Hm Hf h1 Hh1. destruct (Hm h1 Hh1) as (r1 & h2 & Em & Hh2 & Hr).
  unfold mbind at 1, Store.M_bind. rewrite Em.
  destruct r1 as [a|e|], r as [a'|e'|]; try done; cbn in Hr |- *.
  - destruct (Hf h2 a a' (unchanged_trans _ _ _ Hh1 Hh2) Hr h2 (unchanged_refl h2))
      as (r2 & h3 & Ef & Hh3 & Hr2).
    exists r2, h3. split; [done|]. split; [by eapply unchanged_trans|done].
  - exists (Raise e), h2. by subst.
  - by exists NoFuel, h2.
Qed.

(** A step of the value level that the store level computes by reading. *)
Lemma sim_look {B} (h : Store.heap) n p v (f : Store.view → Store.M B)
    {B'} (r : result B') (Q : Store.heap → B → B' → Prop) :
  Store.rel n h p v →
  (∀ h' sv, Store.unchanged h h' → Store.view_rel n h' sv v → Store.sim h' (f sv) r Q) →
  Store.sim h (Store.look p ≫= f) r Q.
Proof.
  intros Hrel Hf h1 Hh1.
  pose proof (rel_unchanged _ _ _ _ _ Hh1 Hrel) as Hrel1.
  apply rel_view in Hrel1 as (sv & Hsv & Hvr).
  unfold mbind, Store.M_bind, Store.look. rewrite Hsv.
  apply (Hf h1 sv Hh1 Hvr h1 (unchanged_refl h1)).
Qed.

(** A pure step whose outcome agrees with one of the value level. *)
Lemma sim_pure_bind {A A' B B'} (h : Store.heap) (r1 : result A) (f : A → Store.M B)
    (r : result A') (g : A' → result B')
    (P : A → A' → Prop) (Q : Store.heap → B → B' → Prop) :
  Store.res_rel P r1 r →
  (∀ a a', P a a' → Store.sim h (f a) (g a') Q) →
  Store.sim h (Store.pure r1 ≫= f) (r ≫= g) Q.
Proof.
  intros Hr Hf. eapply (sim_bind _ _ _ _ _ (λ _, P)).
  - apply sim_pure. by intros.
  - intros h' a a' Hh' HP h1 Hh1. apply (Hf a a' HP). by eapply unchanged_trans.
Qed.

(** A pure step that succeeds is no step. *)
Lemma sim_pure_Ok {A B B'} (h : Store.heap) (a : A) (f : A → Store.M B)
    (r : result B') (Q : Store.heap → B → B' → Prop) :
  Store.sim h (f a) r Q → Store.sim h (Store.pure (Ok a) ≫= f) r Q.
Proof. intros H h1 Hh1. apply (H h1 Hh1). Qed.

Lemma sim_pure_Raise {A B B'} (h : Store.heap) e (f : A → Store.M B)
    (Q : Store.heap → B → B' → Prop) :
  Store.sim h (Store.pure (Raise e) ≫= f) (Raise e) Q.
Proof.
  intros h1 Hh1. exists (Raise e), h1. split; [done|]. split; [apply unchanged_refl|done].
Qed.

(** *** The type classifier and the schema compiler *)

Lemma sim_dtype_fields (h : Store.heap) m (f : Store.pyval → Store.M dtype) items vitems :
  Store.rel_items m h items vitems →
  (∀ h' p v, Store.unchanged h h' → Store.rel m h' p v →
             Store.sim h' (f p) (get_element_dtype v) (λ _, eq)) →
  ∀ h1 acc, Store.unchanged h h1 →
    Store.sim h1
      (Store.for_each (λ dtype (kv : string * Store.pyval),
                         t ← f kv.2; mret (dtype ++ [(kv.1, t)])) items acc)
      ((acc ++.) <$> mkdtype_fields vitems)
      (λ _, eq).
Proof.
  intros Hitems Hf.
  induction Hitems as [|[k p] [k' v] items vitems [Hk Hv] Hitems IH]; intros h1 acc Hh1.
  - cbn. apply sim_ret. intros _ _. by rewrite app_nil_r.
  - cbn in Hk, Hv. subst k'. cbn [Store.for_each mkdtype_fields fst snd].
    assert ((acc ++.) <$> (t ← get_element_dtype v; ts ← mkdtype_fields vitems;
                           Ok ((k, t) :: ts))
            = t' ← (t ← get_element_dtype v; Ok (acc ++ [(k, t)]));
              (t' ++.) <$> mkdtype_fields vitems) as ->.
    { destruct (get_element_dtype v); cbn; [|done..].
      destruct (mkdtype_fields vitems); cbn; [|done..]. by rewrite <-app_assoc. }
    eapply (sim_bind _ _ _ _ _ (λ _, eq)).
    + eapply (sim_bind _ _ _ _ _ (λ _, eq)).
      * apply Hf; [done|]. by eapply rel_unchanged.
      * intros h' t t' _ <-. apply sim_ret. by intros.
    + intros h' a t Hh' <-. apply IH. by eapply unchanged_trans.
Qed.

Lemma sim_get_element_dtype fuel (h : Store.heap) n p v :
  (n < fuel)%nat → Store.rel n h p v →
  Store.sim h (Store.get_element_dtype fuel p) (get_element_dtype v) (λ _, eq).
Proof.
  revert h n p v. induction fuel as [|fuel IH]; intros h n p v Hn Hrel; [lia|].
  cbn [Store.get_element_dtype]. eapply sim_look; [done|]. intros h' sv Hh' Hsv.
  destruct sv, v; try done; cbn in Hsv; cbn [Store.isinstance]; cbv iota;
    try (apply sim_ret; by intros); try (apply sim_pure; by intros).
  - (* a list *)
    destruct Hsv as (m & -> & Hps). cbn [get_element_dtype isinstance]. cbv iota.
    destruct Hps as [|p0 v0 ps vs Hp0 _]; cbn [Store.py_getitem0 Store.py_iter mbind result_bind].
    + apply sim_pure_Raise.
    + apply sim_pure_Ok. apply (IH _ m); [lia|done].
  - (* a dict *)
    destruct Hsv as (m & -> & Hitems). rewrite get_element_dtype_dict. cbn [mkdtype].
    cbn [Store.py_items]. apply sim_pure_Ok.
    assert (struct <$> mkdtype_fields items0
            = (([] ++.) <$> mkdtype_fields items0) ≫= λ fields, Ok (struct fields)) as ->
      by by destruct (mkdtype_fields items0).
    eapply sim_bind.
    + eapply sim_dtype_fields; [done| |apply unchanged_refl].
      intros h'' p' v' Hh'' Hrel'. apply (IH _ m); [lia|done].
    + intros h'' a a' _ <-. apply sim_ret. by intros.
Qed.

Lemma sim_mkdtype fuel (h : Store.heap) n p v :
  (n < fuel)%nat → Store.rel n h p v →
  Store.sim h (Store.mkdtype fuel p) (mkdtype v) (λ _, eq).
Proof.
  revert h n p v. induction fuel as [|fuel IH]; intros h n p v Hn Hrel; [lia|].
  cbn [Store.mkdtype]. eapply sim_look; [done|]. intros h' sv Hh' Hsv.
  destruct sv, v; try done; cbn in Hsv; cbn [Store.isinstance mkdtype]; cbv iota;
    try apply sim_pure_Raise.
  - destruct Hsv as (m & -> & Hps).
    destruct Hps as [|p0 v0 ps vs Hp0 _]; cbn [Store.py_getitem0 Store.py_iter mbind result_bind].
    + apply sim_pure_Raise.
    + apply sim_pure_Ok. apply (IH _ m); [lia|done].
  - destruct Hsv as (m & -> & Hitems). cbn [Store.py_items]. apply sim_pure_Ok.
    assert (struct <$> mkdtype_fields items0
            = (([] ++.) <$> mkdtype_fields items0) ≫= λ fields, Ok (struct fields)) as ->
      by by destruct (mkdtype_fields items0).
    eapply sim_bind.
    + eapply sim_dtype_fields; [done| |apply unchanged_refl].
      intros h'' p' v' Hh'' Hrel'. apply (sim_get_element_dtype _ _ m); [lia|done].
    + intros h'' a a' _ <-. apply sim_ret. by intros.
Qed.

(** *** Views into the array *)

Lemma res_rel_eq_refl {A} (r : result A) : Store.res_rel eq r r.
Proof. by destruct r. Qed.

Lemma sim_update_slotM (h : Store.heap) x i k (f : cell → Store.M cell)
    (g : cell → result cell) :
  (∀ c, Store.sim h (f c) (g c) (λ _, eq)) →
  Store.sim h (Store.update_slotM x i k f)
    (update_index x i (λ row, update_field row k g)) (λ _, eq).
Proof.
  intros Hf h1 Hh1. unfold Store.update_slotM, mbind, Store.M_bind, Store.pure.
  assert (∀ row, np_getitem x i = Ok row →
            ∀ c, np_getfield row k = Ok c →
              update_index x i (λ row, update_field row k g)
              = c' ← g c; update_index x i (λ row, update_field row k (λ _, Ok c'))) as Hput.
  { intros row Hrow c Hc. destruct x as [| | | | |fields|xs]; cbn in Hrow |- *; try done.
    - destruct (fields !! i) as [[k0 c0]|]; [|done]. injection Hrow as ->.
      destruct row as [| | | | |fs|]; cbn in Hc |- *; try done.
      destruct (assoc k fs) as [c1|]; [|done]. injection Hc as ->.
      by destruct (g c).
    - destruct (xs !! i) as [c0|]; [|done]. injection Hrow as ->.
      destruct row as [| | | | |fs|]; cbn in Hc |- *; try done.
      destruct (assoc k fs) as [c1|]; [|done]. injection Hc as ->.
      by destruct (g c). }
  destruct (np_getitem x i) as [row|e|] eqn:Erow.
  - destruct (np_getfield row k) as [c|e|] eqn:Ec.
    + rewrite (Hput _ eq_refl _ Ec).
      destruct (Hf c h1 Hh1) as (r1 & h2 & Ef & Hh2 & Hr). rewrite Ef.
      destruct r1 as [c'|e|], (g c) as [c''|e'|]; try done; cbn in Hr |- *.
      * subst c''. eexists _, h2. split; [done|]. split; [done|].
        apply res_rel_eq_refl.
      * exists (Raise e), h2. by subst.
      * by exists NoFuel, h2.
    + exists (Raise e), h1. split; [done|]. split; [apply unchanged_refl|].
      destruct x as [| | | | |fields|xs]; cbn in Erow |- *; try done.
      * destruct (fields !! i) as [[k0 c0]|]; [|done]. injection Erow as ->.
        destruct row as [| | | | |fs|]; cbn in Ec |- *; try done;
          try (by injection Ec as <-).
        destruct (assoc k fs); [done|]. by injection Ec as <-.
      * destruct (xs !! i) as [c0|]; [|done]. injection Erow as ->.
        destruct row as [| | | | |fs|]; cbn in Ec |- *; try done;
          try (by injection Ec as <-).
        destruct (assoc k fs); [done|]. by injection Ec as <-.
    + by apply np_getfield_fuel in Ec.
  - exists (Raise e), h1. split; [done|]. split; [apply unchanged_refl|].
    destruct x as [| | | | |fields|xs]; cbn in Erow |- *; try done;
      try (by injection Erow as <-).
    + destruct (fields !! i) as [[k0 c0]|]; [done|]. by injection Erow as <-.
    + destruct (xs !! i) as [c0|]; [done|]. by injection Erow as <-.
  - destruct x as [| | | | |fields|xs]; cbn in Erow; try done.
    + by destruct (fields !! i) as [[k0 c0]|].
    + by destruct (xs !! i).
Qed.

Lemma sim_update_columnM (h : Store.heap) x k (f : cell → Store.M cell)
    (g : cell → result cell) :
  (∀ c, Store.sim h (f c) (g c) (λ _, eq)) →
  Store.sim h (Store.update_columnM x k f) (update_column x k g) (λ _, eq).
Proof.
  intros Hf h1 Hh1. unfold Store.update_columnM, mbind, Store.M_bind, Store.pure.
  destruct x as [z|fl|s|s|z|fields|rows];
    try (exists (Raise IndexError), h1; split; [done|]; split; [apply unchanged_refl|done]).
  - (* a record *)
    cbn [Store.get_column np_getfield update_column update_field].
    destruct (assoc k fields) as [c|] eqn:Ec.
    + destruct (Hf c h1 Hh1) as (r1 & h2 & Ef & Hh2 & Hr). rewrite Ef.
      destruct r1 as [c'|e|], (g c) as [c''|e'|]; try done; cbn in Hr |- *.
      * subst c''. eexists _, h2. split; [done|]. split; [done|]. apply res_rel_eq_refl.
      * exists (Raise e), h2. by subst.
      * by exists NoFuel, h2.
    + exists (Raise ValueError), h1. split; [done|]. split; [apply unchanged_refl|done].
  - (* an array *)
    cbn [Store.get_column update_column].
    destruct (mapM (λ row, np_getfield row k) rows) as [col|e|] eqn:Ecol; cbn.
    + destruct (Hf (CArr col) h1 Hh1) as (r1 & h2 & Ef & Hh2 & Hr). rewrite Ef.
      destruct r1 as [c'|e|], (g (CArr col)) as [c''|e'|]; try done; cbn in Hr |- *.
      * subst c''. eexists _, h2. split; [done|]. split; [done|]. apply res_rel_eq_refl.
      * exists (Raise e), h2. by subst.
      * by exists NoFuel, h2.
    + exists (Raise e), h1. split; [done|]. split; [apply unchanged_refl|done].
    + apply mapM_NoFuel in Ecol as (row & _ & H). by apply np_getfield_fuel in H.
Qed.

(** *** Loops over a batch and its trees *)

Lemma sim_for_each {A B St} (h : Store.heap) (R : A → B → Prop)
    (f : St → A → Store.M St) (g : St → B → result St) xs ys :
  Forall2 R xs ys →
  (∀ h' s x y, Store.unchanged h h' → R x y → Store.sim h' (f s x) (g s y) (λ _, eq)) →
  ∀ h1 s, Store.unchanged h h1 →
          Store.sim h1 (Store.for_each f xs s) (for_each g ys s) (λ _, eq).
Proof.
  intros Hxs Hf. induction Hxs as [|x y xs ys Hxy _ IH]; intros h1 s Hh1; cbn.
  - apply sim_ret. by intros.
  - eapply sim_bind; [by apply Hf|]. intros h' a a' Hh' <-. apply IH.
    by eapply unchanged_trans.
Qed.

Lemma sim_for_enumerate {A B St} (h : Store.heap) (R : A → B → Prop)
    (f : nat → St → A → Store.M St) (g : nat → St → B → result St) xs ys :
  Forall2 R xs ys →
  (∀ h' i s x y, Store.unchanged h h' → R x y → Store.sim h' (f i s x) (g i s y) (λ _, eq)) →
  ∀ h1 i s, Store.unchanged h h1 →
            Store.sim h1 (Store.for_enumerate f i xs s) (for_enumerate g i ys s) (λ _, eq).
Proof.
  intros Hxs Hf. induction Hxs as [|x y xs ys Hxy _ IH]; intros h1 i s Hh1; cbn.
  - apply sim_ret. by intros.
  - eapply sim_bind; [by apply Hf|]. intros h' a a' Hh' <-. apply IH.
    by eapply unchanged_trans.
Qed.

Lemma sim_np_store_ref (h : Store.heap) np_cast fuel n old p v :
  (n ≤ fuel)%nat → Store.rel n h p v →
  Store.sim h (Store.np_store_ref np_cast fuel old p) (np_store np_cast old v) (λ _, eq).
Proof.
  intros Hn Hrel h1 Hh1. unfold Store.np_store_ref.
  pose proof (rel_mono _ _ _ _ _ Hn (rel_unchanged _ _ _ _ _ Hh1 Hrel)) as Hr.
  unfold Store.rel in Hr. rewrite Hr. cbn.
  eexists _, h1. split; [done|]. split; [apply unchanged_refl|apply res_rel_eq_refl].
Qed.

(** *** The dict of nested columns *)

Lemma Forall2_dict_set {A B} (R : A → B → Prop) k a b items vitems :
  Forall2 (λ x y, x.1 = y.1 ∧ R x.2 y.2) items vitems → R a b →
  Forall2 (λ x y, x.1 = y.1 ∧ R x.2 y.2) (dict_set k a items) (dict_set k b vitems).
Proof.
  intros H Hab. induction H as [|[k1 a1] [k2 b1] items vitems [Hk Hv] Ht IH]; cbn.
  - by repeat constructor.
  - cbn in Hk, Hv. subst k2. destruct (decide (k1 = k)); by constructor.
Qed.

(** The comprehension [[inner_dict[k] for inner_dict in dict_list]] reads
    the store and leaves it as it is. *)
Lemma column_loop_run (h1 h : Store.heap) m k elements dlv accp accv :
  Store.unchanged h1 h →
  Forall2 (Store.rel (S m) h1) elements dlv → Forall2 (Store.rel m h1) accp accv →
  ∃ r, Store.for_each (λ col inner_dict,
                         iv ← Store.look inner_dict;
                         x ← Store.pure (Store.py_getitem iv k);
                         mret (col ++ [x])) elements accp h = (r, h) ∧
       Store.res_rel (Forall2 (Store.rel m h1)) r
         ((accv ++.) <$> mapM (λ inner_dict, py_getitem inner_dict k) dlv).
Proof.
  intros Hh Hel. revert accp accv.
  induction Hel as [|e ev elements dlv He _ IH]; intros accp accv Hacc.
  - cbn. eexists. split; [done|]. cbn. by rewrite app_nil_r.
  - cbn [Store.for_each]. unfold mbind at 1, Store.M_bind.
    unfold mbind at 1, Store.M_bind, Store.look.
    apply rel_view in He as (sv & Hsv & Hvr).
    rewrite (view_of_unchanged _ _ _ _ Hh Hsv).
    pose proof (view_rel_py_getitem _ _ _ _ k Hvr) as Hget. cbn [pred] in Hget.
    unfold mbind at 1, Store.M_bind, Store.pure. cbn [mapM].
    destruct (Store.py_getitem sv k) as [x|e'|], (py_getitem ev k) as [xv|e''|];
      try done; cbn in Hget.
    + cbn [mret Store.M_ret mbind result_bind].
      destruct (IH (accp ++ [x]) (accv ++ [xv])) as (r & Er & Hr).
      { apply Forall2_app; [done|]. by repeat constructor. }
      exists r. split; [done|].
      destruct (mapM _ dlv); cbn in Hr |- *; try done. by rewrite <-app_assoc in Hr.
    + exists (Raise e'). split; [done|]. by subst.
    + by exists NoFuel.
Qed.

(** Running the primitives. *)
Lemma bind_run {A B} (m : Store.M A) (f : A → Store.M B) (h : Store.heap) :
  (m ≫= f) h = match m h with
               | (Ok a, h') => f a h'
               | (Raise e, h') => (Raise e, h')
               | (NoFuel, h') => (NoFuel, h')
               end.
Proof. done. Qed.

Lemma look_run v (h : Store.heap) : Store.look v h = (Store.view_of h v, h).
Proof. done. Qed.

Lemma pure_run {A} (r : result A) (h : Store.heap) : Store.pure r h = (r, h).
Proof. done. Qed.

Lemma ret_run {A} (a : A) (h : Store.heap) : (mret a : Store.M A) h = (Ok a, h).
Proof. done. Qed.

Lemma alloc_run o (h : Store.heap) :
  Store.alloc o h = (Ok (Store.PRef (fresh (dom h))), <[fresh (dom h) := o]> h).
Proof. done. Qed.

Lemma assign_run l o (h : Store.heap) : Store.assign l o h = (Ok (), <[l := o]> h).
Proof. done. Qed.

Lemma fresh_lookup (h : Store.heap) : h !! fresh (dom h) = None.
Proof. apply not_elem_of_dom, is_fresh. Qed.

Section DictFields.
Variable h1 : Store.heap.
Variable l : Store.loc.
Variable m : nat.

Lemma columns_ok_frame (h h' : Store.heap) its dfs :
  (∀ l' o, l' ≠ l → h !! l' = Some o → h' !! l' = Some o) →
  Store.columns_ok h1 l m h its dfs → Store.columns_ok h1 l m h' its dfs.
Proof.
  intros Hfr H. eapply Forall2_impl; [done|].
  intros a b (Hk & lc & ps & Ha & Hlc & Hh & Hps). split; [done|].
  exists lc, ps. split; [done|]. split; [done|]. split; [by apply Hfr|done].
Qed.

Lemma dict_fields_loop elements dlv items0 vitems0 :
  h1 !! l = None →
  Forall2 (Store.rel (S m) h1) elements dlv → Store.rel_items m h1 items0 vitems0 →
  ∀ h its accv,
    Store.unchanged h1 h → h !! l = Some (Store.ODict its) →
    Store.columns_ok h1 l m h its accv →
    ∃ r h2,
      Store.for_each
        (λ (_ : ()) (kv : string * Store.pyval),
           vv ← Store.look kv.2;
           if Store.isinstance vv t_dict then
             col ← Store.for_each (λ col inner_dict,
                                     iv ← Store.look inner_dict;
                                     x ← Store.pure (Store.py_getitem iv kv.1);
                                     mret (col ++ [x])) elements [];
             col ← Store.alloc (Store.OList col);
             Store.dict_setitem (Store.PRef l) kv.1 col
           else mret ()) items0 () h = (r, h2) ∧
      Store.unchanged h1 h2 ∧
      match r, for_each (λ dict_fields (kv : string * value),
                           if isinstance kv.2 t_dict then
                             col ← mapM (λ inner_dict, py_getitem inner_dict kv.1) dlv;
                             Ok (dict_set kv.1 col dict_fields)
                           else Ok dict_fields) vitems0 accv with
      | Ok _, Ok dfs => ∃ its', h2 !! l = Some (Store.ODict its') ∧
                        Store.columns_ok h1 l m h2 its' dfs
      | Raise e, Raise e' => e = e'
      | NoFuel, NoFuel => True
      | _, _ => False
      end.
Proof.
  intros Hl Hel Hitems.
  induction Hitems as [|[k p] [k' v] items0 vitems0 [Hk Hv] _ IH];
    intros h its accv Hh Hdf Hcols.
  - cbn. exists (Ok ()), h. split; [done|]. split; [done|]. eauto.
  - cbn in Hk, Hv. subst k'. cbn [Store.for_each for_each fst snd].
    rewrite bind_run, bind_run, look_run.
    pose proof (rel_unchanged _ _ _ _ _ Hh Hv) as Hvh.
    apply rel_view in Hvh as (sv & Hsv & Hvr). rewrite Hsv.
    rewrite (view_rel_isinstance _ _ _ _ t_dict Hvr).
    destruct (isinstance v t_dict).
    + rewrite bind_run.
      destruct (column_loop_run h1 h m k elements dlv [] [] Hh Hel (Forall2_nil_2 _ _ _))
        as (rc & Erc & Hrc).
      rewrite Erc.
      destruct rc as [col|e|], (mapM (λ inner_dict, py_getitem inner_dict k) dlv)
        as [colv|e'|]; try done; cbn in Hrc; cbn [mbind result_bind].
      * (* the column is allocated and stored under [k] *)
        rewrite bind_run, alloc_run.
        pose proof (fresh_lookup h) as Hlc.
        set (lc := fresh (dom h)) in *. set (h3 := <[lc := Store.OList col]> h).
        assert (lc ≠ l) as Hne by congruence.
        unfold Store.dict_setitem. rewrite bind_run, look_run.
        cbn [Store.view_of]. unfold h3 at 1. rewrite lookup_insert_ne, Hdf by done.
        rewrite bind_run, pure_run. cbn [Store.py_items]. rewrite assign_run.
        set (h4 := <[l := Store.ODict (dict_set k (Store.PRef lc) its)]> h3).
        assert (∀ l' o, l' ≠ l → h !! l' = Some o → h4 !! l' = Some o) as Hfr.
        { intros l' o Hl' Ho. unfold h4, h3. rewrite lookup_insert_ne by done.
          rewrite lookup_insert_ne; [done|]. congruence. }
        apply (IH h4 (dict_set k (Store.PRef lc) its) (dict_set k colv accv)).
        -- intros l' o Ho. apply Hfr; [congruence|]. by apply Hh.
        -- unfold h4. by rewrite lookup_insert_eq.
        -- apply (Forall2_dict_set
                    (λ x y, ∃ lc ps, x = Store.PRef lc ∧ lc ≠ l ∧
                                     h4 !! lc = Some (Store.OList ps) ∧
                                     Forall2 (Store.rel m h1) ps y));
             [by eapply columns_ok_frame|].
           exists lc, col. split; [done|]. split; [done|]. split; [|done].
           unfold h4, h3. rewrite lookup_insert_ne by done. by rewrite lookup_insert_eq.
      * exists (Raise e), h. by subst.
      * by exists NoFuel, h.
    + rewrite ret_run. by apply (IH h its accv).
Qed.

End DictFields.

Lemma sim_build_dict_fields (h : Store.heap) m elements dlv items0 vitems0 :
  Forall2 (Store.rel (S m) h) elements dlv → Store.rel_items m h items0 vitems0 →
  Store.sim h (Store.build_dict_fields elements items0) (build_dict_fields dlv vitems0)
    (λ h' df dfs, Store.rel_dict_fields m h' df dfs).
Proof.
  intros Hel Hitems h1 Hh1. unfold Store.build_dict_fields, build_dict_fields.
  rewrite bind_run, alloc_run.
  pose proof (fresh_lookup h1) as Hl.
  set (l := fresh (dom h1)) in *. set (ha := <[l := Store.ODict []]> h1).
  destruct (dict_fields_loop h1 l m elements dlv items0 vitems0 Hl
              (rels_unchanged _ _ _ _ _ Hh1 Hel) (rel_items_unchanged _ _ _ _ _ Hh1 Hitems)
              ha [] [])
    as (r & h2 & Er & Hh2 & Hr).
  { intros l' o Ho. unfold ha. rewrite lookup_insert_ne; [done|]. congruence. }
  { unfold ha. by rewrite lookup_insert_eq. }
  { constructor. }
  rewrite bind_run, Er.
  destruct r as [[]|e|], (for_each _ vitems0 []) as [dfs|e'|]; try done.
  - exists (Ok (Store.PRef l)), h2. split; [done|]. split; [done|].
    destruct Hr as (its' & Hdf & Hcols). exists its'. cbn [Store.view_of].
    rewrite Hdf. split; [done|]. eapply Forall2_impl; [done|].
    intros a b (Hk & lc & ps & Ha & Hlc & Hh & Hps). split; [done|].
    exists ps. rewrite Ha. cbn [Store.view_of]. rewrite Hh. split; [done|].
    by eapply rels_unchanged.
  - exists (Raise e), h2. by subst.
  - by exists NoFuel, h2.
Qed.

(** *** The three loops *)

Lemma Forall2_assoc {A B} (R : A → B → Prop) k
    (items : list (string * A)) (vitems : list (string * B)) :
  Forall2 (λ x y, x.1 = y.1 ∧ R x.2 y.2) items vitems →
  match assoc k items, assoc k vitems with
  | Some a, Some b => R a b
  | None, None => True
  | _, _ => False
  end.
Proof.
  induction 1 as [|[k1 a] [k2 b] ?? [Hk Hv] _ IH]; cbn; [done|].
  cbn in Hk, Hv. subst k2. by destruct (decide (k1 = k)).
Qed.

Lemma rel_list_mono (h : Store.heap) n m p vs :
  (n ≤ m)%nat → Store.rel_list n h p vs → Store.rel_list m h p vs.
Proof.
  intros Hnm (ps & Hv & Hps). exists ps. split; [done|].
  eapply Forall2_impl; [done|]. intros a b. by apply rel_mono.
Qed.

Lemma rel_dict_fields_unchanged (h h' : Store.heap) n df dfs :
  Store.unchanged h h' → Store.rel_dict_fields n h df dfs → Store.rel_dict_fields n h' df dfs.
Proof.
  intros Hh (items & Hv & Hits). exists items. split; [by eapply view_of_unchanged|].
  eapply Forall2_impl; [done|]. intros a b [? ?]. split; [done|].
  by eapply rel_list_unchanged.
Qed.

Lemma dict_contains_run (h : Store.heap) m df dfs k :
  Store.rel_dict_fields m h df dfs →
  Store.dict_contains df k h = (Ok (bool_decide (is_Some (assoc k dfs))), h).
Proof.
  intros (items & Hv & Hits). unfold Store.dict_contains.
  rewrite bind_run, look_run, Hv, bind_run, pure_run. cbn [Store.py_items].
  rewrite ret_run. do 2 f_equal.
  pose proof (Forall2_assoc _ k _ _ Hits) as Hk.
  destruct (assoc k items), (assoc k dfs); try done.
Qed.

(** [[v]]: a fresh list object. *)
Lemma sim_alloc_list {B B'} (h : Store.heap) m ps vs (f : Store.pyval → Store.M B)
    (r : result B') (Q : Store.heap → B → B' → Prop) :
  Forall2 (Store.rel m h) ps vs →
  (∀ h' one, Store.unchanged h h' → Store.rel_list m h' one vs → Store.sim h' (f one) r Q) →
  Store.sim h (Store.alloc (Store.OList ps) ≫= f) r Q.
Proof.
  intros Hps Hf h1 Hh1. rewrite bind_run, alloc_run.
  pose proof (fresh_lookup h1) as Hl. set (l := fresh (dom h1)) in *.
  set (h2 := <[l := Store.OList ps]> h1).
  assert (Store.unchanged h1 h2) as Hh2.
  { intros l' o Ho. unfold h2. rewrite lookup_insert_ne; [done|]. congruence. }
  destruct (Hf h2 (Store.PRef l)) with (h1 := h2) as (r1 & h3 & Er & Hh3 & Hr).
  - by eapply unchanged_trans.
  - exists ps. split.
    + cbn [Store.view_of]. unfold h2. by rewrite lookup_insert_eq.
    + eapply rels_unchanged; [|done]. by eapply unchanged_trans.
  - apply unchanged_refl.
  - exists r1, h3. split; [done|]. split; [by eapply unchanged_trans|done].
Qed.

(** As [sim_look], keeping the object that was read. *)
Lemma sim_look_at {B} (h : Store.heap) n p v (f : Store.view → Store.M B)
    {B'} (r : result B') (Q : Store.heap → B → B' → Prop) :
  Store.rel n h p v →
  (∀ h' sv, Store.unchanged h h' → Store.view_of h' p = Ok sv →
            Store.view_rel n h' sv v → Store.sim h' (f sv) r Q) →
  Store.sim h (Store.look p ≫= f) r Q.
Proof.
  intros Hrel Hf h1 Hh1.
  pose proof (rel_unchanged _ _ _ _ _ Hh1 Hrel) as Hrel1.
  apply rel_view in Hrel1 as (sv & Hsv & Hvr).
  rewrite bind_run, look_run, Hsv.
  apply (Hf h1 sv Hh1 Hsv Hvr h1 (unchanged_refl h1)).
Qed.

Lemma update_index_split x i (g : cell → result cell) :
  update_index x i g = c ← np_getitem x i; c' ← g c; update_index x i (λ _, Ok c').
Proof.
  destruct x as [| | | | |fields|xs]; cbn; try done.
  - destruct (fields !! i) as [[k c]|]; [|done]. cbn. by destruct (g c).
  - destruct (xs !! i) as [c|]; [|done]. cbn. by destruct (g c).
Qed.

(** Only a list has a record as its first element. *)
Lemma py_getitem0_dict v v0 :
  py_getitem0 v = Ok v0 → isinstance v0 t_dict = true → ∃ xs, v = VList xs.
Proof.
  destruct v as [| | | |s|s|xs|items]; cbn; try done.
  - destruct (chars s); cbn; [done|]. by intros [= <-].
  - destruct (chars s); cbn; [done|]. by intros [= <-].
  - eauto.
Qed.

Section SimPasses.
Variable unicode_nfd : string → result string.
Variable category_Mn : ascii → bool.
Variable np_cast : cell → value → result cell.
Variable fuel m : nat.
Hypothesis Hm : (m ≤ fuel)%nat.
Variable self_call : Store.pyval → cell → Store.M cell.
Variable self_callv : list value → cell → result cell.
Hypothesis Hself : ∀ h dl dlv c,
  Store.rel_list m h dl dlv → Store.sim h (self_call dl c) (self_callv dlv c) (λ _, eq).

Lemma sim_copy_scalar (h : Store.heap) df dfs li i x k p v :
  Store.rel_dict_fields m h df dfs → Store.rel m h p v →
  Store.sim h
    (Store.copy_scalar unicode_nfd category_Mn np_cast fuel self_call df li i x (k, p))
    (copy_scalar unicode_nfd category_Mn np_cast self_callv dfs li i x (k, v)) (λ _, eq).
Proof.
  intros Hdf Hp. cbn [Store.copy_scalar copy_scalar].
  assert (Store.sim h
            (vv ← Store.look p;
             if Store.isinstance vv t_dict then
               Store.update_slotM x i k
                 (λ c, one ← Store.alloc (Store.OList [p]); self_call one c)
             else if Store.isinstance vv t_string_types then
               match vv with
               | Store.SStr s =>
                   s' ← Store.pure (strip_accents unicode_nfd category_Mn s);
                   Store.update_slotM x i k
                     (λ c, Store.np_store_ref np_cast fuel c (Store.PStr s'))
               | _ => Store.pure (Raise TypeError)
               end
             else Store.update_slotM x i k (λ c, Store.np_store_ref np_cast fuel c p))
            (if isinstance v t_dict then
               update_index x i (λ row, update_field row k (λ c, self_callv [v] c))
             else if isinstance v t_string_types then
               match v with
               | VStr s =>
                   s' ← strip_accents unicode_nfd category_Mn s;
                   update_index x i
                     (λ row, update_field row k (λ c, np_store np_cast c (VStr s')))
               | _ => Raise TypeError
               end
             else update_index x i (λ row, update_field row k (λ c, np_store np_cast c v)))
            (λ _, eq)) as Hrest.
  { eapply sim_look; [done|]. intros h' sv Hh' Hsv.
    rewrite (view_rel_isinstance _ _ _ _ t_dict Hsv),
      (view_rel_isinstance _ _ _ _ t_string_types Hsv).
    destruct (isinstance v t_dict).
    - apply sim_update_slotM. intros c. eapply sim_alloc_list.
      + constructor; [by eapply rel_unchanged|constructor].
      + intros h'' one Hh'' Hone. by apply Hself.
    - destruct (isinstance v t_string_types) eqn:E.
      + destruct sv, v; try done. cbn in Hsv. subst s0.
        eapply (sim_pure_bind _ _ _ _ _ eq); [apply res_rel_eq_refl|].
        intros s' ? <-. apply sim_update_slotM. intros c.
        apply (sim_np_store_ref _ _ _ 0%nat); [lia|apply rel_scalar_str].
      + apply sim_update_slotM. intros c.
        eapply sim_np_store_ref; [exact Hm|by eapply rel_unchanged]. }
  intros h1 Hh1. rewrite bind_run.
  rewrite (dict_contains_run h1 m df dfs k) by by eapply rel_dict_fields_unchanged.
  destruct (_ || _).
  - rewrite ret_run. exists (Ok x), h1. split; [done|]. split; [apply unchanged_refl|done].
  - apply (Hrest h1 Hh1).
Qed.


Lemma sim_scalar_pass (h : Store.heap) df dfs li elements dlv x :
  Store.rel_dict_fields m h df dfs → Forall2 (Store.rel (S m) h) elements dlv →
  Store.sim h
    (Store.scalar_pass unicode_nfd category_Mn np_cast fuel self_call df li elements x)
    (scalar_pass unicode_nfd category_Mn np_cast self_callv dfs li dlv x) (λ _, eq).
Proof.
  intros Hdf Hel. unfold Store.scalar_pass, scalar_pass.
  apply (sim_for_enumerate h (Store.rel (S m) h)); [done| |apply unchanged_refl].
  intros h' i s p v Hh' Hpv.
  eapply sim_look; [by eapply rel_unchanged|]. intros h'' sv Hh'' Hsv.
  eapply sim_pure_bind; [apply (view_rel_py_items _ _ _ _ Hsv)|]. cbn [pred].
  intros items vitems Hitems.
  apply (sim_for_each h'' (λ a b, a.1 = b.1 ∧ Store.rel m h'' a.2 b.2));
    [done| |apply unchanged_refl].
  intros h3 s' [k p'] [k' v'] Hh3 [Hk Hv]. cbn in Hk, Hv. subst k'.
  apply sim_copy_scalar; [|by eapply rel_unchanged].
  eapply rel_dict_fields_unchanged; [|done].
  eapply unchanged_trans; [done|]. by eapply unchanged_trans.
Qed.

Lemma sim_fill_elements (h : Store.heap) elements vs arr :
  Forall2 (Store.rel m h) elements vs →
  Store.sim h (Store.fill_elements np_cast fuel elements arr)
    (fill_elements np_cast vs arr) (λ _, eq).
Proof.
  intros Hel. unfold Store.fill_elements, fill_elements.
  apply (sim_for_enumerate h (Store.rel m h)); [done| |apply unchanged_refl].
  intros h' j s p v Hh' Hpv. rewrite update_index_split.
  eapply (sim_pure_bind _ _ _ _ _ eq); [apply res_rel_eq_refl|]. intros c ? <-.
  eapply sim_bind.
  - eapply sim_np_store_ref; [exact Hm|by eapply rel_unchanged].
  - intros h'' a a' _ <-. apply sim_pure_eq.
Qed.

Lemma sim_list_buffer (h : Store.heap) e p v :
  Store.rel m h p v →
  Store.sim h (Store.list_buffer np_cast fuel self_call e p)
    (list_buffer np_cast self_callv e v) (λ _, eq).
Proof.
  intros Hp. unfold Store.list_buffer, list_buffer. cbv zeta.
  eapply sim_look_at; [done|]. intros h' sv Hh' Hview Hsv.
  rewrite (view_rel_py_len _ _ _ _ Hsv).
  eapply (sim_pure_bind _ _ _ _ _ eq); [apply res_rel_eq_refl|]. intros n ? <-.
  destruct (0 <? n)%nat; [|apply sim_ret; by intros].
  pose proof (view_rel_py_getitem0 _ _ _ _ Hsv) as H0.
  destruct (Store.py_getitem0 sv) as [p0|e0|], (py_getitem0 v) as [v0|e0'|] eqn:Ev0;
    try done; cbn in H0; [|subst; apply sim_pure_Raise|apply sim_pure; by intros].
  apply sim_pure_Ok. cbn [mbind result_bind].
  eapply sim_look; [exact H0|]. intros h'' sv0 Hh'' Hsv0.
  rewrite (view_rel_isinstance _ _ _ _ t_dict Hsv0).
  destruct (isinstance v0 t_dict) eqn:Ed.
  - destruct (py_getitem0_dict _ _ Ev0 Ed) as (xs & ->).
    destruct sv; try done. cbn in Hsv. destruct Hsv as (m' & -> & Hps).
    cbn [py_iter mbind result_bind]. apply Hself.
    exists elems. split; [by eapply view_of_unchanged|].
    eapply Forall2_impl; [by eapply rels_unchanged|].
    intros a b. apply rel_mono. lia.
  - pose proof (view_rel_py_iter _ _ _ _ Hsv) as Hit.
    eapply sim_pure_bind; [exact Hit|]. intros elements vs Hel.
    apply sim_fill_elements. eapply Forall2_impl; [by eapply rels_unchanged|].
    intros a b. apply rel_mono. lia.
Qed.

Lemma sim_copy_list (h : Store.heap) li i x k p v :
  Store.rel m h p v →
  Store.sim h (Store.copy_list np_cast fuel self_call li i x (k, p))
    (copy_list np_cast self_callv li i x (k, v)) (λ _, eq).
Proof.
  intros Hp. cbn [Store.copy_list copy_list].
  destruct (in_list_info li k); [|apply sim_ret; by intros].
  destruct (li ≫= (.!! k)) as [e|]; [|apply sim_pure; by intros].
  eapply sim_bind; [by apply sim_list_buffer|].
  intros h' arr ? _ <-. apply sim_update_slotM. intros c. apply sim_ret. by intros.
Qed.

Lemma sim_list_pass (h : Store.heap) li elements dlv x :
  Forall2 (Store.rel (S m) h) elements dlv →
  Store.sim h (Store.list_pass np_cast fuel self_call li elements x)
    (list_pass np_cast self_callv li dlv x) (λ _, eq).
Proof.
  intros Hel. unfold Store.list_pass, list_pass.
  apply (sim_for_enumerate h (Store.rel (S m) h)); [done| |apply unchanged_refl].
  intros h' i s p v Hh' Hpv.
  eapply sim_look; [by eapply rel_unchanged|]. intros h'' sv Hh'' Hsv.
  eapply sim_pure_bind; [apply (view_rel_py_items _ _ _ _ Hsv)|]. cbn [pred].
  intros items vitems Hitems.
  apply (sim_for_each h'' (λ a b, a.1 = b.1 ∧ Store.rel m h'' a.2 b.2));
    [done| |apply unchanged_refl].
  intros h3 s' [k p'] [k' v'] Hh3 [Hk Hv]. cbn in Hk, Hv. subst k'.
  apply sim_copy_list. by eapply rel_unchanged.
Qed.

Lemma sim_dict_pass (h : Store.heap) df dfs x :
  Store.rel_dict_fields m h df dfs →
  Store.sim h (Store.dict_pass self_call df x) (dict_pass self_callv dfs x) (λ _, eq).
Proof.
  intros (items & Hv & Hits) h1 Hh1. unfold Store.dict_pass, dict_pass.
  rewrite bind_run, look_run, (view_of_unchanged _ _ _ _ Hh1 Hv), bind_run, pure_run.
  cbn [Store.py_items].
  assert (Store.sim h1
            (Store.for_each (λ rec_arr (kv : string * Store.pyval),
                               Store.update_columnM rec_arr kv.1 (self_call kv.2)) items x)
            (for_each (λ rec_arr (kv : string * list value),
                         update_column rec_arr kv.1 (self_callv kv.2)) dfs x)
            (λ _, eq)) as Hs; [|apply (Hs h1 (unchanged_refl h1))].
  apply (sim_for_each h1 (λ a b, a.1 = b.1 ∧ Store.rel_list m h1 a.2 b.2));
    [| |apply unchanged_refl].
  - eapply Forall2_impl; [done|]. intros a b [? ?]. split; [done|].
    by eapply rel_list_unchanged.
  - intros h' s [k p] [k' vs] Hh' [Hk Hvs]. cbn in Hk, Hvs. subst k'. cbn [fst snd].
    apply sim_update_columnM. intros c. apply Hself. by eapply rel_list_unchanged.
Qed.

End SimPasses.

(** *** The copier and the schema scan *)

Lemma sim_look_list {B B'} (h : Store.heap) p sv (f : Store.view → Store.M B)
    (r : result B') (Q : Store.heap → B → B' → Prop) :
  Store.view_of h p = Ok sv →
  (∀ h', Store.unchanged h h' → Store.sim h' (f sv) r Q) →
  Store.sim h (Store.look p ≫= f) r Q.
Proof.
  intros Hv Hf h1 Hh1. rewrite bind_run, look_run, (view_of_unchanged _ _ _ _ Hh1 Hv).
  apply (Hf h1 Hh1 h1 (unchanged_refl h1)).
Qed.

(** A step of the store level that the value level does not make. *)
Lemma sim_bind_Ok {A A' B B'} (h : Store.heap) (m : Store.M A) (f : A → Store.M B)
    (a' : A') (r : result B')
    (P : Store.heap → A → A' → Prop) (Q : Store.heap → B → B' → Prop) :
  Store.sim h m (Ok a') P →
  (∀ h' a, Store.unchanged h h' → P h' a a' → Store.sim h' (f a) r Q) →
  Store.sim h (m ≫= f) r Q.
Proof.
  intros Hm Hf h1 Hh1. destruct (Hm h1 Hh1) as (r1 & h2 & Em & Hh2 & Hr).
  rewrite bind_run, Em. destruct r1 as [a|e|]; try done. cbn in Hr.
  destruct (Hf h2 a (unchanged_trans _ _ _ Hh1 Hh2) Hr h2 (unchanged_refl h2))
    as (r2 & h3 & Ef & Hh3 & Hr2).
  exists r2, h3. split; [done|]. split; [by eapply unchanged_trans|done].
Qed.

Lemma rel_depth (h : Store.heap) n p v : Store.rel n h p v → (depth v ≤ n)%nat.
Proof.
  revert p v. induction n as [|n IH]; intros p v [sv [_ Hsv]]%rel_view.
  - destruct sv, v; try done; cbn in Hsv; try lia; by destruct Hsv as (? & ? & _).
  - destruct sv, v; try done; cbn in Hsv |- *; try lia;
      destruct Hsv as (m & [= <-] & Hps); apply le_n_S.
    + induction Hps as [|p0 v0 ps vs Hp0 _ IHps]; cbn; [lia|].
      apply Nat.max_lub; [by eapply IH|done].
    + induction Hps as [|[k p0] [k' v0] ps vs [_ Hp0] _ IHps]; cbn; [lia|].
      apply Nat.max_lub; [by eapply IH|done].
Qed.

Lemma rels_depth (h : Store.heap) n ps vs :
  Forall2 (Store.rel n h) ps vs → (list_depth vs ≤ n)%nat.
Proof.
  induction 1 as [|p v ps vs Hp _ IH]; cbn; [lia|].
  apply Nat.max_lub; [by eapply rel_depth|done].
Qed.

Section SimCompiler.
Variable unicode_nfd : string → result string.
Variable category_Mn : ascii → bool.
Variable np_cast : cell → value → result cell.

Lemma sim_copy_values fuel (h : Store.heap) dl dlv x li :
  Store.rel_list fuel h dl dlv →
  Store.sim h (Store.copy_values unicode_nfd category_Mn np_cast fuel dl x li)
    (copy_values unicode_nfd category_Mn np_cast fuel dlv x li) (λ _, eq).
Proof.
  revert h dl dlv x li. induction fuel as [|fuel IH]; intros h dl dlv x li Hdl.
  { apply sim_pure. by intros. }
  cbn [Store.copy_values copy_values]. destruct Hdl as (ps & Hv & Hps).
  eapply sim_look_list; [done|]. intros h1 Hh1.
  cbn [Store.py_len]. apply sim_pure_Ok.
  pose proof (rels_unchanged _ _ _ _ _ Hh1 Hps) as Hps1. clear Hps Hv.
  destruct Hps1 as [|p0 v0 ps vs Hp0 Hps]; cbn [length Nat.eqb].
  { apply sim_ret. by intros. }
  cbn [Store.py_iter]. apply sim_pure_Ok.
  cbn [Store.py_getitem0 Store.py_iter mbind result_bind]. apply sim_pure_Ok.
  eapply sim_look; [done|]. intros h2 sv Hh2 Hsv.
  eapply sim_pure_bind; [apply (view_rel_py_items _ _ _ _ Hsv)|]. cbn [pred].
  intros items0 vitems0 Hitems0.
  assert (Forall2 (Store.rel (S fuel) h2) (p0 :: ps) (v0 :: vs)) as Hel.
  { eapply rels_unchanged; [done|]. by constructor. }
  eapply sim_bind; [by apply (sim_build_dict_fields h2 fuel)|].
  intros h3 df dfs Hh3 Hdf.
  assert (∀ (h : Store.heap) dl dlv c,
            Store.rel_list fuel h dl dlv →
            Store.sim h (Store.copy_values unicode_nfd category_Mn np_cast fuel dl c None)
              (copy_values unicode_nfd category_Mn np_cast fuel dlv c None) (λ _, eq))
    as Hself by (intros; by apply IH).
  eapply sim_bind.
  { apply (sim_scalar_pass _ _ _ fuel fuel); [done|done|done|].
    by eapply rels_unchanged. }
  intros h4 x1 ? Hh4 <-.
  eapply sim_bind.
  { apply (sim_list_pass _ fuel fuel); [done|done|].
    eapply rels_unchanged; [|done]. by eapply unchanged_trans. }
  intros h5 x2 ? Hh5 <-.
  apply (sim_dict_pass fuel); [done|].
  eapply rel_dict_fields_unchanged; [|done]. by eapply unchanged_trans.
Qed.

End SimCompiler.

Lemma sim_list_names_of (h : Store.heap) m items vitems :
  Store.rel_items m h items vitems →
  ∀ h1 acc, Store.unchanged h h1 →
    Store.sim h1
      (Store.for_each (λ list_names (kv : string * Store.pyval),
                         vv ← Store.look kv.2;
                         if Store.isinstance vv t_list then mret (list_names ++ [kv.1])
                         else mret list_names) items acc)
      (Ok (acc ++ list_names_of vitems)) (λ _, eq).
Proof.
  induction 1 as [|[k p] [k' v] items vitems [Hk Hv] _ IH]; intros h1 acc Hh1.
  - cbn. apply sim_ret. intros. by rewrite app_nil_r.
  - cbn in Hk, Hv. subst k'. cbn [Store.for_each fst snd].
    eapply (sim_bind_Ok _ _ _ (if isinstance v t_list then acc ++ [k] else acc) _ (λ _, eq)).
    + eapply sim_look; [by eapply rel_unchanged|]. intros h2 sv Hh2 Hsv.
      rewrite (view_rel_isinstance _ _ _ _ t_list Hsv).
      destruct (isinstance v t_list); apply sim_ret; by intros.
    + intros h2 a Hh2 ->. unfold list_names_of. cbn [List.filter snd].
      destruct (isinstance v t_list).
      * cbn [fmap list_fmap fst].
        pose proof (IH h2 (acc ++ [k]) (unchanged_trans _ _ _ Hh1 Hh2)) as IH'.
        rewrite <-app_assoc in IH'. exact IH'.
      * apply IH. by eapply unchanged_trans.
Qed.

Lemma sim_scan_field fuel (h : Store.heap) n entry ev li k :
  (n < fuel)%nat → Store.rel n h entry ev →
  Store.sim h (Store.scan_field fuel entry li k) (scan_field ev li k) (λ _, eq).
Proof.
  intros Hn Hentry. unfold Store.scan_field, scan_field.
  eapply sim_look; [done|]. intros h1 sv Hh1 Hsv.
  eapply sim_pure_bind; [apply (view_rel_py_getitem _ _ _ _ k Hsv)|].
  intros p v Hpv.
  eapply sim_look; [done|]. intros h2 sv' Hh2 Hsv'.
  rewrite (view_rel_py_len _ _ _ _ Hsv').
  eapply (sim_pure_bind _ _ _ _ _ eq); [apply res_rel_eq_refl|]. intros len ? <-.
  cbv zeta. destruct (_ && _); [|apply sim_ret; by intros].
  eapply sim_pure_bind; [apply (view_rel_py_getitem0 _ _ _ _ Hsv')|].
  intros p0 v0 Hp0.
  eapply sim_look; [done|]. intros h3 sv0 Hh3 Hsv0.
  rewrite (view_rel_isinstance _ _ _ _ t_dict Hsv0).
  eapply sim_bind.
  - destruct (isinstance v0 t_dict).
    + eapply sim_mkdtype; [|by eapply rel_unchanged]. lia.
    + eapply sim_get_element_dtype; [|eapply rel_unchanged; [|done]].
      * lia.
      * by eapply unchanged_trans.
  - intros h4 t ? _ <-. apply sim_ret. by intros.
Qed.

Lemma sim_scan_lists fuel (h : Store.heap) n names elements dlv :
  (n < fuel)%nat → Forall2 (Store.rel n h) elements dlv →
  Store.sim h (Store.scan_lists fuel names elements) (scan_lists names dlv) (λ _, eq).
Proof.
  intros Hn Hel. unfold Store.scan_lists, scan_lists.
  apply (sim_for_each h (Store.rel n h)); [done| |apply unchanged_refl].
  intros h1 s p v Hh1 Hpv.
  apply (sim_for_each h1 eq); [|  |apply unchanged_refl].
  - apply Forall_Forall2_diag, Forall_true. by intros.
  - intros h2 s' k ? Hh2 <-. eapply sim_scan_field; [done|].
    eapply rel_unchanged; [|done]. by eapply unchanged_trans.
Qed.

Lemma sim_make_dtypes fuel (h : Store.heap) m li items vitems :
  (m < fuel)%nat → Store.rel_items m h items vitems →
  Store.sim h (Store.make_dtypes fuel li items) (make_dtypes li vitems) (λ _, eq).
Proof.
  intros Hm Hitems. unfold Store.make_dtypes, make_dtypes.
  apply (sim_for_each h (λ a b, a.1 = b.1 ∧ Store.rel m h a.2 b.2));
    [done| |apply unchanged_refl].
  intros h1 s [k p] [k' v] Hh1 [Hk Hv]. cbn in Hk, Hv. subst k'. cbn [fst snd].
  destruct (li !! k); [apply sim_ret; by intros|].
  eapply sim_bind.
  - eapply sim_get_element_dtype; [done|by eapply rel_unchanged].
  - intros h2 t ? _ <-. apply sim_ret. by intros.
Qed.

(** [[d]] on its own. *)
Lemma sim_alloc_list_ret (h : Store.heap) m ps vs :
  Forall2 (Store.rel m h) ps vs →
  Store.sim h (Store.alloc (Store.OList ps)) (Ok vs) (λ h' one vs, Store.rel_list m h' one vs).
Proof.
  intros Hps h1 Hh1. rewrite alloc_run.
  pose proof (fresh_lookup h1) as Hl. set (l := fresh (dom h1)) in *.
  set (h2 := <[l := Store.OList ps]> h1).
  assert (Store.unchanged h1 h2) as Hh2.
  { intros l' o Ho. unfold h2. rewrite lookup_insert_ne; [done|]. congruence. }
  exists (Ok (Store.PRef l)), h2. split; [done|]. split; [done|].
  exists ps. split.
  - cbn [Store.view_of]. unfold h2. by rewrite lookup_insert_eq.
  - eapply rels_unchanged; [|done]. by eapply unchanged_trans.
Qed.

Section SimFromDict.
Variable unicode_nfd : string → result string.
Variable category_Mn : ascii → bool.
Variable np_cast : cell → value → result cell.

Lemma sim_from_dict fuel (h : Store.heap) n p v :
  (n < fuel)%nat → Store.rel n h p v →
  Store.sim h (Store.from_dict unicode_nfd category_Mn np_cast fuel p)
    (from_dict unicode_nfd category_Mn np_cast v) (λ _, eq).
Proof.
  intros Hn Hp. unfold Store.from_dict, from_dict.
  eapply sim_look_at; [done|]. intros h1 sv Hh1 Hview Hsv.
  rewrite (view_rel_isinstance _ _ _ _ t_list Hsv).
  eapply (sim_bind_Ok _ _ _ (match v with VList xs => xs | _ => [v] end) _
            (λ h' d' xs, Store.rel_list n h' d' xs)).
  { destruct (isinstance v t_list) eqn:El.
    - destruct v as [| | | | | |xs|]; try done. destruct sv as [| | | | | |ps|]; try done.
      cbn in Hsv. destruct Hsv as (m & -> & Hps). apply sim_ret. intros h2 Hh2.
      exists ps. split; [by eapply view_of_unchanged|].
      eapply Forall2_impl; [by eapply rels_unchanged|]. intros a b. apply rel_mono. lia.
    - assert (match v with VList xs => xs | _ => [v] end = [v]) as -> by by destruct v.
      apply sim_alloc_list_ret. constructor; [by eapply rel_unchanged|constructor]. }
  cbv zeta. generalize (match v with VList xs => xs | _ => [v] end).
  intros d h2 d' Hh2 (ps & Hv' & Hps).
  eapply sim_look_list; [done|]. intros h3 Hh3.
  cbn [Store.py_iter]. apply sim_pure_Ok.
  pose proof (rels_unchanged _ _ _ _ _ Hh3 Hps) as Hps3.
  pose proof (view_of_unchanged _ _ _ _ Hh3 Hv') as Hv3.
  pose proof (rels_depth _ _ _ _ Hps3) as Hdepth.
  assert (length ps = length d) as Hlen by by eapply Forall2_length.
  destruct Hps3 as [|p0 v0 ps vs Hp0 Hps3].
  { cbn. apply sim_pure_Raise. }
  cbn [Store.py_getitem0 Store.py_iter py_getitem0 py_iter mbind result_bind].
  apply sim_pure_Ok.
  eapply sim_look; [done|]. intros h4 sv0 Hh4 Hsv0.
  eapply sim_pure_bind; [apply (view_rel_py_items _ _ _ _ Hsv0)|].
  intros items0 vitems0 Hitems0.
  eapply sim_bind_Ok; [apply (sim_list_names_of _ _ _ _ Hitems0 h4 []), unchanged_refl|].
  cbn [app]. intros h5 names Hh5 ->.
  assert (Store.unchanged h3 h5) as Hh35 by by eapply unchanged_trans.
  eapply sim_bind.
  { eapply (sim_scan_lists _ _ n); [done|].
    eapply rels_unchanged; [done|]. by constructor. }
  intros h6 li ? Hh6 <-.
  eapply sim_bind.
  { eapply (sim_make_dtypes _ _ (pred n)); [lia|].
    eapply rel_items_unchanged; [|done]. by eapply unchanged_trans. }
  intros h7 dtypes ? Hh7 <-.
  destruct dtypes as [|dt dtypes]; [apply sim_ret; by intros|].
  rewrite Hlen.
  rewrite (copy_values_fuel_indep unicode_nfd category_Mn np_cast
             (S (list_depth (v0 :: vs))) fuel) by lia.
  eapply sim_bind.
  { apply sim_copy_values. exists (p0 :: ps). split.
    - eapply view_of_unchanged; [|done].
      eapply unchanged_trans; [done|]. by eapply unchanged_trans.
    - eapply Forall2_impl.
      + eapply rels_unchanged; [|by constructor].
        eapply unchanged_trans; [done|]. by eapply unchanged_trans.
      + intros a b. apply rel_mono. lia. }
  intros h8 arr ? _ <-. apply sim_ret. by intros.
Qed.

End SimFromDict.

(** *** The batch compiler *)

Lemma res_rel_eq {A} (r1 r2 : result A) : Store.res_rel eq r1 r2 → r1 = r2.
Proof. destruct r1, r2; cbn; try done; by intros ->. Qed.

Lemma for_all_run {A B} (f : A → Store.M B) (R : Store.heap → B → A → Prop) xs :
  (∀ h h' b a, Store.unchanged h h' → R h b a → R h' b a) →
  Forall (λ x, ∀ h, ∃ p h', f x h = (Ok p, h') ∧ Store.unchanged h h' ∧ R h' p x) xs →
  ∀ h, ∃ ps h', Store.for_all f xs h = (Ok ps, h') ∧ Store.unchanged h h' ∧
                Forall2 (R h') ps xs.
Proof.
  intros HR. induction 1 as [|x xs Hx _ IH]; intros h; cbn [Store.for_all].
  - exists [], h. split; [done|]. split; [apply unchanged_refl|constructor].
  - rewrite bind_run. destruct (Hx h) as (p & h1 & -> & Hh1 & Hp).
    rewrite bind_run. destruct (IH h1) as (ps & h2 & -> & Hh2 & Hps).
    rewrite ret_run. exists (p :: ps), h2. split; [done|].
    split; [by eapply unchanged_trans|]. constructor; [by eapply HR|done].
Qed.

Lemma rels_at_depth (h : Store.heap) ps xs :
  Forall2 (λ p x, Store.rel (depth x) h p x) ps xs →
  Forall2 (Store.rel (list_depth xs) h) ps xs.
Proof.
  induction 1 as [|p x ps xs Hp _ IH]; cbn; constructor.
  - eapply rel_mono; [|done]. lia.
  - eapply Forall2_impl; [done|]. intros a b. apply rel_mono. unfold list_depth. lia.
Qed.

Lemma rel_items_at_depth (h : Store.heap) its (items : list (string * value)) :
  Forall2 (λ a b, a.1 = b.1 ∧ Store.rel (depth b.2) h a.2 b.2) its items →
  Store.rel_items (foldr (λ kv n, depth kv.2 `max` n)%nat 0%nat items) h its items.
Proof.
  induction 1 as [|a b its items [Hk Hp] _ IH]; cbn; constructor.
  - split; [done|]. eapply rel_mono; [|done]. lia.
  - eapply Forall2_impl; [done|]. intros a' b' [? ?]. split; [done|].
    eapply rel_mono; [|done]. lia.
Qed.

Lemma encode_rel (v : value) (h : Store.heap) :
  ∃ p h', Store.encode v h = (Ok p, h') ∧ Store.unchanged h h' ∧ Store.rel (depth v) h' p v.
Proof.
  revert h. induction v as [|b|z|f|s|s|xs IH|items IH] using value_ind'; intros h;
    try (eexists _, h; split; [done|]; split; [apply unchanged_refl|done]).
  - cbn [Store.encode]. rewrite bind_run.
    destruct (for_all_run Store.encode (λ h p x, Store.rel (depth x) h p x) xs) with (h := h)
      as (ps & h1 & -> & Hh1 & Hps).
    { intros ???? Hu. by apply rel_unchanged. }
    { done. }
    rewrite alloc_run. pose proof (fresh_lookup h1) as Hl.
    set (l := fresh (dom h1)) in *. set (h2 := <[l := Store.OList ps]> h1).
    assert (Store.unchanged h1 h2) as Hh2.
    { intros l' o Ho. unfold h2. rewrite lookup_insert_ne; [done|]. congruence. }
    exists (Store.PRef l), h2. split; [done|]. split; [by eapply unchanged_trans|].
    apply rel_view. exists (Store.SList ps). split.
    { cbn [Store.view_of]. unfold h2. by rewrite lookup_insert_eq. }
    exists (list_depth xs). split; [done|].
    eapply rels_unchanged; [done|]. by apply rels_at_depth.
  - cbn [Store.encode]. rewrite bind_run.
    destruct (for_all_run (λ kv : string * value, p ← Store.encode kv.2; mret (kv.1, p))
                (λ h (a : string * Store.pyval) (b : string * value),
                   a.1 = b.1 ∧ Store.rel (depth b.2) h a.2 b.2) items) with (h := h)
      as (its & h1 & -> & Hh1 & Hits).
    { intros ???? Hu [? ?]. split; [done|]. by eapply rel_unchanged. }
    { eapply Forall_impl; [exact IH|]. intros [k x] Hx h0. cbn [fst snd] in Hx |- *.
      rewrite bind_run. destruct (Hx h0) as (p & h' & -> & Hh' & Hp).
      rewrite ret_run. by exists (k, p), h'. }
    rewrite alloc_run. pose proof (fresh_lookup h1) as Hl.
    set (l := fresh (dom h1)) in *. set (h2 := <[l := Store.ODict its]> h1).
    assert (Store.unchanged h1 h2) as Hh2.
    { intros l' o Ho. unfold h2. rewrite lookup_insert_ne; [done|]. congruence. }
    exists (Store.PRef l), h2. split; [done|]. split; [by eapply unchanged_trans|].
    apply rel_view. exists (Store.SDict its). split.
    { cbn [Store.view_of]. unfold h2. by rewrite lookup_insert_eq. }
    eexists. split; [done|].
    eapply rel_items_unchanged; [done|]. by apply rel_items_at_depth.
Qed.

Section Refinement.
Variable unicode_nfd : string → result string.
Variable category_Mn : ascii → bool.
Variable np_cast : cell → value → result cell.

(** On a store that holds the batch [v] at [p], the store-level compiler
    answers what the value-level compiler answers on [v], and leaves the
    store it found as it was. *)
Theorem store_from_dict_refines fuel (h : Store.heap) n p v :
  (n < fuel)%nat → Store.rel n h p v →
  ∃ h', Store.from_dict unicode_nfd category_Mn np_cast fuel p h
        = (from_dict unicode_nfd category_Mn np_cast v, h') ∧
        Store.unchanged h h'.
Proof.
  intros Hn Hp.
  destruct (sim_from_dict unicode_nfd category_Mn np_cast fuel h n p v Hn Hp h
              (unchanged_refl h)) as (r & h' & E & Hh' & Hr).
  apply res_rel_eq in Hr as ->. by exists h'.
Qed.

(** The same from a tree: written into any store, a batch compiles to
    what the value-level compiler makes of it. *)
Corollary store_from_dict_encode (v : value) (h : Store.heap) :
  ∃ p h1 h2,
    Store.encode v h = (Ok p, h1) ∧
    Store.from_dict unicode_nfd category_Mn np_cast (S (depth v)) p h1
    = (from_dict unicode_nfd category_Mn np_cast v, h2) ∧
    Store.unchanged h1 h2.
Proof.
  destruct (encode_rel v h) as (p & h1 & E & _ & Hp).
  destruct (store_from_dict_refines (S (depth v)) h1 (depth v) p v) as (h2 & E2 & Hh2);
    [lia|done|].
  by exists p, h1, h2.
Qed.

End Refinement.

(** * More about the readers *)

(** ** Steps of a loop that ends well *)

Lemma for_each_steps {A St} (P : St → Prop) (f : St → A → result St) xs s s' :
  (∀ s x s', P s → f s x = Ok s' → P s') → P s → for_each f xs s = Ok s' →
  P s' ∧ ∀ x, x ∈ xs → ∃ s1 s2, P s1 ∧ f s1 x = Ok s2.
Proof.
  intros HP. revert s. induction xs as [|x xs IH]; intros s Hs H; cbn in H.
  - injection H as <-. split; [done|]. by intros x ?%elem_of_nil.
  - apply bind_Ok in H as (s1 & Hx & H). destruct (IH s1 (HP _ _ _ Hs Hx) H) as [Hs' Hxs].
    split; [done|]. intros y [->|Hy]%elem_of_cons; [by exists s, s1|by apply Hxs].
Qed.

Lemma for_enumerate_steps {A St} (P : St → Prop) (f : nat → St → A → result St)
    i0 xs s s' :
  (∀ i s x s', P s → f i s x = Ok s' → P s') → P s → for_enumerate f i0 xs s = Ok s' →
  P s' ∧ ∀ i x, xs !! i = Some x → ∃ s1 s2, P s1 ∧ f (i0 + i)%nat s1 x = Ok s2.
Proof.
  intros HP. revert i0 s. induction xs as [|x xs IH]; intros i0 s Hs H; cbn in H.
  - injection H as <-. split; [done|]. by intros i x [=].
  - apply bind_Ok in H as (s1 & Hx & H).
    destruct (IH (S i0) s1 (HP _ _ _ _ Hs Hx) H) as [Hs' Hxs].
    split; [done|]. intros [|i] y Hy; cbn in Hy.
    + injection Hy as <-. rewrite Nat.add_0_r. by exists s, s1.
    + destruct (Hxs i y Hy) as (s2 & s3 & ? & Hf). exists s2, s3. split; [done|].
      by replace (i0 + S i)%nat with (S i0 + i)%nat by lia.
Qed.

(** ** The rows keep their fields *)

Lemma np_zero_struct fields :
  ∃ fs, np_zero (struct fields) = CRec fs ∧ fs.*1 = fields.*1 ∧
        ∀ k, assoc k fs = np_zero <$> assoc k fields.
Proof.
  cbn [np_zero]. eexists. split; [done|].
  induction fields as [|[k t] r [IH1 IH2]]; [done|]. cbn. split; [by rewrite IH1|].
  intros k'. destruct (decide (k = k')); [done|apply IH2].
Qed.

Lemma update_slot_names names xs i k f x' :
  update_index (CArr xs) i (λ row, update_field row k f) = Ok x' →
  Forall (λ r, row_has_fields names r = true) xs →
  k ∈ names ∧ ∃ xs', x' = CArr xs' ∧ Forall (λ r, row_has_fields names r = true) xs'.
Proof.
  intros H Hrows. apply update_index_arr in H as (row & row' & Hi & Hrow & ->).
  apply update_field_rec in Hrow as (fs & c & c' & -> & Hc & Hf & ->).
  pose proof (Forall_lookup_1 _ _ _ _ Hrows Hi) as Hfs. cbn in Hfs.
  apply bool_decide_eq_true in Hfs.
  assert (k ∈ fs.*1) as Hk by (apply assoc_is_Some; eauto).
  split; [by rewrite <-Hfs|]. eexists. split; [done|].
  apply Forall_insert; [done|]. cbn. apply bool_decide_eq_true.
  by rewrite dict_set_keys.
Qed.

Lemma update_column_names names rows k f x' :
  update_column (CArr rows) k f = Ok x' →
  Forall (λ r, row_has_fields names r = true) rows →
  ∃ rows', x' = CArr rows' ∧ Forall (λ r, row_has_fields names r = true) rows'.
Proof.
  cbn [update_column]. intros H Hrows.
  apply bind_Ok in H as (col & Hcol & H). apply bind_Ok in H as (col' & _ & H).
  destruct col' as [| | | | | |cs]; injection H as <-; try by exists rows.
  eexists. split; [done|]. apply Forall_lookup. intros j r Hj.
  rewrite list_lookup_imap in Hj. destruct (rows !! j) as [row|] eqn:Ej; [|done].
  cbn in Hj. injection Hj as <-.
  pose proof (Forall_lookup_1 _ _ _ _ Hrows Ej) as Hrow.
  destruct (cs !! j) as [c|]; [|done].
  apply mapM_Ok_inv in Hcol as [_ Hcol]. destruct (Hcol _ _ Ej) as (y & _ & Hy).
  destruct row as [| | | | |fs|]; try done. cbn in Hrow, Hy |- *.
  apply bool_decide_eq_true in Hrow. apply bool_decide_eq_true.
  rewrite dict_set_keys; [done|]. apply assoc_is_Some.
  destruct (assoc k fs); [eauto|done].
Qed.

Section Shape.
Variable unicode_nfd : string → result string.
Variable category_Mn : ascii → bool.
Variable np_cast : cell → value → result cell.
Variable names : list string.

(** A step of the first loop keeps the rows' fields; it passes over the
    key or writes to a field the rows have. *)
Lemma copy_scalar_names self_call dict_fields list_info i xs k v x' :
  copy_scalar unicode_nfd category_Mn np_cast self_call dict_fields list_info i (CArr xs)
    (k, v) = Ok x' →
  Forall (λ r, row_has_fields names r = true) xs →
  (∃ xs', x' = CArr xs' ∧ Forall (λ r, row_has_fields names r = true) xs') ∧
  (is_Some (assoc k dict_fields) ∨ in_list_info list_info k = true ∨ k ∈ names).
Proof.
  unfold copy_scalar. intros H Hrows.
  destruct (bool_decide (is_Some (assoc k dict_fields))) eqn:Edf.
  { injection H as <-. split; [by exists xs|]. left. by apply bool_decide_eq_true in Edf. }
  destruct (in_list_info list_info k) eqn:Eli.
  { injection H as <-. split; [by exists xs|]. right. by left. }
  cbn [orb] in H.
  assert (∀ f, update_index (CArr xs) i (λ row, update_field row k f) = Ok x' →
               (∃ xs', x' = CArr xs' ∧ Forall (λ r, row_has_fields names r = true) xs') ∧
               (is_Some (assoc k dict_fields) ∨ false = true ∨ k ∈ names)) as Hupd.
  { intros f Hf. destruct (update_slot_names _ _ _ _ _ _ Hf Hrows) as [? ?]. auto. }
  destruct (isinstance v t_dict); [by eapply Hupd|].
  destruct (isinstance v t_string_types); [|by eapply Hupd].
  destruct v; try done. apply bind_Ok in H as (s' & _ & H). by eapply Hupd.
Qed.

Lemma copy_list_names self_call list_info i xs kv x' :
  copy_list np_cast self_call list_info i (CArr xs) kv = Ok x' →
  Forall (λ r, row_has_fields names r = true) xs →
  ∃ xs', x' = CArr xs' ∧ Forall (λ r, row_has_fields names r = true) xs'.
Proof.
  destruct kv as [k v]. unfold copy_list. intros H Hrows.
  destruct (in_list_info _ _); [|injection H as <-; by exists xs].
  destruct (list_info ≫= _); [|done].
  apply bind_Ok in H as (arr & _ & H).
  by destruct (update_slot_names _ _ _ _ _ _ H Hrows) as [_ ?].
Qed.

Lemma scalar_pass_names self_call dict_fields list_info dl xs x' :
  scalar_pass unicode_nfd category_Mn np_cast self_call dict_fields list_info dl (CArr xs)
  = Ok x' →
  Forall (λ r, row_has_fields names r = true) xs →
  ∃ xs', x' = CArr xs' ∧ Forall (λ r, row_has_fields names r = true) xs'.
Proof.
  intros H Hrows. unfold scalar_pass in H.
  eapply (for_enumerate_inv
            (λ x, ∃ xs', x = CArr xs' ∧ Forall (λ r, row_has_fields names r = true) xs'));
    [|by exists xs|exact H].
  intros i s sub s' _ (xs1 & -> & Hxs1) Hstep. apply bind_Ok in Hstep as (items & _ & Hstep).
  eapply (for_each_inv
            (λ x, ∃ xs', x = CArr xs' ∧ Forall (λ r, row_has_fields names r = true) xs'));
    [|by exists xs1|exact Hstep].
  intros s1 [k v] s2 _ (xs2 & -> & Hxs2) Hkv.
  by destruct (copy_scalar_names _ _ _ _ _ _ _ _ Hkv Hxs2) as [? _].
Qed.

Lemma list_pass_names self_call list_info dl xs x' :
  list_pass np_cast self_call list_info dl (CArr xs) = Ok x' →
  Forall (λ r, row_has_fields names r = true) xs →
  ∃ xs', x' = CArr xs' ∧ Forall (λ r, row_has_fields names r = true) xs'.
Proof.
  intros H Hrows. unfold list_pass in H.
  eapply (for_enumerate_inv
            (λ x, ∃ xs', x = CArr xs' ∧ Forall (λ r, row_has_fields names r = true) xs'));
    [|by exists xs|exact H].
  intros i s sub s' _ (xs1 & -> & Hxs1) Hstep. apply bind_Ok in Hstep as (items & _ & Hstep).
  eapply (for_each_inv
            (λ x, ∃ xs', x = CArr xs' ∧ Forall (λ r, row_has_fields names r = true) xs'));
    [|by exists xs1|exact Hstep].
  intros s1 kv s2 _ (xs2 & -> & Hxs2) Hkv. by eapply copy_list_names.
Qed.

Lemma dict_pass_names self_call dict_fields xs x' :
  dict_pass self_call dict_fields (CArr xs) = Ok x' →
  Forall (λ r, row_has_fields names r = true) xs →
  ∃ xs', x' = CArr xs' ∧ Forall (λ r, row_has_fields names r = true) xs'.
Proof.
  intros H Hrows. unfold dict_pass in H.
  eapply (for_each_inv
            (λ x, ∃ xs', x = CArr xs' ∧ Forall (λ r, row_has_fields names r = true) xs'));
    [|by exists xs|exact H].
  intros s1 kv s2 _ (xs2 & -> & Hxs2) Hkv. by eapply update_column_names.
Qed.

(** What a run of the copier on a batch that is not empty goes through. *)
Lemma copy_values_run fuel first rest x list_info x' :
  copy_values unicode_nfd category_Mn np_cast (S fuel) (first :: rest) x list_info = Ok x' →
  ∃ items0 dict_fields x1 x2,
    first = VDict items0 ∧
    build_dict_fields (first :: rest) items0 = Ok dict_fields ∧
    scalar_pass unicode_nfd category_Mn np_cast
      (λ dl arr, copy_values unicode_nfd category_Mn np_cast fuel dl arr None)
      dict_fields list_info (first :: rest) x = Ok x1 ∧
    list_pass np_cast
      (λ dl arr, copy_values unicode_nfd category_Mn np_cast fuel dl arr None)
      list_info (first :: rest) x1 = Ok x2 ∧
    dict_pass (λ dl arr, copy_values unicode_nfd category_Mn np_cast fuel dl arr None)
      dict_fields x2 = Ok x'.
Proof.
  cbn [copy_values]. intros H.
  apply bind_Ok in H as (items0 & Hitems0 & H).
  apply bind_Ok in H as (dict_fields & Hdf & H).
  apply bind_Ok in H as (x1 & Hsc & H).
  apply bind_Ok in H as (x2 & Hlp & Hdp).
  destruct first; try done. injection Hitems0 as ->.
  by exists items0, dict_fields, x1, x2.
Qed.

(** What a run of [from_dict] that returns goes through. *)
Lemma from_dict_run (d : value) (arr : ndarray) :
  from_dict unicode_nfd category_Mn np_cast d = Ok arr →
  ∃ items0 rest li dtypes,
    batch_of d = VDict items0 :: rest ∧
    scan_lists (list_names_of items0) (batch_of d) = Ok li ∧
    make_dtypes li items0 = Ok dtypes ∧
    match dtypes with
    | [] => arr = {| nd_dtype := float64; nd_data := CArr [] |}
    | _ :: _ =>
        ∃ x', copy_values unicode_nfd category_Mn np_cast (S (list_depth (batch_of d)))
                (batch_of d) (np_zeros (length (batch_of d)) (struct dtypes)) (Some li)
              = Ok x' ∧
              arr = {| nd_dtype := struct dtypes; nd_data := x' |}
    end.
Proof.
  unfold from_dict. fold (batch_of d). intros H.
  destruct (batch_of d) as [|first rest] eqn:Eb; [done|].
  cbn [py_getitem0 py_iter mbind result_bind] in H.
  destruct first as [| | | | | | |items0]; try done. cbn [py_items mbind result_bind] in H.
  apply bind_Ok in H as (li & Hscan & H). apply bind_Ok in H as (dtypes & Hdt & H).
  exists items0, rest, li, dtypes. split; [done|]. split; [done|]. split; [done|].
  destruct dtypes as [|dt dts]; [by injection H as <-|].
  apply bind_Ok in H as (x' & Hcopy & H). injection H as <-. by exists x'.
Qed.

Lemma copy_values_names fuel dl xs list_info x' :
  copy_values unicode_nfd category_Mn np_cast fuel dl (CArr xs) list_info = Ok x' →
  Forall (λ r, row_has_fields names r = true) xs →
  ∃ xs', x' = CArr xs' ∧ Forall (λ r, row_has_fields names r = true) xs'.
Proof.
  intros H Hrows. destruct fuel as [|fuel]; [done|].
  destruct dl as [|first rest]; [injection H as <-; by exists xs|].
  apply copy_values_run in H as (items0 & dfs & x1 & x2 & _ & _ & Hsc & Hlp & Hdp).
  apply scalar_pass_names in Hsc as (xs1 & -> & Hxs1); [|done].
  apply list_pass_names in Hlp as (xs2 & -> & Hxs2); [|done].
  by apply dict_pass_names in Hdp.
Qed.

End Shape.

(** ** Loops that write one slot per step, continued *)

Section SlotFrames.
Variable step : nat → cell → string * value → result cell.

Hypothesis step_local : ∀ i xs kv x',
  step i (CArr xs) kv = Ok x' →
  ∃ xs', x' = CArr xs' ∧ length xs' = length xs ∧
         (∀ i' k', (i', k') ≠ (i, kv.1) →
                   getitem_field (CArr xs') i' k' = getitem_field (CArr xs) i' k') ∧
         (∀ j, j ≠ i → xs' !! j = xs !! j).

(** When the step for record [i] and key [k] is taken, slot [(i, k)] is
    still as the loop found it. *)
Lemma rows_at_first dl xs x' i items k v :
  for_enumerate (λ i x sub_dict, items ← py_items sub_dict; for_each (step i) items x)
                0 dl (CArr xs) = Ok x' →
  dl !! i = Some (VDict items) → NoDup items.*1 → assoc k items = Some v →
  ∃ xa xb xs', step i (CArr xa) (k, v) = Ok (CArr xb) ∧
               getitem_field (CArr xa) i k = getitem_field (CArr xs) i k ∧
               x' = CArr xs' ∧
               getitem_field (CArr xs') i k = getitem_field (CArr xb) i k.
Proof.
  intros H Hi Hnd Hk.
  rewrite <-(take_drop_middle dl i _ Hi), for_enumerate_app in H.
  assert (length (take i dl) = i) as Hlen_take.
  { rewrite length_take. apply lookup_lt_Some in Hi. lia. }
  rewrite Hlen_take in H. cbn in H.
  apply bind_Ok in H as (x0 & H0 & H). apply bind_Ok in H as (xi & Hrow & H).
  apply (rows_local _ step_local) in H0 as (xs1 & -> & _ & Hget1 & _).
  apply assoc_Some_elem, list_elem_of_split in Hk as (it1 & it2 & ->).
  rewrite for_each_app in Hrow. apply bind_Ok in Hrow as (x2 & Hit1 & Hrow).
  cbn in Hrow. apply bind_Ok in Hrow as (x3 & Hstep & Hit2).
  rewrite fmap_app in Hnd. cbn in Hnd.
  apply NoDup_app in Hnd as (_ & Hnd1 & Hnd2). apply NoDup_cons in Hnd2 as [Hk2 _].
  apply (items_local _ step_local) in Hit1 as (xa & -> & _ & Hgeta & _).
  pose proof Hstep as Hstep'.
  apply step_local in Hstep' as (xb & -> & _ & _ & _).
  apply (items_local _ step_local) in Hit2 as (xs2 & -> & _ & Hget2 & _).
  apply (rows_local _ step_local) in H as (xs' & -> & _ & Hget' & _).
  exists xa, xb, xs'. split; [done|]. split.
  - rewrite Hgeta, Hget1; [done|right; lia|]. right. intros Hin.
    apply (Hnd1 k); [done|by left].
  - split; [done|]. rewrite Hget' by lia. apply Hget2. by right.
Qed.

(** A record that does not hold the key [k] leaves slot [(i, k)] alone. *)
Lemma rows_missing dl xs x' i items k :
  for_enumerate (λ i x sub_dict, items ← py_items sub_dict; for_each (step i) items x)
                0 dl (CArr xs) = Ok x' →
  dl !! i = Some (VDict items) → k ∉ items.*1 →
  ∃ xs', x' = CArr xs' ∧ getitem_field (CArr xs') i k = getitem_field (CArr xs) i k.
Proof.
  intros H Hi Hk.
  rewrite <-(take_drop_middle dl i _ Hi), for_enumerate_app in H.
  assert (length (take i dl) = i) as Hlen_take.
  { rewrite length_take. apply lookup_lt_Some in Hi. lia. }
  rewrite Hlen_take in H. cbn in H.
  apply bind_Ok in H as (x0 & H0 & H). apply bind_Ok in H as (xi & Hrow & H).
  apply (rows_local _ step_local) in H0 as (xs1 & -> & _ & Hget1 & _).
  apply (items_local _ step_local) in Hrow as (xs2 & -> & _ & Hget2 & _).
  apply (rows_local _ step_local) in H as (xs' & -> & _ & Hget' & _).
  exists xs'. split; [done|]. rewrite Hget', Hget2, Hget1; [done|right; lia|by right|lia].
Qed.

(** A loop whose steps pass over the key [k] leaves field [k] alone. *)
Lemma rows_frame dl xs x' k i0 :
  (∀ i x v, step i x (k, v) = Ok x) →
  for_enumerate (λ i x sub_dict, items ← py_items sub_dict; for_each (step i) items x)
                i0 dl (CArr xs) = Ok x' →
  ∃ xs', x' = CArr xs' ∧
         ∀ i, getitem_field (CArr xs') i k = getitem_field (CArr xs) i k.
Proof.
  intros Hskip H.
  eapply (for_enumerate_inv
            (λ x, ∃ xs', x = CArr xs' ∧
                         ∀ i, getitem_field (CArr xs') i k = getitem_field (CArr xs) i k));
    [|by exists xs|exact H].
  intros j s sub s' _ (xs1 & -> & Hxs1) Hsub. apply bind_Ok in Hsub as (items & _ & Hsub).
  eapply (for_each_inv
            (λ x, ∃ xs', x = CArr xs' ∧
                         ∀ i, getitem_field (CArr xs') i k = getitem_field (CArr xs) i k));
    [|by exists xs1|exact Hsub].
  intros s1 [k1 v1] s2 _ (xs2 & -> & Hxs2) Hkv.
  destruct (decide (k1 = k)) as [->|Hne].
  - rewrite Hskip in Hkv. injection Hkv as <-. by exists xs2.
  - apply step_local in Hkv as (xs3 & -> & _ & Hget3 & _). exists xs3. split; [done|].
    intros i. rewrite Hget3; [done|]. cbn. congruence.
Qed.

End SlotFrames.

Lemma np_zeros_names n dtypes :
  Forall (λ r, row_has_fields dtypes.*1 r = true) (replicate n (np_zero (struct dtypes))).
Proof.
  apply Forall_replicate. destruct (np_zero_struct dtypes) as (fs & -> & Hfs & _).
  cbn. by apply bool_decide_eq_true.
Qed.

Lemma np_zeros_getitem_field n dtypes i k t :
  (i < n)%nat → assoc k dtypes = Some t →
  getitem_field (np_zeros n (struct dtypes)) i k = Ok (np_zero t).
Proof.
  intros Hi Hk. unfold np_zeros. rewrite getitem_field_arr, lookup_replicate_2 by done.
  destruct (np_zero_struct dtypes) as (fs & -> & _ & Hfs). cbn.
  by rewrite Hfs, Hk.
Qed.

Section Conformance.
Variable unicode_nfd : string → result string.
Variable category_Mn : ascii → bool.
Variable np_cast : cell → value → result cell.

(** The rows of a compiled array are records with the fields of the
    schema, in its order, one per input record. *)
Lemma from_dict_rows (d : value) (arr : ndarray) dtypes :
  from_dict unicode_nfd category_Mn np_cast d = Ok arr →
  nd_dtype arr = struct dtypes →
  ∃ rows, nd_data arr = CArr rows ∧ length rows = length (batch_of d) ∧
          Forall (λ r, row_has_fields dtypes.*1 r = true) rows.
Proof.
  intros H Ht. apply from_dict_run in H as (items0 & rest & li & dts & Hb & Hscan & Hdt & H).
  destruct dts as [|dt dts]; [by subst arr|]. destruct H as (x' & Hcopy & ->).
  cbn in Ht. injection Ht as <-. cbn [nd_data].
  pose proof Hcopy as Hcopy'.
  apply copy_values_rows in Hcopy' as (xs' & -> & Hlen & _).
  apply (copy_values_names _ _ _ ((dt :: dts).*1)) in Hcopy as (xs'' & [= <-] & Hrows);
    [|apply np_zeros_names].
  exists xs'. split; [done|]. split; [|done]. by rewrite Hlen, length_replicate.
Qed.

Lemma in_list_info_Some (li : gmap string list_info_entry) k :
  in_list_info (Some li) k = bool_decide (is_Some (li !! k)).
Proof.
  unfold in_list_info. destruct (li !! k) as [e|] eqn:E.
  - rewrite bool_decide_eq_true_2; [done|]. intros ->. by rewrite lookup_empty in E.
  - rewrite (bool_decide_eq_false_2 (is_Some None)) by by intros [??].
    apply andb_false_r.
Qed.

End Conformance.

Section Keys.
Variable unicode_nfd : string → result string.
Variable category_Mn : ascii → bool.
Variable np_cast : cell → value → result cell.

(** X1: when [from_dict] returns for a batch whose first record has a
    field, every element of the batch is a record (a dict), and each of
    its keys is a key of the first record: a key the schema does not know
    makes the compiler raise. *)
Theorem from_dict_keys_known (d : value) (arr : ndarray) kv items0 rest entry :
  from_dict unicode_nfd category_Mn np_cast d = Ok arr →
  batch_of d = VDict (kv :: items0) :: rest → entry ∈ batch_of d →
  ∃ items, entry = VDict items ∧ items.*1 ⊆ (kv :: items0).*1.
Proof.
  intros H Hb Hentry.
  apply from_dict_run in H as (its0 & rest' & li & dtypes & Hb' & Hscan & Hdt & H).
  rewrite Hb in Hb'. injection Hb' as <- <-.
  pose proof (make_dtypes_names _ _ _ Hdt) as Hnames.
  destruct dtypes as [|dt dts]; [done|]. destruct H as (x' & Hcopy & _).
  rewrite Hb in Hcopy, Hscan.
  apply copy_values_run in Hcopy as (its & dfs & x1 & x2 & [= <-] & Hdf & Hsc & _ & _).
  unfold scalar_pass, np_zeros in Hsc.
  apply (for_enumerate_steps
           (λ x, ∃ xs, x = CArr xs ∧
                       Forall (λ r, row_has_fields (dt :: dts).*1 r = true) xs)) in Hsc
    as [_ Hsteps].
  - rewrite Hb in Hentry. apply list_elem_of_lookup in Hentry as [i Hi].
    destruct (Hsteps i entry Hi) as (s1 & s2 & (xs1 & -> & Hxs1) & Hrow).
    apply bind_Ok in Hrow as (items & Hitems & Hrow).
    destruct entry as [| | | | | | |items']; try done. injection Hitems as ->.
    exists items. split; [done|]. intros k Hk.
    apply list_elem_of_fmap in Hk as ([k' v] & -> & Hkv). cbn [fst].
    apply (for_each_steps
             (λ x, ∃ xs, x = CArr xs ∧
                         Forall (λ r, row_has_fields (dt :: dts).*1 r = true) xs)) in Hrow
      as [_ Hitems].
    + destruct (Hitems _ Hkv) as (s3 & s4 & (xs3 & -> & Hxs3) & Hstep).
      apply (copy_scalar_names _ _ _ (dt :: dts).*1) in Hstep as [_ Hcase]; [|done].
      rewrite <-Hnames. destruct Hcase as [[col Hcol]|[Hli|?]]; [| |done].
      * apply assoc_Some_elem in Hcol.
        destruct (build_dict_fields_spec _ _ _ _ _ Hdf Hcol) as (_ & v0 & Hv0 & _).
        rewrite Hnames. apply list_elem_of_fmap. by exists (k', v0).
      * rewrite in_list_info_Some in Hli. apply bool_decide_eq_true in Hli as [e He].
        destruct (scan_lists_spec _ _ _ _ _ Hscan He) as [Hin _].
        apply list_names_of_elem in Hin as (v0 & Hv0 & _).
        rewrite Hnames. apply list_elem_of_fmap. by exists (k', v0).
    + intros s x s' (xs & -> & Hxs) Hstep. destruct x as [k0 v0].
      by apply (copy_scalar_names _ _ _ (dt :: dts).*1) in Hstep as [? _].
    + by exists xs1.
  - intros i s x s' (xs & -> & Hxs) Hrow. apply bind_Ok in Hrow as (items & _ & Hrow).
    eapply (for_each_inv
              (λ x, ∃ xs, x = CArr xs ∧
                          Forall (λ r, row_has_fields (dt :: dts).*1 r = true) xs));
      [|by exists xs|exact Hrow].
    intros s1 [k0 v0] s2 _ (xs1 & -> & Hxs1) Hstep.
    by apply (copy_scalar_names _ _ _ (dt :: dts).*1) in Hstep as [? _].
  - eexists. split; [done|]. apply np_zeros_names.
Qed.

(** X2: a key under which the first record holds a list or a dict is
    required of every record: when [from_dict] returns, each record of the
    batch holds a value under it. *)
Theorem from_dict_container_keys_required (d : value) (arr : ndarray) items0 rest
    k v0 entry :
  from_dict unicode_nfd category_Mn np_cast d = Ok arr →
  batch_of d = VDict items0 :: rest → (k, v0) ∈ items0 →
  isinstance v0 t_list || isinstance v0 t_dict = true →
  entry ∈ batch_of d →
  ∃ v, py_getitem entry k = Ok v.
Proof.
  intros H Hb Hk Hv0 Hentry.
  apply from_dict_run in H as (its0 & rest' & li & dtypes & Hb' & Hscan & Hdt & H).
  rewrite Hb in Hb'. injection Hb' as <- <-.
  apply orb_true_iff in Hv0 as [Hlist|Hdict].
  - (* the capacity scan reads [entry[k]] *)
    unfold scan_lists in Hscan.
    apply (for_each_steps (λ _, True)) in Hscan as [_ Hsteps]; [|done..].
    destruct (Hsteps _ Hentry) as (li1 & li2 & _ & Hnames).
    apply (for_each_steps (λ _, True)) in Hnames as [_ Hnames]; [|done..].
    destruct (Hnames k) as (li3 & li4 & _ & Hfield).
    { apply list_names_of_elem. by exists v0. }
    unfold scan_field in Hfield. apply bind_Ok in Hfield as (v & Hv & _). by exists v.
  - (* the column of a nested record reads [inner_dict[k]] *)
    pose proof (make_dtypes_names _ _ _ Hdt) as Hnames.
    destruct dtypes as [|dt dts].
    { destruct items0; [by apply elem_of_nil in Hk|done]. }
    destruct H as (x' & Hcopy & _). rewrite Hb in Hcopy.
    apply copy_values_run in Hcopy as (its & dfs & x1 & x2 & [= <-] & Hdf & _).
    unfold build_dict_fields in Hdf.
    apply (for_each_steps (λ _, True)) in Hdf as [_ Hsteps]; [|done..].
    destruct (Hsteps _ Hk) as (s1 & s2 & _ & Hstep). cbn [fst snd] in Hstep.
    rewrite Hdict in Hstep. apply bind_Ok in Hstep as (col & Hcol & _).
    apply mapM_Ok_inv in Hcol as [_ Hcol].
    rewrite Hb in Hentry. apply list_elem_of_lookup in Hentry as [i Hi].
    destruct (Hcol _ _ Hi) as (y & _ & Hy). by exists y.
Qed.

(** Where the first loop of the copier leaves the slot of a scalar
    field. *)
Lemma scalar_pass_frame (d : value) (arr : ndarray) k t :
  from_dict unicode_nfd category_Mn np_cast d = Ok arr →
  forallb unique_keys (batch_of d) = true →
  field_dtype arr k = Some t → scalar_dtype t = true →
  ∃ dict_fields li dtypes x1 fuel,
    scalar_pass unicode_nfd category_Mn np_cast
      (λ dl arr, copy_values unicode_nfd category_Mn np_cast fuel dl arr None)
      dict_fields (Some li) (batch_of d)
      (np_zeros (length (batch_of d)) (struct dtypes)) = Ok x1 ∧
    assoc k dtypes = Some t ∧ assoc k dict_fields = None ∧ li !! k = None ∧
    ∀ i, getitem_field (nd_data arr) i k = getitem_field x1 i k.
Proof.
  intros H Huniq Hk Ht.
  apply from_dict_run in H as (items0 & rest & li & dtypes & Hb & Hscan & Hdt & H).
  destruct dtypes as [|dt dts]; [by subst arr|]. destruct H as (x' & Hcopy & ->).
  cbn [field_dtype nd_dtype nd_data] in Hk |- *.
  pose proof (make_dtypes_spec _ _ _ _ _ Hdt Hk) as Hspec.
  destruct (li !! k) as [e|] eqn:Eli; [by subst t|].
  destruct Hspec as (v & Hv & Hvt).
  assert (NoDup items0.*1) as Hnd0.
  { rewrite Hb in Huniq. cbn in Huniq. apply andb_true_iff in Huniq as [Hu _].
    by apply bool_decide_eq_true in Hu. }
  rewrite Hb in Hcopy.
  apply copy_values_run in Hcopy as (its & dfs & x1 & x2 & [= <-] & Hdf & Hsc & Hlp & Hdp).
  assert (assoc k dfs = None) as Hdfs.
  { destruct (assoc k dfs) as [col|] eqn:E; [|done]. apply assoc_Some_elem in E.
    destruct (build_dict_fields_spec _ _ _ _ _ Hdf E) as (_ & v' & Hv' & Hd).
    apply (assoc_NoDup_elem _ _ _ Hnd0) in Hv, Hv'. rewrite Hv in Hv'.
    injection Hv' as <-. destruct v; try done. cbn in Hvt.
    apply fmap_Ok in Hvt as (? & _ & ->). done. }
  rewrite Hb. exists dfs, li, (dt :: dts), x1, (list_depth (VDict items0 :: rest)).
  split; [done|]. split; [done|]. split; [done|]. split; [done|].
  pose proof Hsc as Hsc'. unfold scalar_pass in Hsc'.
  apply (rows_local _ (copy_scalar_local _ _ _ _ _ _)) in Hsc' as (xs1 & -> & _).
  unfold list_pass in Hlp.
  apply (rows_frame _ (copy_list_local _ _ _) _ _ _ k) in Hlp as (xs2 & -> & Hget2).
  - apply dict_pass_frame with (k := k) in Hdp as (xs' & -> & _ & Hget').
    + intros i. by rewrite Hget', Hget2.
    + intros [k' col] Hin. cbn [fst]. intros ->.
      apply assoc_None in Hdfs. apply Hdfs. apply list_elem_of_fmap. by exists (k, col).
  - intros i x v1. unfold copy_list. by rewrite in_list_info_Some, Eli.
Qed.

End Keys.

Section ScalarFields.
Variable unicode_nfd : string → result string.
Variable category_Mn : ascii → bool.
Variable np_cast : cell → value → result cell.

(** The slot of a scalar field: what the first loop stored there for the
    record, or the zero of the field type when the record lacks the key. *)
Lemma scalar_slot (d : value) (arr : ndarray) k t i items :
  from_dict unicode_nfd category_Mn np_cast d = Ok arr →
  forallb unique_keys (batch_of d) = true →
  field_dtype arr k = Some t → scalar_dtype t = true →
  batch_of d !! i = Some (VDict items) →
  match assoc k items with
  | Some v =>
      isinstance v t_dict = false →
      ∃ c, stored_scalar unicode_nfd category_Mn np_cast t v = Ok c ∧
           getitem_field (nd_data arr) i k = Ok c
  | None => getitem_field (nd_data arr) i k = Ok (np_zero t)
  end.
Proof.
  intros H Huniq Hk Ht Hi.
  destruct (scalar_pass_frame _ _ _ _ _ _ _ H Huniq Hk Ht)
    as (dfs & li & dtypes & x1 & fuel & Hsc & Hkt & Hdfs & Hli & Hget).
  assert (i < length (batch_of d))%nat as Hlt by by eapply lookup_lt_Some.
  assert (NoDup items.*1) as Hnd.
  { rewrite forallb_forall in Huniq.
    apply list_elem_of_lookup_2, list_elem_of_In, Huniq in Hi.
    by apply bool_decide_eq_true in Hi. }
  unfold scalar_pass, np_zeros in Hsc.
  destruct (assoc k items) as [v|] eqn:Ev.
  - intros Hv.
    destruct (rows_at_first _ (copy_scalar_local _ _ _ _ _ _) _ _ _ _ _ _ _ Hsc Hi Hnd Ev)
      as (xa & xb & xs' & Hstep & Hfirst & -> & Hlast).
    fold (np_zeros (length (batch_of d)) (struct dtypes)) in Hfirst.
    rewrite (np_zeros_getitem_field _ _ _ _ t) in Hfirst by done.
    rewrite Hget, Hlast. unfold copy_scalar in Hstep.
    rewrite Hdfs, in_list_info_Some, Hli, Hv in Hstep.
    rewrite (bool_decide_eq_false_2 (is_Some None)) in Hstep by by intros [??].
    rewrite (bool_decide_eq_false_2 (is_Some None)) in Hstep by by intros [??].
    cbn [orb] in Hstep. unfold stored_scalar.
    destruct (isinstance v t_string_types) eqn:Es.
    + destruct v; try done. apply bind_Ok in Hstep as (s' & Hs' & Hstep).
      apply update_slot_arr in Hstep as (xs2 & c & c' & [= <-] & _ & Hc & Hf & Hc' & _).
      rewrite Hfirst in Hc. injection Hc as <-. rewrite Hs'. cbn. by exists c'.
    + apply update_slot_arr in Hstep as (xs2 & c & c' & [= <-] & _ & Hc & Hf & Hc' & _).
      rewrite Hfirst in Hc. injection Hc as <-. exists c'. split; [|done].
      by destruct v.
  - apply assoc_None in Ev.
    destruct (rows_missing _ (copy_scalar_local _ _ _ _ _ _) _ _ _ _ _ _ Hsc Hi Ev)
      as (xs' & -> & Hsame).
    fold (np_zeros (length (batch_of d)) (struct dtypes)) in Hsame.
    by rewrite Hget, Hsame, (np_zeros_getitem_field _ _ _ _ t).
Qed.


(** X4: numbers are stored as they are: an integer in an integer field
    lies in the range of [int64] (or the compiler has raised), a boolean
    becomes 1 or 0, and a float in a float field is kept bit for bit. *)
Theorem from_dict_number_field (d : value) (arr : ndarray) k i items v :
  from_dict unicode_nfd category_Mn np_cast d = Ok arr →
  forallb unique_keys (batch_of d) = true →
  batch_of d !! i = Some (VDict items) → assoc k items = Some v →
  match field_dtype arr k, v with
  | Some int64, VInt z =>
      (int64_min ≤ z ≤ int64_max)%Z ∧ getitem_field (nd_data arr) i k = Ok (CInt z)
  | Some int64, VBool b =>
      getitem_field (nd_data arr) i k = Ok (CInt (if b then 1 else 0))
  | Some float64, VFloat f => getitem_field (nd_data arr) i k = Ok (CFloat f)
  | _, _ => True
  end.
Proof.
  intros H Huniq Hi Hv.
  destruct (field_dtype arr k) as [t|] eqn:Hk; [|done].
  destruct t; try done.
  - pose proof (scalar_slot _ _ _ _ _ _ H Huniq Hk eq_refl Hi) as Hslot.
    rewrite Hv in Hslot. destruct v; try done.
    + destruct (Hslot eq_refl) as (c & Hc & Hget). cbn in Hc. by injection Hc as <-.
    + destruct (Hslot eq_refl) as (c & Hc & Hget). cbn in Hc.
      destruct (decide _) as [Hr|]; [|done]. by injection Hc as <-.
  - pose proof (scalar_slot _ _ _ _ _ _ H Huniq Hk eq_refl Hi) as Hslot.
    rewrite Hv in Hslot. destruct v; try done.
    destruct (Hslot eq_refl) as (c & Hc & Hget). cbn in Hc. by injection Hc as <-.
Qed.

(** X5: a record that lacks a scalar key of the first record is no error:
    its slot keeps the zero of the field type ([0], [0.0] or the empty
    text). *)
Theorem from_dict_missing_scalar_zero (d : value) (arr : ndarray) k t i items :
  from_dict unicode_nfd category_Mn np_cast d = Ok arr →
  forallb unique_keys (batch_of d) = true →
  field_dtype arr k = Some t → scalar_dtype t = true →
  batch_of d !! i = Some (VDict items) → assoc k items = None →
  getitem_field (nd_data arr) i k = Ok (np_zero t).
Proof.
  intros H Huniq Hk Ht Hi Hnone.
  pose proof (scalar_slot _ _ _ _ _ _ H Huniq Hk Ht Hi) as Hslot.
  by rewrite Hnone in Hslot.
Qed.

End ScalarFields.

(** ** The element type of a list field *)

Lemma scan_field_dtype entry (li li' : gmap string list_info_entry) k :
  scan_field entry li k = Ok li' →
  (∀ k', k' ≠ k → li' !! k' = li !! k') ∧
  (dtype_truthy (li_dtype (li_get li k)) = true ∨ seq_len entry k = 0%nat →
   li_dtype (li_get li' k) = li_dtype (li_get li k)) ∧
  (dtype_truthy (li_dtype (li_get li k)) = false → (0 < seq_len entry k)%nat →
   ∃ t, list_element_dtype entry k = Ok t ∧ li_dtype (li_get li' k) = Some t).
Proof.
  unfold scan_field, seq_len, list_element_dtype. intros H.
  apply bind_Ok in H as (v & Hv & H). apply bind_Ok in H as (n & Hn & H).
  rewrite Hv. cbn [mbind result_bind]. rewrite Hn.
  destruct (dtype_truthy (li_dtype (li_get li k))) eqn:Et; cbn [negb andb] in H.
  - injection H as <-. split; [intros; by rewrite lookup_insert_ne|].
    rewrite lookup_insert_eq. split; [done|]. done.
  - destruct (0 <? n)%nat eqn:En.
    + apply bind_Ok in H as (v0 & Hv0 & H). apply bind_Ok in H as (t & Ht & H).
      injection H as <-. split; [intros; by rewrite lookup_insert_ne|].
      rewrite lookup_insert_eq. apply Nat.ltb_lt in En. split.
      * intros [?|E0]; [done|lia].
      * intros _ _. exists t. split; [|done]. rewrite Hv0. cbn [mbind result_bind]. exact Ht.
    + injection H as <-. split; [intros; by rewrite lookup_insert_ne|].
      rewrite lookup_insert_eq. split; [done|].
      apply Nat.ltb_ge in En. intros _ ?. lia.
Qed.


(** Over one record the element type of [k] is kept when it is set, or
    when the record has no element to show. *)
Lemma scan_names_dtype_kept entry names (li li' : gmap string list_info_entry) k :
  for_each (scan_field entry) names li = Ok li' →
  dtype_truthy (li_dtype (li_get li k)) = true ∨ seq_len entry k = 0%nat →
  li_dtype (li_get li' k) = li_dtype (li_get li k).
Proof.
  revert li. induction names as [|k0 names IH]; intros li H Hc; cbn in H.
  - by injection H as <-.
  - apply bind_Ok in H as (li1 & H1 & H).
    apply scan_field_dtype in H1 as (Hother & Hkept & _).
    assert (li_dtype (li_get li1 k) = li_dtype (li_get li k)) as E.
    { destruct (decide (k0 = k)) as [->|Hne]; [by apply Hkept|]. by rewrite Hother. }
    rewrite <-E. apply (IH li1); [done|]. by rewrite E.
Qed.


Lemma scan_lists_dtype_kept names d (li li' : gmap string list_info_entry) k :
  for_each (λ list_info entry, for_each (scan_field entry) names list_info) d li = Ok li' →
  dtype_truthy (li_dtype (li_get li k)) = true ∨ (∀ e, e ∈ d → seq_len e k = 0%nat) →
  li_dtype (li_get li' k) = li_dtype (li_get li k).
Proof.
  revert li. induction d as [|entry d IH]; intros li H Hc; cbn in H.
  - by injection H as <-.
  - apply bind_Ok in H as (li1 & H1 & H).
    assert (li_dtype (li_get li1 k) = li_dtype (li_get li k)) as E.
    { apply (scan_names_dtype_kept _ _ _ _ _ H1).
      destruct Hc as [?|Hc]; [by left|]. right. apply Hc. by left. }
    rewrite <-E. apply (IH li1); [done|]. rewrite E.
    destruct Hc as [?|Hc]; [by left|]. right. intros e He. apply Hc. by right.
Qed.

Section ElementType.
Variable unicode_nfd : string → result string.
Variable category_Mn : ascii → bool.
Variable np_cast : cell → value → result cell.


(** X7: a list field whose sequence is empty in every record becomes an
    array of [float64] of capacity zero. *)
Theorem from_dict_empty_lists_float (d : value) (arr : ndarray) k t cap :
  from_dict unicode_nfd category_Mn np_cast d = Ok arr →
  field_dtype arr k = Some (subarray t cap) →
  (∀ e, e ∈ batch_of d → seq_len e k = 0%nat) →
  t = float64 ∧ cap = 0%nat.
Proof.
  intros H Hk Hall.
  apply from_dict_run in H as (items0 & rest & li & dtypes & _ & Hscan & Hdt & H).
  destruct dtypes as [|dt dts]; [by subst arr|]. destruct H as (x' & _ & ->).
  cbn [field_dtype nd_dtype] in Hk.
  destruct (make_dtypes_subarray _ _ _ _ _ _ Hdt Hk) as (e & Hli & -> & ->).
  destruct (scan_lists_spec _ _ _ _ _ Hscan Hli) as [_ Hmax].
  unfold scan_lists in Hscan.
  apply scan_lists_dtype_kept with (k := k) in Hscan; [|by right].
  rewrite Hli, lookup_empty in Hscan. cbn in Hscan. rewrite Hscan. split; [done|].
  rewrite Hmax. clear -Hall. unfold max_seq_len.
  induction (batch_of d) as [|e0 l IH]; cbn [foldr]; [done|].
  rewrite (Hall e0) by by left. rewrite IH; [done|]. intros e He. apply Hall. by right.
Qed.

End ElementType.

(** ** The type classifier and the schema compiler *)

Lemma uses_int8_struct fields :
  uses_int8 (struct fields) = false ↔
  Forall (λ f : string * dtype, uses_int8 f.2 = false) fields.
Proof.
  cbn [uses_int8]. induction fields as [|[k t] r IH]; [by split|].
  rewrite Forall_cons, orb_false_iff, IH. done.
Qed.

Lemma mkdtype_fields_Forall2 items fields :
  mkdtype_fields items = Ok fields ↔
  Forall2 (λ (kv : string * value) (f : string * dtype),
             f.1 = kv.1 ∧ get_element_dtype kv.2 = Ok f.2) items fields.
Proof.
  revert fields. induction items as [|[k v] r IH]; intros fields; cbn.
  - split; [intros [= <-]; constructor|by intros ->%Forall2_nil_inv_l].
  - split.
    + intros H. apply bind_Ok in H as (t & Ht & H). apply bind_Ok in H as (ts & Hts & H).
      injection H as <-. constructor; [done|by apply IH].
    + intros (f & fs & [Hk Hf] & Hr & ->)%Forall2_cons_inv_l. destruct f as [k' t].
      cbn in Hk, Hf. subst k'. rewrite Hf. cbn. apply IH in Hr. by rewrite Hr.
Qed.

Lemma get_element_dtype_no_int8 (v : value) (t : dtype) :
  get_element_dtype v = Ok t → uses_int8 t = false.
Proof.
  revert t. induction v as [|b|z|f|s|s|xs IH|items IH] using value_ind'; intros t H;
    try (cbn in H; by injection H as <-); try done.
  - destruct xs as [|x xs]; [done|]. apply Forall_cons in IH as [IH _]. by apply IH.
  - rewrite get_element_dtype_dict in H. cbn in H.
    apply fmap_Ok in H as (fields & Hf & ->). apply uses_int8_struct.
    apply mkdtype_fields_Forall2 in Hf.
    induction Hf as [|[k v] [k' t'] items fields [_ Hv] _ IHf]; [done|].
    apply Forall_cons in IH as [IHv IH]. constructor; [by apply IHv|by apply IHf].
Qed.

(** Where the schema compiler succeeds the classifier agrees with it. *)
Lemma mkdtype_get_element_dtype (v : value) (t : dtype) :
  mkdtype v = Ok t → get_element_dtype v = Ok t.
Proof.
  revert t. induction v as [|b|z|f|s|s|xs IH|items _] using value_ind'; intros t H;
    try done.
  destruct xs as [|x xs]; [done|]. apply Forall_cons in IH as [IH _]. by apply IH.
Qed.

(** X8: the classifier and the schema compiler never answer with the
    boolean type ['b'], at any depth of a record type: a boolean is always
    typed as an integer. *)
Theorem classifier_never_bool (v : value) (t : dtype) :
  get_element_dtype v = Ok t ∨ mkdtype v = Ok t → uses_int8 t = false.
Proof.
  intros [H|H]; [|apply mkdtype_get_element_dtype in H]; by eapply get_element_dtype_no_int8.
Qed.

(** X9: the capacity scan types the elements of a sequence in two ways,
    [mkdtype] of the first element when that is a record and the
    classifier on the sequence otherwise; both are the classifier on the
    sequence, with the same type or the same exception. *)
Theorem scan_element_type_branches_agree (entry : value) (k : string) :
  list_element_dtype entry k
  = (v ← py_getitem entry k; _ ← py_getitem0 v; get_element_dtype v).
Proof.
  unfold list_element_dtype. destruct (py_getitem entry k) as [v| |]; [|done..].
  cbn [mbind result_bind]. destruct (py_getitem0 v) as [v0| |] eqn:E0; [|done..].
  cbn [mbind result_bind]. destruct (isinstance v0 t_dict) eqn:Ed; [|done].
  destruct (py_getitem0_dict _ _ E0 Ed) as (xs & ->).
  destruct xs as [|x xs]; [done|]. cbn in E0. injection E0 as ->.
  destruct v0; try done.
Qed.

Section NeverBool.
Variable unicode_nfd : string → result string.
Variable category_Mn : ascii → bool.
Variable np_cast : cell → value → result cell.

Lemma scan_lists_no_int8 names d (li : gmap string list_info_entry) k e t :
  scan_lists names d = Ok li → li !! k = Some e → li_dtype e = Some t →
  uses_int8 t = false.
Proof.
  unfold scan_lists. intros H.
  enough (∀ k e t, li !! k = Some e → li_dtype e = Some t → uses_int8 t = false) as Hall
    by apply Hall.
  eapply (for_each_inv
            (λ li : gmap string list_info_entry,
               ∀ k e t, li !! k = Some e → li_dtype e = Some t → uses_int8 t = false));
    [|by intros ??? ?%lookup_empty_Some|exact H].
  intros li1 entry li2 _ Hli1 Hentry.
  eapply (for_each_inv
            (λ li : gmap string list_info_entry,
               ∀ k e t, li !! k = Some e → li_dtype e = Some t → uses_int8 t = false));
    [|exact Hli1|exact Hentry].
  intros li3 k0 li4 _ Hli3 Hstep k1 e1 t1 Hk1 Ht1.
  unfold scan_field in Hstep.
  apply bind_Ok in Hstep as (v & Hv & Hstep). apply bind_Ok in Hstep as (n & Hn & Hstep).
  destruct (decide (k0 = k1)) as [->|Hne].
  - destruct (_ && _).
    + apply bind_Ok in Hstep as (v0 & Hv0 & Hstep).
      apply bind_Ok in Hstep as (t0 & Ht0 & Hstep). injection Hstep as <-.
      rewrite lookup_insert_eq in Hk1. injection Hk1 as <-. cbn in Ht1.
      injection Ht1 as <-.
      destruct (isinstance v0 t_dict);
        [apply mkdtype_get_element_dtype in Ht0|]; by eapply get_element_dtype_no_int8.
    + injection Hstep as <-. rewrite lookup_insert_eq in Hk1. injection Hk1 as <-.
      cbn in Ht1. destruct (li3 !! k1) as [e3|] eqn:E3; [|done]. by eapply Hli3.
  - assert (li4 !! k1 = li3 !! k1) as E.
    { destruct (_ && _).
      + apply bind_Ok in Hstep as (v0 & Hv0 & Hstep).
        apply bind_Ok in Hstep as (t0 & Ht0 & Hstep). injection Hstep as <-.
        by rewrite lookup_insert_ne.
      + injection Hstep as <-. by rewrite lookup_insert_ne. }
    rewrite E in Hk1. by eapply Hli3.
Qed.

(** X10: no field of a compiled array has the boolean type, whatever the
    records hold: [from_dict] types every boolean as [int64]. *)
Theorem from_dict_never_bool (d : value) (arr : ndarray) :
  from_dict unicode_nfd category_Mn np_cast d = Ok arr → uses_int8 (nd_dtype arr) = false.
Proof.
  intros H. apply from_dict_run in H as (items0 & rest & li & dtypes & _ & Hscan & Hdt & H).
  destruct dtypes as [|dt dts]; [by subst arr|]. destruct H as (x' & _ & ->).
  cbn [nd_dtype]. apply uses_int8_struct. unfold make_dtypes in Hdt.
  eapply (for_each_inv (λ acc : list (string * dtype),
                          Forall (λ f : string * dtype, uses_int8 f.2 = false) acc));
    [|constructor|exact Hdt].
  intros acc [k v] acc' _ Hacc Hstep. cbn [fst snd] in Hstep.
  destruct (li !! k) as [e|] eqn:Ek.
  - injection Hstep as <-. apply Forall_app. split; [done|]. constructor; [|done]. cbn.
    destruct (li_dtype e) as [t|] eqn:Et; [|done]. cbn.
    by eapply scan_lists_no_int8.
  - apply bind_Ok in Hstep as (t & Ht & Hstep). injection Hstep as <-.
    apply Forall_app. split; [done|]. constructor; [|done]. cbn.
    by eapply get_element_dtype_no_int8.
Qed.

End NeverBool.

(** ** Accent stripping, continued *)

Lemma chars_of_chars (cs : list ascii) : chars (of_chars cs) = cs.
Proof. induction cs as [|c cs IH]; cbn; [done|]. by rewrite IH. Qed.

Lemma of_chars_chars (s : string) : of_chars (chars s) = s.
Proof. induction s as [|c s IH]; cbn; [done|]. by rewrite IH. Qed.

Lemma filter_sublist {A} (f : A → bool) (l : list A) : sublist (List.filter f l) l.
Proof.
  induction l as [|x l IH]; cbn; [constructor|].
  destruct (f x); [by apply sublist_skip|by apply sublist_cons].
Qed.

Lemma filter_Forall {A} (f : A → bool) (l : list A) :
  Forall (λ x, f x = true) (List.filter f l).
Proof.
  induction l as [|x l IH]; cbn; [constructor|].
  destruct (f x) eqn:E; [by constructor|done].
Qed.


(** The class of the fallback pattern ends at [z]: it holds no character
    outside ASCII. *)
Lemma fallback_class_ascii (c : ascii) :
  in_class fallback_class c = true → (N_of_ascii c ≤ 122)%N.
Proof.
  unfold in_class, fallback_class. cbn [existsb in_item].
  replace (N_of_ascii "Z") with 90%N by reflexivity.
  replace (N_of_ascii "z") with 122%N by reflexivity.
  replace (N_of_ascii "9") with 57%N by reflexivity.
  replace (N_of_ascii "_") with 95%N by reflexivity.
  rewrite !orb_true_iff, !andb_true_iff, !N.leb_le, bool_decide_eq_true.
  intros [[_ ?]|[[_ ?]|[[_ ?]|[[_ ?]|[->|?]]]]]; [lia|lia|lia|lia|by vm_compute|done].
Qed.

Section StripAccentsMore.
Variable unicode_nfd : string → result string.
Variable category_Mn : ascii → bool.


(** X12: when normalising raises [UnicodeError], [strip_accents] does not
    raise: it returns the characters of the text that the fallback pattern
    keeps, in order, and these are ASCII characters up to [z]; every byte
    above, so every byte of an accented letter, is gone. *)
Theorem strip_accents_fallback_ascii (s : string) :
  unicode_nfd s = Raise UnicodeError →
  ∃ r, strip_accents unicode_nfd category_Mn s = Ok r ∧
       sublist (chars r) (chars s) ∧
       Forall (λ c, (N_of_ascii c ≤ 122)%N) (chars r) ∧
       ∀ c, c ∈ chars s → (32 ≤ N_of_ascii c ≤ 95)%N → c ∈ chars r.
Proof.
  intros H. eexists. split; [by apply strip_accents_fallback|].
  unfold re_sub_not_in_class. rewrite chars_of_chars. split; [|split].
  - apply filter_sublist.
  - eapply Forall_impl; [apply filter_Forall|]. apply fallback_class_ascii.
  - intros c Hc Hrange. apply list_elem_of_In, filter_In.
    split; [by apply list_elem_of_In|]. by apply fallback_class_range.
Qed.

End StripAccentsMore.

(** ** The sanitizer, continued *)









Section SanitizeCompiled.
Variable unicode_nfd : string → result string.
Variable category_Mn : ascii → bool.
Variable np_cast : cell → value → result cell.

(** What [from_dict] compiles from records with distinct keys, the first
    of which has a field, is a structured array. *)
Lemma from_dict_structured (d : value) (arr : ndarray) kv items0 rest :
  from_dict unicode_nfd category_Mn np_cast d = Ok arr →
  batch_of d = VDict (kv :: items0) :: rest → NoDup (kv :: items0).*1 →
  structured arr = true ∧ dtype_names (nd_dtype arr) = (kv :: items0).*1 ∧
  np_len (nd_data arr) = length (batch_of d).
Proof.
  intros H Hb Hnd. pose proof H as Hrun.
  apply from_dict_run in Hrun as (its0 & rest' & li & dtypes & Hb' & _ & Hdt & Hrun).
  rewrite Hb in Hb'. injection Hb' as <- <-.
  pose proof (make_dtypes_names _ _ _ Hdt) as Hnames.
  destruct dtypes as [|dt dts]; [done|]. destruct Hrun as (x' & _ & Harr).
  destruct (from_dict_rows _ _ _ d arr (dt :: dts) H) as (rows & Hrows & Hlen & Hall);
    [by subst arr|].
  unfold structured. subst arr. cbn [nd_dtype nd_data dtype_names] in *. subst x'.
  split; [|split; [done|by cbn]].
  apply andb_true_iff. split; [apply bool_decide_eq_true; by rewrite Hnames|].
  apply forallb_forall. intros row Hrow.
  by apply list_elem_of_In, (proj1 (Forall_forall _ _) Hall) in Hrow.
Qed.

(** X14: the sanitizer accepts whatever [from_dict] compiles from records
    with fields: with its default replacement it does not raise, and
    returns an array of the same type with one row per record. *)
Theorem from_dict_then_replace_nans (d : value) (arr : ndarray) kv items0 rest :
  from_dict unicode_nfd category_Mn np_cast d = Ok arr →
  batch_of d = VDict (kv :: items0) :: rest → NoDup (kv :: items0).*1 →
  ∃ arr',
    replace_nans arr default_replacement_val = Ok arr' ∧ nd_dtype arr' = nd_dtype arr ∧
    np_len (nd_data arr') = length (batch_of d).
Proof.
  intros H Hb Hnd.
  destruct (from_dict_structured _ _ _ _ _ H Hb Hnd) as (Hs & _ & Hlen).
  destruct (structured_inv arr Hs) as (fields & rows & Ht & Hd).
  eexists. split; [by apply replace_nans_structured|]. cbn [nd_dtype nd_data].
  split; [done|]. rewrite Hd in Hlen. cbn in Hlen |- *. by rewrite length_fmap.
Qed.

(** X15: records without fields compile to the empty plain array, and on
    it the sanitizer raises [IndexError]: a plain array has no field to
    select by name. *)
Theorem from_dict_no_fields_replace_nans (d : value) rest (val : Z) :
  batch_of d = VDict [] :: rest →
  ∃ arr, from_dict unicode_nfd category_Mn np_cast d = Ok arr ∧
         np_len (nd_data arr) = 0%nat ∧
         replace_nans arr val = Raise IndexError.
Proof.
  intros Hb. eexists. split; [by eapply from_dict_no_fields|]. done.
Qed.

End SanitizeCompiled.

(** ** The JSON entry point, continued *)

Section ReadJsonMore.
Variable unicode_nfd : string → result string.
Variable category_Mn : ascii → bool.
Variable np_cast : cell → value → result cell.
Variable json_load : string → result value.
Variable eeg_dir_of : string → string.
Variable os_path_join : string → string → string.
Variable str_other : cell → string.

(** What a read that returns went through. *)
Lemma read_json_Ok (self : BaseEventReader) (w w' : world) (evs : ndarray) :
  read_json unicode_nfd category_Mn np_cast json_load eeg_dir_of os_path_join str_other
    self w = (Ok evs, w') →
  use_reref_eeg self = false ∧ w' = {| opened := filename self :: opened w |} ∧
  ∃ d arr evs1 b,
    json_load (filename self) = Ok d ∧
    from_dict unicode_nfd category_Mn np_cast d = Ok arr ∧
    (if eliminate_events_with_no_eeg self then eliminate_no_eeg str_other arr else Ok arr)
    = Ok evs1 ∧
    has_eegfile (nd_dtype evs1) = Ok b ∧
    if b then
      ∃ rows rows', nd_data evs1 = CArr rows ∧
                    mapM (join_eegfile os_path_join (eeg_dir_of (filename self))) rows
                    = Ok rows' ∧
                    evs = {| nd_dtype := nd_dtype evs1; nd_data := CArr rows' |}
    else evs = evs1.
Proof.
  unfold read_json, check_reader_settings_for_json_read.
  destruct (use_reref_eeg self); [done|].
  unfold mbind, io_bind, lift, from_json. cbn [fst snd].
  destruct (json_load (filename self)) as [d| |] eqn:Ed; [|done..].
  cbn [mbind result_bind].
  destruct (from_dict unicode_nfd category_Mn np_cast d) as [arr| |] eqn:Earr; [|done..].
  destruct (if eliminate_events_with_no_eeg self then _ else _) as [evs1| |] eqn:E1;
    [|done..].
  destruct (has_eegfile (nd_dtype evs1)) as [b| |] eqn:Eb; [|done..].
  intros H. split; [done|].
  destruct b.
  - destruct (nd_data evs1) as [| | | | | |rows] eqn:Erows; try done.
    destruct (mapM _ rows) as [rows'| |] eqn:Ejoin; [|done..].
    cbn in H. injection H as <- <-. split; [done|].
    exists d, arr, evs1, true. split; [done|]. split; [done|]. split; [done|].
    split; [done|]. by exists rows, rows'.
  - cbn in H. injection H as <- <-. split; [done|].
    by exists d, arr, evs1, false.
Qed.

(** What the indicator loop keeps. *)
Lemma eliminate_no_eeg_Ok (evs evs1 : ndarray) :
  eliminate_no_eeg str_other evs = Ok evs1 →
  nd_dtype evs1 = nd_dtype evs ∧
  ∃ rows rows1, nd_data evs = CArr rows ∧ nd_data evs1 = CArr rows1 ∧
                sublist rows1 rows ∧
                (∀ row, row ∈ rows → is_Ok (getattr_eegfile row) = true) ∧
                ∀ row, row ∈ rows1 →
                       ∃ c, getattr_eegfile row = Ok c ∧
                            (3 < length (chars (py_str str_other c)))%nat.
Proof.
  unfold eliminate_no_eeg. destruct (nd_data evs) as [| | | | | |rows]; try done.
  intros H. apply bind_Ok in H as (indicator & Hind & H). injection H as <-.
  split; [done|]. eexists rows, _. split; [done|]. split; [done|]. cbn [nd_data].
  apply mapM_Forall2 in Hind.
  induction Hind as [|row b rows indicator Hrow _ IH]; cbn.
  { split; [constructor|]. split; by intros ? ?%elem_of_nil. }
  destruct IH as (Hsub & Hall & Hkept).
  apply bind_Ok in Hrow as (c & Hc & Hb). injection Hb as <-.
  split; [|split].
  - destruct (3 <? _)%nat; cbn; [by apply sublist_skip|by apply sublist_cons].
  - intros r [->|Hr]%elem_of_cons; [by rewrite Hc|by apply Hall].
  - destruct (3 <? _)%nat eqn:E; cbn; [|done].
    intros r [->|Hr]%elem_of_cons; [|by apply Hkept].
    exists c. split; [done|]. by apply Nat.ltb_lt.
Qed.

Lemma join_eegfile_Ok dir (row row' : cell) :
  join_eegfile os_path_join dir row = Ok row' →
  ∃ s, getattr_eegfile row = Ok (CStr s) ∧
       getattr_eegfile row' = Ok (CStr (truncate256 (os_path_join dir s))) ∧
       ∀ k, k ≠ "eegfile" → np_getfield row' k = np_getfield row k.
Proof.
  unfold join_eegfile, getattr_eegfile.
  destruct row as [| | | | |fields|]; try done.
  destruct (assoc "eegfile" fields) as [c|] eqn:E; [|done].
  destruct c as [| |s| | | |]; try done. intros [= <-]. exists s.
  split; [done|]. cbn. rewrite assoc_dict_set, decide_True by done.
  split; [done|]. intros k Hk. by rewrite assoc_dict_set, decide_False.
Qed.

Lemma has_eegfile_rows (fields : list (string * dtype)) rows :
  Forall (λ r, row_has_fields fields.*1 r = true) rows → "eegfile" ∉ fields.*1 →
  ∀ row, row ∈ rows → getattr_eegfile row = Raise AttributeError.
Proof.
  intros Hrows Hk row Hrow.
  apply (proj1 (Forall_forall _ _) Hrows) in Hrow.
  destruct row as [| | | | |fs|]; try done. cbn in Hrow |- *.
  apply bool_decide_eq_true in Hrow. rewrite <-Hrow in Hk.
  apply assoc_None in Hk. by rewrite Hk.
Qed.


(** X17: [read_json] returns the events that [from_dict] compiled from the
    file, in their order and with their type; it leaves some out only
    with [eliminate_events_with_no_eeg], and changes no field but
    [eegfile].  The file it opened is the one named. *)
Theorem read_json_keeps_events (self : BaseEventReader) (w w' : world) (evs : ndarray) :
  read_json unicode_nfd category_Mn np_cast json_load eeg_dir_of os_path_join str_other
    self w = (Ok evs, w') →
  opened w' = filename self :: opened w ∧
  ∃ d arr rows0 rows kept,
    json_load (filename self) = Ok d ∧
    from_dict unicode_nfd category_Mn np_cast d = Ok arr ∧
    nd_dtype evs = nd_dtype arr ∧
    nd_data arr = CArr rows0 ∧ nd_data evs = CArr rows ∧
    sublist kept rows0 ∧
    (eliminate_events_with_no_eeg self = false → kept = rows0) ∧
    Forall2 (λ row' row, ∀ k, k ≠ "eegfile" → np_getfield row' k = np_getfield row k)
      rows kept.
Proof.
  intros H.
  apply read_json_Ok in H as (_ & -> & d & arr & evs1 & b & Hd & Harr & H1 & Hb & H).
  split; [done|].
  assert (∃ fields, nd_dtype evs1 = struct fields) as [fields Hfields].
  { unfold has_eegfile in Hb. destruct (nd_dtype evs1); try done. eauto. }
  assert (nd_dtype evs1 = nd_dtype arr ∧
          ∃ rows0 kept, nd_data arr = CArr rows0 ∧ nd_data evs1 = CArr kept ∧
                        sublist kept rows0 ∧
                        (eliminate_events_with_no_eeg self = false → kept = rows0))
    as (Ht & rows0 & kept & Hrows0 & Hkept & Hsub & Hsame).
  { destruct (eliminate_events_with_no_eeg self).
    - apply eliminate_no_eeg_Ok in H1 as (Ht & rows0 & rows1 & Hd0 & Hd1 & Hsub & _).
      split; [done|]. by exists rows0, rows1.
    - injection H1 as <-. split; [done|].
      destruct (from_dict_rows _ _ _ _ _ _ Harr Hfields) as (rs & Hrs & _).
      by exists rs, rs. }
  destruct b.
  - destruct H as (rs & rs' & Hrs & Hjoin & ->). rewrite Hkept in Hrs.
    injection Hrs as <-. exists d, arr, rows0, rs', kept. cbn [nd_dtype nd_data].
    split; [done|]. split; [done|]. split; [done|]. split; [done|]. split; [done|].
    split; [done|]. split; [done|].
    apply mapM_Forall2 in Hjoin. apply Forall2_flip.
    eapply Forall2_impl; [exact Hjoin|]. cbn. intros row row' Hj.
    by apply join_eegfile_Ok in Hj as (s & _ & _ & Hother).
  - subst evs1. exists d, arr, rows0, kept, kept.
    split; [done|]. split; [done|]. split; [done|]. split; [done|]. split; [done|].
    split; [done|]. split; [done|]. by apply Forall_Forall2_diag, Forall_true.
Qed.

(** X18: with [eliminate_events_with_no_eeg], as by default, a file whose
    records have fields but no [eegfile] cannot be read: [read_json]
    raises [AttributeError] at the first event. *)
Theorem read_json_requires_eegfile (self : BaseEventReader) (w : world) (d : value)
    (arr : ndarray) fields :
  use_reref_eeg self = false → eliminate_events_with_no_eeg self = true →
  json_load (filename self) = Ok d →
  from_dict unicode_nfd category_Mn np_cast d = Ok arr →
  nd_dtype arr = struct fields → "eegfile" ∉ fields.*1 →
  read_json unicode_nfd category_Mn np_cast json_load eeg_dir_of os_path_join str_other
    self w = (Raise AttributeError, {| opened := filename self :: opened w |}).
Proof.
  intros Hre Hflag Hd Harr Ht Hk.
  unfold read_json, check_reader_settings_for_json_read. rewrite Hre.
  unfold mbind at 1 2 3, io_bind, lift, from_json. rewrite Hd. cbn [mbind result_bind].
  rewrite Harr, Hflag.
  destruct (from_dict_rows _ _ _ _ _ _ Harr Ht) as (rows & Hrows & Hlen & Hnames).
  assert (eliminate_no_eeg str_other arr = Raise AttributeError) as ->; [|done].
  unfold eliminate_no_eeg. rewrite Hrows.
  destruct rows as [|row rows].
  { apply from_dict_run in Harr as (? & ? & ? & ? & Hb & _). by rewrite Hb in Hlen. }
  cbn [mapM]. rewrite (has_eegfile_rows fields (row :: rows)); [done|done|done|by left].
Qed.

(** X19: a file whose first record has no field cannot be read either:
    the empty plain array that [from_dict] makes of it has no field
    names, and [read_json] raises [TypeError] when it looks for
    [eegfile] among them. *)
Theorem read_json_no_fields (self : BaseEventReader) (w : world) (d : value) rest :
  use_reref_eeg self = false →
  json_load (filename self) = Ok d → batch_of d = VDict [] :: rest →
  read_json unicode_nfd category_Mn np_cast json_load eeg_dir_of os_path_join str_other
    self w = (Raise TypeError, {| opened := filename self :: opened w |}).
Proof.
  intros Hre Hd Hb.
  unfold read_json, check_reader_settings_for_json_read. rewrite Hre.
  unfold mbind at 1 2 3, io_bind, lift, from_json. rewrite Hd. cbn [mbind result_bind].
  rewrite (from_dict_no_fields _ _ _ d rest Hb).
  by destruct (eliminate_events_with_no_eeg self).
Qed.


End ReadJsonMore.

(** ** The flag [alter_eeg_path_flag] *)

Section AlterFlag.
Variable unicode_nfd : string → result string.
Variable category_Mn : ascii → bool.
Variable np_cast : cell → value → result cell.
Variable json_load : string → result value.
Variable eeg_dir_of : string → string.
Variable os_path_join : string → string → string.
Variable str_other : cell → string.


End AlterFlag.

(** ** Channel labels *)

Lemma digits_number (n : N) :
  ∃ d, NilEmpty.uint_of_string (digits n) = Some d ∧ N.of_uint d = n.
Proof.
  unfold digits, NilZero.string_of_uint.
  pose proof (DecimalN.Unsigned.of_to n) as Hn.
  destruct (N.to_uint n) as [|d|d|d|d|d|d|d|d|d|d] eqn:E;
    [exists (Decimal.D0 Decimal.Nil); by split|..];
    (eexists; split; [apply NilEmpty.usu|done]).
Qed.

Lemma uint_of_string_zeros (k : nat) (s : string) d :
  NilEmpty.uint_of_string s = Some d →
  ∃ d', NilEmpty.uint_of_string (of_chars (replicate k "0"%char ++ chars s)) = Some d' ∧
        N.of_uint d' = N.of_uint d.
Proof.
  intros H. induction k as [|k (d' & Hd' & E)]; cbn.
  - exists d. by rewrite of_chars_chars.
  - exists (Decimal.D0 d'). by rewrite Hd'.
Qed.

Lemma zero_pad_length (w : nat) (s : string) :
  (w ≤ length (chars (zero_pad w s)))%nat ∧
  ((length (chars s) ≤ w)%nat → length (chars (zero_pad w s)) = w).
Proof.
  unfold zero_pad. rewrite chars_of_chars, length_app, length_replicate. lia.
Qed.

Lemma label_number_digits (s : string) d :
  s ≠ EmptyString → NilEmpty.uint_of_string s = Some d →
  label_number s = Some (Z.of_N (N.of_uint d)).
Proof.
  destruct s as [|c r]; [done|]. intros _ H. unfold label_number.
  destruct (decide (c = "-"%char)) as [->|_]; [|by rewrite H].
  cbn in H. by destruct (NilEmpty.uint_of_string r).
Qed.

(** A label reads back as the number it was made of. *)
Lemma label_number_format_03 (c : Z) : label_number (format_03 c) = Some c.
Proof.
  unfold format_03. destruct (c <? 0)%Z eqn:E.
  - apply Z.ltb_lt in E. unfold label_number. rewrite decide_True by done.
    destruct (digits_number (Z.to_N (- c))) as (d & Hd & Hn).
    destruct (uint_of_string_zeros (2 - length (chars (digits (Z.to_N (- c))))) _ _ Hd)
      as (d' & Hd' & E').
    unfold zero_pad. rewrite Hd'. cbn. rewrite E', Hn. f_equal. lia.
  - apply Z.ltb_ge in E.
    destruct (digits_number (Z.to_N c)) as (d & Hd & Hn).
    destruct (uint_of_string_zeros (3 - length (chars (digits (Z.to_N c)))) _ _ Hd)
      as (d' & Hd' & E').
    rewrite (label_number_digits _ d').
    + rewrite E', Hn. f_equal. lia.
    + intros Hempty. pose proof (zero_pad_length 3 (digits (Z.to_N c))) as [Hlen _].
      rewrite Hempty in Hlen. cbn in Hlen. lia.
    + exact Hd'.
Qed.

Lemma format_03_length (c : Z) : (3 ≤ length (chars (format_03 c)))%nat.
Proof.
  unfold format_03. destruct (c <? 0)%Z.
  - pose proof (zero_pad_length 2 (digits (Z.to_N (- c)))) as [H _]. cbn. lia.
  - by pose proof (zero_pad_length 3 (digits (Z.to_N c))) as [H _].
Qed.

Lemma digits_length_3 (n : N) : (n < 1000)%N → (length (chars (digits n)) ≤ 3)%nat.
Proof.
  intros Hn.
  assert (forallb (λ i, length (chars (digits (N.of_nat i))) <=? 3)%nat (seq 0 1000) = true)
    as Hall by by vm_compute.
  rewrite forallb_forall in Hall. specialize (Hall (N.to_nat n)).
  rewrite N2Nat.id in Hall. apply Nat.leb_le, Hall, in_seq. lia.
Qed.

(** X21: [channel_labels_to_string] turns channel numbers into labels of
    at least three characters, exactly three for the numbers from 0 to
    999; a label reads back as its number, so distinct channels have
    distinct labels; and a second call changes nothing, the labels being
    byte strings by then. *)
Theorem channel_labels_to_string_labels (cs : list Z) (ls : list string) :
  channel_labels_to_string (int_labels cs) = bytes_labels ls →
  Forall2 (λ c l, label_number l = Some c ∧ (3 ≤ length (chars l))%nat ∧
                  ((0 ≤ c < 1000)%Z → length (chars l) = 3%nat)) cs ls ∧
  (NoDup cs → NoDup ls) ∧
  channel_labels_to_string (bytes_labels ls) = bytes_labels ls.
Proof.
  intros H.
  assert (ls = format_03 <$> cs) as ->.
  { destruct cs; [done|]. by injection H as <-. }
  split; [|split; [|done]].
  - apply Forall2_fmap_r, Forall_Forall2_diag, Forall_forall. intros c _.
    split; [apply label_number_format_03|]. split; [apply format_03_length|].
    intros [H0 H1]. unfold format_03. rewrite (proj2 (Z.ltb_ge c 0)) by done.
    apply zero_pad_length, digits_length_3. lia.
  - apply NoDup_fmap_2. intros c1 c2 Hc.
    pose proof (label_number_format_03 c1) as H1. rewrite Hc, label_number_format_03 in H1.
    by injection H1.
Qed.

(** ** The compiler reads its input by value *)

Section ByValue.
Variable unicode_nfd : string → result string.
Variable category_Mn : ascii → bool.
Variable np_cast : cell → value → result cell.

(** X22: what [from_dict] answers, an array or an exception, depends on
    the records as values only: two arguments that stand for the same
    tree, in whatever stores and however their dicts and lists are shared,
    compile to the same outcome, that of the tree. *)
Theorem store_from_dict_by_value fuel (h1 h2 : Store.heap) n p1 p2 (v : value) :
  (n < fuel)%nat → Store.rel n h1 p1 v → Store.rel n h2 p2 v →
  (Store.from_dict unicode_nfd category_Mn np_cast fuel p1 h1).1
  = (Store.from_dict unicode_nfd category_Mn np_cast fuel p2 h2).1 ∧
  (Store.from_dict unicode_nfd category_Mn np_cast fuel p1 h1).1
  = from_dict unicode_nfd category_Mn np_cast v.
Proof.
  intros Hn H1 H2.
  destruct (sim_from_dict unicode_nfd category_Mn np_cast fuel h1 n p1 v Hn H1 h1
              (unchanged_refl h1)) as (r1 & h1' & E1 & _ & Hr1).
  destruct (sim_from_dict unicode_nfd category_Mn np_cast fuel h2 n p2 v Hn H2 h2
              (unchanged_refl h2)) as (r2 & h2' & E2 & _ & Hr2).
  rewrite E1, E2. cbn [fst]. apply res_rel_eq in Hr1, Hr2. by subst.
Qed.

End ByValue.

(** ** The theorems at work on examples *)

Lemma from_dict_keys_known_witness :
  from_dict ascii_nfd no_Mn no_cast capacity_example = Ok capacity_example_compiled ∧
  ∃ items,
    VDict [("subject", VStr "R001"); ("eegfile", VStr "/mnt/x/data/events/R001b.mat");
           ("vals", VList [VInt 1; VInt 2; VInt 3])] = VDict items ∧
    items.*1 ⊆ ["subject"; "eegfile"; "vals"].
Proof.
  assert (from_dict ascii_nfd no_Mn no_cast capacity_example = Ok capacity_example_compiled)
    as Hrun by by vm_compute.
  split; [exact Hrun|].
  apply (from_dict_keys_known ascii_nfd no_Mn no_cast capacity_example
           capacity_example_compiled _ _ _ _ Hrun eq_refl).
  right. left.
Defined.

Lemma from_dict_container_keys_required_witness :
  from_dict ascii_nfd no_Mn no_cast capacity_example = Ok capacity_example_compiled ∧
  ∃ v, py_getitem
         (VDict [("subject", VStr "R001"); ("eegfile", VStr "/mnt/x/data/events/R001b.mat");
                 ("vals", VList [VInt 1; VInt 2; VInt 3])]) "vals" = Ok v.
Proof.
  assert (from_dict ascii_nfd no_Mn no_cast capacity_example = Ok capacity_example_compiled)
    as Hrun by by vm_compute.
  split; [exact Hrun|].
  apply (from_dict_container_keys_required ascii_nfd no_Mn no_cast capacity_example
           capacity_example_compiled _ _ "vals" (VList [VInt 1; VInt 2]) _ Hrun eq_refl).
  - right. right. left.
  - reflexivity.
  - right. left.
Defined.


Lemma from_dict_number_field_witness :
  from_dict ascii_nfd no_Mn no_cast mixed_example = Ok mixed_example_compiled ∧
  ((int64_min ≤ 8 ≤ int64_max)%Z ∧
   getitem_field (nd_data mixed_example_compiled) 1 "n" = Ok (CInt 8)) ∧
  getitem_field (nd_data mixed_example_compiled) 0 "ok" = Ok (CInt 1).
Proof.
  assert (from_dict ascii_nfd no_Mn no_cast mixed_example = Ok mixed_example_compiled)
    as Hrun by by vm_compute.
  split; [exact Hrun|]. split.
  - exact (from_dict_number_field ascii_nfd no_Mn no_cast mixed_example
             mixed_example_compiled "n" 1 _ (VInt 8) Hrun eq_refl eq_refl eq_refl).
  - exact (from_dict_number_field ascii_nfd no_Mn no_cast mixed_example
             mixed_example_compiled "ok" 0 _ (VBool true) Hrun eq_refl eq_refl eq_refl).
Defined.

Lemma from_dict_missing_scalar_zero_witness :
  from_dict ascii_nfd no_Mn no_cast mixed_example = Ok mixed_example_compiled ∧
  getitem_field (nd_data mixed_example_compiled) 1 "x" = Ok (CFloat (S754_zero false)).
Proof.
  assert (from_dict ascii_nfd no_Mn no_cast mixed_example = Ok mixed_example_compiled)
    as Hrun by by vm_compute.
  split; [exact Hrun|].
  exact (from_dict_missing_scalar_zero ascii_nfd no_Mn no_cast mixed_example
           mixed_example_compiled "x" float64 1 _ Hrun eq_refl eq_refl eq_refl eq_refl
           eq_refl).
Defined.


Lemma from_dict_empty_lists_float_witness :
  from_dict ascii_nfd no_Mn no_cast mixed_example = Ok mixed_example_compiled ∧
  ∃ t cap, field_dtype mixed_example_compiled "tags" = Some (subarray t cap) ∧
           t = float64 ∧ cap = 0%nat.
Proof.
  assert (from_dict ascii_nfd no_Mn no_cast mixed_example = Ok mixed_example_compiled)
    as Hrun by by vm_compute.
  split; [exact Hrun|].
  assert (field_dtype mixed_example_compiled "tags" = Some (subarray float64 0)) as Hk
    by by vm_compute.
  assert (∀ e, e ∈ batch_of mixed_example → seq_len e "tags" = 0%nat) as Hall.
  { intros e He. unfold mixed_example, batch_of in He.
    apply elem_of_cons in He as [->|He]; [by vm_compute|].
    apply elem_of_cons in He as [->|He]; [by vm_compute|]. inversion He. }
  exists float64, 0%nat. split; [exact Hk|].
  exact (from_dict_empty_lists_float ascii_nfd no_Mn no_cast mixed_example
           mixed_example_compiled "tags" float64 0 Hrun Hk Hall).
Defined.

Lemma classifier_never_bool_witness :
  get_element_dtype (VList [VBool true]) = Ok int64 ∧ uses_int8 int64 = false.
Proof.
  split; [reflexivity|].
  apply (classifier_never_bool (VList [VBool true]) int64). left. reflexivity.
Defined.

Lemma from_dict_never_bool_witness :
  from_dict ascii_nfd no_Mn no_cast mixed_example = Ok mixed_example_compiled ∧
  uses_int8 (nd_dtype mixed_example_compiled) = false.
Proof.
  assert (from_dict ascii_nfd no_Mn no_cast mixed_example = Ok mixed_example_compiled)
    as Hrun by by vm_compute.
  split; [exact Hrun|].
  exact (from_dict_never_bool ascii_nfd no_Mn no_cast mixed_example _ Hrun).
Defined.


Lemma strip_accents_fallback_ascii_witness :
  ascii_nfd cafe_slash_x = Raise UnicodeError ∧
  ∃ r, strip_accents ascii_nfd no_Mn cafe_slash_x = Ok r ∧
       Forall (λ c, (N_of_ascii c ≤ 122)%N) (chars r) ∧ "/"%char ∈ chars r.
Proof.
  split; [reflexivity|].
  destruct (strip_accents_fallback_ascii ascii_nfd no_Mn cafe_slash_x eq_refl)
    as (r & Hr & _ & Hascii & Hkeeps).
  exists r. split; [done|]. split; [done|]. apply Hkeeps.
  - cbn. do 5 right. left.
  - by vm_compute.
Defined.


Lemma from_dict_then_replace_nans_witness :
  from_dict ascii_nfd no_Mn no_cast capacity_example = Ok capacity_example_compiled ∧
  ∃ arr', replace_nans capacity_example_compiled default_replacement_val = Ok arr' ∧
          nd_dtype arr' = nd_dtype capacity_example_compiled ∧
          np_len (nd_data arr') = 2%nat.
Proof.
  assert (from_dict ascii_nfd no_Mn no_cast capacity_example = Ok capacity_example_compiled)
    as Hrun by by vm_compute.
  split; [exact Hrun|].
  apply (from_dict_then_replace_nans ascii_nfd no_Mn no_cast capacity_example
           capacity_example_compiled _ _ _ Hrun eq_refl).
  apply (bool_decide_unpack _). by vm_compute.
Defined.

Lemma from_dict_no_fields_replace_nans_witness :
  batch_of (VDict []) = [VDict []] ∧
  ∃ arr, from_dict ascii_nfd no_Mn no_cast (VDict []) = Ok arr ∧
         np_len (nd_data arr) = 0%nat ∧
         replace_nans arr default_replacement_val = Raise IndexError.
Proof.
  split; [reflexivity|].
  exact (from_dict_no_fields_replace_nans ascii_nfd no_Mn no_cast (VDict []) []
           default_replacement_val eq_refl).
Defined.


Lemma read_json_keeps_events_witness :
  read_json ascii_nfd no_Mn no_cast one_file_json plain_eeg_dir plain_path_join no_str
    (init "events.json" None None None None None) {| opened := [] |}
  = (Ok capacity_example_read, {| opened := ["events.json"] |}) ∧
  ∃ arr, from_dict ascii_nfd no_Mn no_cast capacity_example = Ok arr ∧
         nd_dtype capacity_example_read = nd_dtype arr.
Proof.
  assert (read_json ascii_nfd no_Mn no_cast one_file_json plain_eeg_dir plain_path_join
            no_str (init "events.json" None None None None None) {| opened := [] |}
          = (Ok capacity_example_read, {| opened := ["events.json"] |})) as Hrun
    by by vm_compute.
  split; [exact Hrun|].
  destruct (read_json_keeps_events ascii_nfd no_Mn no_cast one_file_json plain_eeg_dir
              plain_path_join no_str (init "events.json" None None None None None)
              {| opened := [] |} {| opened := ["events.json"] |} capacity_example_read Hrun)
    as (_ & d & arr & rows0 & rows & kept & Hd & Harr & Ht & _).
  assert (one_file_json (filename (init "events.json" None None None None None))
          = Ok capacity_example) as Hd' by by vm_compute.
  rewrite Hd' in Hd. injection Hd as <-.
  exists arr. split; [exact Harr|exact Ht].
Defined.

Lemma read_json_requires_eegfile_witness :
  from_dict ascii_nfd no_Mn no_cast (VList [VDict [("subject", VStr "R001")]])
  = Ok {| nd_dtype := struct [("subject", U256)];
          nd_data := CArr [CRec [("subject", CStr "R001")]] |} ∧
  read_json ascii_nfd no_Mn no_cast no_eegfile_json plain_eeg_dir plain_path_join no_str
    (init "events.json" None None None None None) {| opened := [] |}
  = (Raise AttributeError, {| opened := ["events.json"] |}).
Proof.
  assert (from_dict ascii_nfd no_Mn no_cast (VList [VDict [("subject", VStr "R001")]])
          = Ok {| nd_dtype := struct [("subject", U256)];
                  nd_data := CArr [CRec [("subject", CStr "R001")]] |}) as Hrun
    by by vm_compute.
  split; [exact Hrun|].
  assert ("eegfile" ∉ [("subject", U256)].*1) as Hk.
  { apply (bool_decide_unpack _). by vm_compute. }
  exact (read_json_requires_eegfile ascii_nfd no_Mn no_cast no_eegfile_json plain_eeg_dir
           plain_path_join no_str (init "events.json" None None None None None)
           {| opened := [] |} (VList [VDict [("subject", VStr "R001")]])
           {| nd_dtype := struct [("subject", U256)];
              nd_data := CArr [CRec [("subject", CStr "R001")]] |}
           [("subject", U256)] eq_refl eq_refl eq_refl Hrun eq_refl Hk).
Defined.

Lemma read_json_no_fields_witness :
  batch_of (VList [VDict []]) = [VDict []] ∧
  read_json ascii_nfd no_Mn no_cast empty_record_json plain_eeg_dir plain_path_join no_str
    (init "events.json" None None None None None) {| opened := [] |}
  = (Raise TypeError, {| opened := ["events.json"] |}).
Proof.
  split; [reflexivity|].
  exact (read_json_no_fields ascii_nfd no_Mn no_cast empty_record_json plain_eeg_dir
           plain_path_join no_str (init "events.json" None None None None None)
           {| opened := [] |} (VList [VDict []]) [] eq_refl eq_refl eq_refl).
Defined.

Lemma channel_labels_to_string_labels_witness :
  channel_labels_to_string (int_labels [1; 12; 123; -5])
  = bytes_labels ["001"; "012"; "123"; "-05"] ∧
  NoDup ["001"; "012"; "123"; "-05"] ∧
  label_number "012" = Some 12.
Proof.
  split; [reflexivity|].
  destruct (channel_labels_to_string_labels [1; 12; 123; -5] ["001"; "012"; "123"; "-05"]
              eq_refl) as (Hall & Hnd & _).
  split.
  - apply Hnd. apply (bool_decide_unpack _). by vm_compute.
  - apply Forall2_cons_1 in Hall as [_ Hall].
    apply Forall2_cons_1 in Hall as [[H _] _]. exact H.
Defined.

Lemma store_from_dict_by_value_witness :
  Store.rel 2 shared_record_heap (Store.PRef 2%positive) twice_record ∧
  Store.rel 2 copied_record_heap (Store.PRef 3%positive) twice_record ∧
  (Store.from_dict ascii_nfd no_Mn no_cast 3 (Store.PRef 2%positive) shared_record_heap).1
  = (Store.from_dict ascii_nfd no_Mn no_cast 3 (Store.PRef 3%positive) copied_record_heap).1.
Proof.
  assert (Store.rel 2 shared_record_heap (Store.PRef 2%positive) twice_record) as H1
    by by vm_compute.
  assert (Store.rel 2 copied_record_heap (Store.PRef 3%positive) twice_record) as H2
    by by vm_compute.
  split; [exact H1|]. split; [exact H2|].
  assert (2 < 3)%nat as Hlt by lia.
  exact (proj1 (store_from_dict_by_value ascii_nfd no_Mn no_cast 3 shared_record_heap
                  copied_record_heap 2 (Store.PRef 2%positive) (Store.PRef 3%positive)
                  twice_record Hlt H1 H2)).
Defined.

